(** * Shallow embedding of [hellomeme/models/hm_control.py]

    The five ControlNet variants of the file are modelled over a small
    tensor framework:
    - a tensor is a heap object (a Python object with an identity) holding a
      shape and a symbolic value, the expression that produced it;
    - torch, einops and diffusers operations are primitives of a state and
      exception monad: they read their operands from the heap, check shapes
      the way the framework does, and allocate a fresh result object;
    - calls of sub-modules ([self.conv_in(...)], [self.exp_proj(...)], ...)
      are logged in a trace together with the values of their arguments;
    - every exception is recorded at the moment it is raised, so that
      propagation (or recovery) can be observed;
    - the module itself ([self]) is part of the state, so that a forward pass
      could in principle write it. *)

From stdpp Require Import base list sets strings pretty.

Set Warnings "-register-all".

(* ------------------------------------------------------------------ *)
(** ** Framework values *)

Abbreviation ref := nat (only parsing).

(** Sub-modules of the networks, by attribute name. *)
Inductive submodule :=
| sub_conv_in
| sub_conv_up2_down0
| sub_conv_up1_down1
| sub_exp_embedding
| sub_emo_embedding
| sub_exp_proj
| sub_face_proj
| sub_emo_proj
| sub_blocks_down (i : nat)
(** [sys.stdout], where [print] and [logging] write: not a sub-module, but
    recorded in the trace like one. *)
| sys_stdout.

Global Instance submodule_eq_dec : EqDecision submodule.
Proof. solve_decision. Defined.

(** Symbolic tensor values: the expression a tensor was computed by. *)
Inductive value :=
| VArg (name : string)
| VMul (t : value) (c : nat)
| VRearrange (pattern : string) (t : value)
| VInterpolate (t : value) (oh ow : nat)
| VCall (m : submodule) (args : list value)
| VCat (ts : list value) (dim : nat).

Record tensor := mkTensor { shape : list nat; val : value }.

(** Python values passed to [forward]: a tensor or [None]. *)
Inductive pyobj := PyNone | PyTensor (r : ref).

(** Exceptions of Python, torch, einops and diffusers. *)
Inductive exn :=
| RuntimeError (msg : string)
| EinopsError (msg : string)
| TypeError (msg : string)
| ValueError (msg : string)
| IndexError (msg : string)
| KeyError (key : string)
| ZeroDivisionError
| AssertionError (msg : string).

Record event := mkEvent { ev_module : submodule; ev_args : list value }.

(** A Python dict from string keys to tensor references, in insertion order. *)
Definition dict := list (string * ref).

(** [d[k] = v]: overwrite in place when present, append otherwise. *)
Fixpoint dict_set (d : dict) (k : string) (v : ref) : dict :=
  match d with
  | [] => [(k, v)]
  | (k', v') :: d' => if decide (k = k') then (k, v) :: d' else (k', v') :: dict_set d' k v
  end.

Fixpoint dict_lookup (d : dict) (k : string) : option ref :=
  match d with
  | [] => None
  | (k', v') :: d' => if decide (k = k') then Some v' else dict_lookup d' k
  end.

(* ------------------------------------------------------------------ *)
(** ** The state and exception monad *)

Record state (Self : Type) := mkState {
  st_self : Self;
  st_heap : list tensor;
  st_trace : list event;
  st_raised : list exn
}.
Arguments mkState {Self}.
Arguments st_self {Self}.
Arguments st_heap {Self}.
Arguments st_trace {Self}.
Arguments st_raised {Self}.

Definition PyM (Self A : Type) := state Self -> (exn * state Self) + (A * state Self).

Definition ret {Self A} (a : A) : PyM Self A := fun st => inr (a, st).

Definition bind {Self A B} (m : PyM Self A) (k : A -> PyM Self B) : PyM Self B :=
  fun st => match m st with
            | inl (e, st') => inl (e, st')
            | inr (a, st') => k a st'
            end.

Notation "x <- m ;; k" := (bind m (fun x => k))
  (at level 100, m at next level, right associativity).

Definition raise {Self A} (e : exn) : PyM Self A :=
  fun st => inl (e, mkState (st_self st) (st_heap st) (st_trace st) (e :: st_raised st)).

Definition get_self {Self} : PyM Self Self := fun st => inr (st_self st, st).

Definition deref {Self} (r : ref) : PyM Self tensor :=
  fun st => match st_heap st !! r with
            | Some t => inr (t, st)
            | None => raise (RuntimeError "invalid tensor") st
            end.

Definition alloc {Self} (t : tensor) : PyM Self ref :=
  fun st => inr (length (st_heap st),
                 mkState (st_self st) (st_heap st ++ [t]) (st_trace st) (st_raised st)).

Definition log_call {Self} (m : submodule) (args : list value) : PyM Self unit :=
  fun st => inr (tt, mkState (st_self st) (st_heap st)
                              (st_trace st ++ [mkEvent m args]) (st_raised st)).

(** The state an outcome ends in. *)
Definition outcome_state {Self A} (o : (exn * state Self) + (A * state Self)) : state Self :=
  match o with inl (_, st) => st | inr (_, st) => st end.

(* ------------------------------------------------------------------ *)
(** ** Python operations the forward passes do not use

    The state and exception monad can express writes, handlers and output;
    the translation of [hm_control.py] below uses none of these operations,
    because its [forward] methods contain no attribute assignment, no in-place
    tensor operation, no [try] and no [print] or [logging] call. *)

(** An attribute assignment [self.<field> = ...]. *)
Definition set_self {Self} (f : Self -> Self) : PyM Self unit :=
  fun st => inr (tt, mkState (f (st_self st)) (st_heap st) (st_trace st) (st_raised st)).

(** An in-place tensor operation ([x.mul_(c)], [x[...] = y], [x += y]): the
    existing object [r] now holds [t]. *)
Definition store {Self} (r : ref) (t : tensor) : PyM Self unit :=
  fun st => match st_heap st !! r with
            | Some _ => inr (tt, mkState (st_self st) (<[r := t]> (st_heap st)) (st_trace st)
                                         (st_raised st))
            | None => raise (RuntimeError "invalid tensor") st
            end.

(** [try: m except Exception as e: h(e)]: the handler runs in the state the
    failed [m] left. *)
Definition try_except {Self A} (m : PyM Self A) (h : exn -> PyM Self A) : PyM Self A :=
  fun st => match m st with
            | inl (e, st') => h e st'
            | inr r => inr r
            end.

(** [print(msg)] (or [logging.info(msg)]). *)
Definition py_print {Self} (msg : string) : PyM Self unit :=
  log_call sys_stdout [VArg msg].

(* ------------------------------------------------------------------ *)
(** ** Primitives of the framework *)

(** Python floor division [a // b]. *)
Definition floordiv {Self} (a b : nat) : PyM Self nat :=
  if decide (b = 0) then raise ZeroDivisionError else ret (a / b).

(** [bs, _, video_length, h, w = condition.shape]. *)
Definition unpack5 {Self} (x : ref) : PyM Self (nat * nat * nat * nat * nat) :=
  t <- deref x ;;
  match shape t with
  | [b; c; f; h; w] => ret (b, c, f, h, w)
  | _ => raise (ValueError "wrong number of values to unpack")
  end.

Definition pat_flatten_frames := "b c f h w -> (b f) c h w".
Definition pat_unflatten_frames := "(b f) c h w -> b c f h w".
Definition pat_flatten_coeffs := "b f c -> (b f c)".
Definition pat_split_coeffs := "(b f c) d -> b f c d".
Definition pat_merge_bf := "b f c d -> (b f) c d".
Definition pat_split_bf := "(b f) c d -> b f c d".

(** einops composes [(b f)] with [b] major and [f] minor: element [(bi, fi)]
    goes to row [bi * f + fi], and a row [n] splits back into [(n / f, n mod f)]. *)
Definition merge_index (f bi fi : nat) : nat := bi * f + fi.
Definition split_index (f n : nat) : nat * nat := (n / f, n `mod` f).

(** [rearrange(x, "b c f h w -> (b f) c h w")]. *)
Definition rearrange_flatten_frames {Self} (x : ref) : PyM Self ref :=
  t <- deref x ;;
  match shape t with
  | [b; c; f; h; w] => alloc (mkTensor [b * f; c; h; w] (VRearrange pat_flatten_frames (val t)))
  | _ => raise (EinopsError pat_flatten_frames)
  end.

(** [rearrange(x, "(b f) c h w -> b c f h w", f=f)]. *)
Definition rearrange_unflatten_frames {Self} (f : nat) (x : ref) : PyM Self ref :=
  t <- deref x ;;
  match shape t with
  | [n; c; h; w] =>
      if decide (f <> 0 /\ n `mod` f = 0)
      then alloc (mkTensor [n / f; c; f; h; w] (VRearrange pat_unflatten_frames (val t)))
      else raise (EinopsError pat_unflatten_frames)
  | _ => raise (EinopsError pat_unflatten_frames)
  end.

(** [rearrange(x, "b f c -> (b f c)")]. *)
Definition rearrange_flatten_coeffs {Self} (x : ref) : PyM Self ref :=
  t <- deref x ;;
  match shape t with
  | [b; f; c] => alloc (mkTensor [b * f * c] (VRearrange pat_flatten_coeffs (val t)))
  | _ => raise (EinopsError pat_flatten_coeffs)
  end.

(** [rearrange(x, "(b f c) d -> b f c d", b=b, f=f, d=d)]. *)
Definition rearrange_split_coeffs {Self} (b f d : nat) (x : ref) : PyM Self ref :=
  t <- deref x ;;
  match shape t with
  | [n; d'] =>
      if decide (d' = d /\ b * f <> 0 /\ n `mod` (b * f) = 0)
      then alloc (mkTensor [b; f; n / (b * f); d] (VRearrange pat_split_coeffs (val t)))
      else raise (EinopsError pat_split_coeffs)
  | _ => raise (EinopsError pat_split_coeffs)
  end.

(** [rearrange(x, "b f c d -> (b f) c d")]. *)
Definition rearrange_merge_bf {Self} (x : ref) : PyM Self ref :=
  t <- deref x ;;
  match shape t with
  | [b; f; c; d] => alloc (mkTensor [b * f; c; d] (VRearrange pat_merge_bf (val t)))
  | _ => raise (EinopsError pat_merge_bf)
  end.

(** [rearrange(x, "(b f) c d -> b f c d", f=f)]. *)
Definition rearrange_split_bf {Self} (f : nat) (x : ref) : PyM Self ref :=
  t <- deref x ;;
  match shape t with
  | [n; c; d] =>
      if decide (f <> 0 /\ n `mod` f = 0)
      then alloc (mkTensor [n / f; f; c; d] (VRearrange pat_split_bf (val t)))
      else raise (EinopsError pat_split_bf)
  | _ => raise (EinopsError pat_split_bf)
  end.

(** [x * c] for a float literal [c]; [None * c] is a [TypeError]. *)
Definition mul {Self} (x : pyobj) (c : nat) : PyM Self ref :=
  match x with
  | PyNone => raise (TypeError "unsupported operand type(s) for *: 'NoneType' and 'float'")
  | PyTensor r => t <- deref r ;; alloc (mkTensor (shape t) (VMul (val t) c))
  end.

(** [x.to(dtype=...)]: dtypes are not modelled; converting a tensor to the
    dtype it has returns the tensor itself. *)
Definition to_dtype {Self} (x : ref) : PyM Self ref := ret x.

(** [F.interpolate(x, size=(oh, ow), mode='bilinear', align_corners=False)]. *)
Definition interpolate {Self} (x : ref) (oh ow : nat) : PyM Self ref :=
  t <- deref x ;;
  match shape t with
  | [n; c; h; w] =>
      if decide (oh = 0 \/ ow = 0)
      then raise (RuntimeError "Input and output sizes should be greater than 0")
      else if decide (c * h * w = 0)
      then raise (RuntimeError "Non-empty 4D data tensor expected")
      else alloc (mkTensor [n; c; oh; ow] (VInterpolate (val t) oh ow))
  | _ => raise (ValueError "Input and scale_factor must have the same number of spatial dimensions")
  end.

(** [torch.cat([x, y], dim=2)] on rank-4 tensors. *)
Definition cat_dim2 {Self} (x y : ref) : PyM Self ref :=
  tx <- deref x ;;
  ty <- deref y ;;
  match shape tx, shape ty with
  | [a0; a1; a2; a3], [b0; b1; b2; b3] =>
      if decide (a0 = b0 /\ a1 = b1 /\ a3 = b3)
      then alloc (mkTensor [a0; a1; a2 + b2; a3] (VCat [val tx; val ty] 2))
      else raise (RuntimeError "Sizes of tensors must match except in dimension 2")
  | _, _ => raise (RuntimeError "Tensors must have same number of dimensions")
  end.

(* ------------------------------------------------------------------ *)
(** ** Sub-module types *)

(** [nn.Conv2d(in_channels, out_channels, kernel_size, padding, bias)]. *)
Record Conv2d := mkConv2d {
  conv_in_channels : nat; conv_out_channels : nat;
  conv_kernel_size : nat; conv_padding : nat; conv_bias : bool }.

(** diffusers [Timesteps(num_channels, flip_sin_to_cos, downscale_freq_shift)]:
    the sinusoidal encoder, without learned parameters. *)
Record Timesteps := mkTimesteps {
  ts_num_channels : nat; ts_flip_sin_to_cos : bool; ts_downscale_freq_shift : nat }.

(** diffusers [TimestepEmbedding(in_channels, time_embed_dim)]:
    [linear_1], SiLU, [linear_2]. *)
Record TimestepEmbedding := mkTimestepEmbedding {
  te_in_channels : nat; te_time_embed_dim : nat }.

(** [SKCrossAttention(channel_in, channel_out, cross_attention_dim,
    num_positional_embeddings, num_positional_embeddings_hidden)] of
    [hm_blocks]. *)
Record SKCrossAttention := mkSKCrossAttention {
  sk_channel_in : nat; sk_channel_out : nat; sk_cross_attention_dim : nat;
  sk_num_positional_embeddings : nat; sk_num_positional_embeddings_hidden : nat }.

(** The spatial size a fusion block maps its input feature map to; the spec
    leaves it to the block ("internal downsampling in the fusion chain"). *)
Class SKSpatial := sk_out_hw : SKCrossAttention -> nat -> nat -> nat * nat.

(** [self.<m>(x)] for a [Conv2d] sub-module; the inputs here are batched
    (rank 4). *)
Definition conv2d_call {Self} (m : submodule) (cfg : Conv2d) (x : ref) : PyM Self ref :=
  t <- deref x ;;
  _ <- log_call m [val t] ;;
  match shape t with
  | [n; c; h; w] =>
      let k := conv_kernel_size cfg in
      let p := conv_padding cfg in
      if decide (c <> conv_in_channels cfg)
      then raise (RuntimeError "expected input to have in_channels channels")
      else if decide (h + 2 * p < k \/ w + 2 * p < k)
      then raise (RuntimeError "Kernel size can't be greater than actual input size")
      else alloc (mkTensor [n; conv_out_channels cfg; h + 2 * p - k + 1; w + 2 * p - k + 1]
                           (VCall m [val t]))
  | _ => raise (RuntimeError "Expected 3D (unbatched) or 4D (batched) input to conv2d")
  end.

(** [self.<m>(x)] for a [Timesteps] sub-module ([get_timestep_embedding]
    asserts a 1-d input). *)
Definition timesteps_call {Self} (m : submodule) (cfg : Timesteps) (x : ref) : PyM Self ref :=
  t <- deref x ;;
  _ <- log_call m [val t] ;;
  match shape t with
  | [n] => alloc (mkTensor [n; ts_num_channels cfg] (VCall m [val t]))
  | _ => raise (AssertionError "Timesteps should be a 1d-array")
  end.

(** [self.<m>(x)] for a [TimestepEmbedding] sub-module: linear layers on the
    last axis. *)
Definition timestep_embedding_call {Self} (m : submodule) (cfg : TimestepEmbedding) (x : ref)
  : PyM Self ref :=
  t <- deref x ;;
  _ <- log_call m [val t] ;;
  match last (shape t) with
  | Some d =>
      if decide (d = te_in_channels cfg)
      then alloc (mkTensor (removelast (shape t) ++ [te_time_embed_dim cfg]) (VCall m [val t]))
      else raise (RuntimeError "mat1 and mat2 shapes cannot be multiplied")
  | None => raise (RuntimeError "both arguments to linear need to be at least 1D")
  end.

(** Modelled from the spec: [SKCrossAttention.forward] of [hm_blocks], which
    is not part of the sources.  Section 4.6: it takes a visual feature map
    [(n, channel_in, h, w)] and a driving embedding sequence of width
    [cross_attention_dim], and returns a wider feature map
    [(n, channel_out, h', w')]. *)
Definition sk_call `{SKSpatial} {Self} (m : submodule) (cfg : SKCrossAttention) (x e : ref)
  : PyM Self ref :=
  tx <- deref x ;;
  te <- deref e ;;
  _ <- log_call m [val tx; val te] ;;
  match shape tx, shape te with
  | [n; c; h; w], [n'; _; d] =>
      if decide (c = sk_channel_in cfg /\ n' = n /\ d = sk_cross_attention_dim cfg)
      then let hw := sk_out_hw cfg h w in
           alloc (mkTensor [n; sk_channel_out cfg; fst hw; snd hw] (VCall m [val tx; val te]))
      else raise (RuntimeError "shape mismatch in SKCrossAttention")
  | _, _ => raise (RuntimeError "shape mismatch in SKCrossAttention")
  end.

(** [for idx, x in enumerate(l): acc = body(idx, x, acc)]. *)
Fixpoint for_enumerate_from {Self B A} (i : nat) (l : list B) (body : nat -> B -> A -> PyM Self A)
    (acc : A) : PyM Self A :=
  match l with
  | [] => ret acc
  | b :: l' => acc' <- body i b acc ;; for_enumerate_from (S i) l' body acc'
  end.

Definition for_enumerate {Self B A} (l : list B) (body : nat -> B -> A -> PyM Self A) (acc : A)
  : PyM Self A := for_enumerate_from 0 l body acc.

(** [ret_dict[k]]. *)
Definition dict_get {Self} (d : dict) (k : string) : PyM Self ref :=
  match dict_lookup d k with Some r => ret r | None => raise (KeyError k) end.

(** [for i in range(1, len(block_out_channels)): SKCrossAttention(
    block_out_channels[i-1], block_out_channels[i], cross_attention_dim, 64, hidden)].
    Modelled from the spec: the constructor of [SKCrossAttention] ([hm_blocks],
    not part of the sources) is taken to never raise; only its configuration is
    recorded. *)
Definition build_blocks (block_out_channels : list nat) (cross_attention_dim hidden : nat)
  : list SKCrossAttention :=
  map (fun i => mkSKCrossAttention (nth (i - 1) block_out_channels 0)
                                   (nth i block_out_channels 0)
                                   cross_attention_dim 64 hidden)
      (seq 1 (length block_out_channels - 1)).

(* ------------------------------------------------------------------ *)
(** ** [HMControlNet] *)

Module HMControlNet.

Record t := mk {
  scale_factor : nat;
  embedding_channels : nat;
  cross_attention_dim : nat;
  conv_in : Conv2d;
  exp_embedding : Timesteps;
  exp_proj : TimestepEmbedding;
  face_proj : TimestepEmbedding;
  blocks_down : list SKCrossAttention
}.

Definition init (embedding_channels input_channels scale_factor cross_attention_dim : nat)
    (block_out_channels : list nat) : exn + t :=
  match block_out_channels !! 0 with
  | None => inl (IndexError "tuple index out of range")
  | Some c0 =>
      inr (mk scale_factor embedding_channels cross_attention_dim
              (mkConv2d input_channels c0 3 1 false)
              (mkTimesteps cross_attention_dim true 0)
              (mkTimestepEmbedding cross_attention_dim cross_attention_dim)
              (mkTimestepEmbedding 1024 cross_attention_dim)
              (build_blocks block_out_channels cross_attention_dim 64))
  end.

Definition forward `{SKSpatial} (condition drive_coeff face_parts : ref) : PyM t dict :=
  self <- get_self ;;
  sh <- unpack5 condition ;;
  let '(bs, _, video_length, h, w) := sh in
  condition <- rearrange_flatten_frames condition ;;
  oh <- floordiv h (scale_factor self) ;;
  ow <- floordiv w (scale_factor self) ;;
  conditioning <- interpolate condition oh ow ;;
  embedding <- conv2d_call sub_conv_in (conv_in self) conditioning ;;

  drive_coeff <- mul (PyTensor drive_coeff) 500 ;;
  drive_coeff <- rearrange_flatten_coeffs drive_coeff ;;
  drive_embedding <- timesteps_call sub_exp_embedding (exp_embedding self) drive_coeff ;;
  drive_embedding <- to_dtype drive_embedding ;;
  drive_embedding <- rearrange_split_coeffs bs video_length (cross_attention_dim self)
                       drive_embedding ;;

  face_parts <- rearrange_merge_bf face_parts ;;
  face_embedding <- timestep_embedding_call sub_face_proj (face_proj self) face_parts ;;
  face_embedding <- rearrange_split_bf video_length face_embedding ;;

  drive_embedding <- cat_dim2 face_embedding drive_embedding ;;
  drive_embedding <- rearrange_merge_bf drive_embedding ;;
  drive_embedding <- timestep_embedding_call sub_exp_proj (exp_proj self) drive_embedding ;;

  acc <- for_enumerate (blocks_down self)
    (fun idx block acc =>
       let '(embedding, ret_dict) := acc in
       embedding <- sk_call (sub_blocks_down idx) block embedding drive_embedding ;;
       out <- rearrange_unflatten_frames video_length embedding ;;
       ret (embedding, dict_set ret_dict ("down_" +:+ pretty idx) out))
    (embedding, []) ;;
  ret (snd acc).

End HMControlNet.

(* ------------------------------------------------------------------ *)
(** ** [HMControlNet2] *)

Module HMControlNet2.

Record t := mk {
  scale_factor : nat;
  embedding_channels : nat;
  cross_attention_dim : nat;
  conv_in : Conv2d;
  exp_embedding : Timesteps;
  emo_proj : TimestepEmbedding;
  blocks_down : list SKCrossAttention
}.

Definition init (embedding_channels input_channels scale_factor cross_attention_dim : nat)
    (block_out_channels : list nat) : exn + t :=
  match block_out_channels !! 0 with
  | None => inl (IndexError "tuple index out of range")
  | Some c0 =>
      inr (mk scale_factor embedding_channels cross_attention_dim
              (mkConv2d input_channels c0 3 1 false)
              (mkTimesteps cross_attention_dim true 0)
              (mkTimestepEmbedding cross_attention_dim cross_attention_dim)
              (build_blocks block_out_channels cross_attention_dim 1024))
  end.

Definition forward `{SKSpatial} (condition emo_embedding : ref) : PyM t dict :=
  self <- get_self ;;
  sh <- unpack5 condition ;;
  let '(bs, _, video_length, h, w) := sh in
  condition <- rearrange_flatten_frames condition ;;
  oh <- floordiv h (scale_factor self) ;;
  ow <- floordiv w (scale_factor self) ;;
  condition <- interpolate condition oh ow ;;
  embedding <- conv2d_call sub_conv_in (conv_in self) condition ;;

  drive_coeff <- mul (PyTensor emo_embedding) 20 ;;
  drive_coeff <- rearrange_flatten_coeffs drive_coeff ;;
  drive_embedding <- timesteps_call sub_exp_embedding (exp_embedding self) drive_coeff ;;
  drive_embedding <- to_dtype drive_embedding ;;
  drive_embedding <- rearrange_split_coeffs bs video_length (cross_attention_dim self)
                       drive_embedding ;;
  drive_embedding <- rearrange_merge_bf drive_embedding ;;
  drive_embedding <- timestep_embedding_call sub_emo_proj (emo_proj self) drive_embedding ;;

  acc <- for_enumerate (blocks_down self)
    (fun idx block acc =>
       let '(embedding, ret_dict) := acc in
       embedding <- sk_call (sub_blocks_down idx) block embedding drive_embedding ;;
       out <- rearrange_unflatten_frames video_length embedding ;;
       ret (embedding, dict_set ret_dict ("down2_" +:+ pretty idx) out))
    (embedding, []) ;;
  ret (snd acc).

End HMControlNet2.

(* ------------------------------------------------------------------ *)
(** ** [HMV2ControlNet] *)

Module HMV2ControlNet.

Record t := mk {
  scale_factor : nat;
  embedding_channels : nat;
  cross_attention_dim : nat;
  conv_in : Conv2d;
  exp_embedding : Timesteps;
  exp_proj : TimestepEmbedding;
  face_proj : TimestepEmbedding;
  blocks_down : list SKCrossAttention
}.

Definition init (embedding_channels input_channels scale_factor cross_attention_dim : nat)
    (block_out_channels : list nat) : exn + t :=
  match block_out_channels !! 0 with
  | None => inl (IndexError "tuple index out of range")
  | Some c0 =>
      inr (mk scale_factor embedding_channels cross_attention_dim
              (mkConv2d input_channels c0 3 1 false)
              (mkTimesteps cross_attention_dim true 0)
              (mkTimestepEmbedding cross_attention_dim cross_attention_dim)
              (mkTimestepEmbedding 1024 cross_attention_dim)
              (build_blocks block_out_channels cross_attention_dim 1024))
  end.

Definition forward `{SKSpatial} (condition drive_coeff face_parts : ref) : PyM t dict :=
  self <- get_self ;;
  sh <- unpack5 condition ;;
  let '(bs, _, video_length, h, w) := sh in
  conditioning <- rearrange_flatten_frames condition ;;
  oh <- floordiv h (scale_factor self) ;;
  ow <- floordiv w (scale_factor self) ;;
  conditioning <- interpolate conditioning oh ow ;;
  embedding <- conv2d_call sub_conv_in (conv_in self) conditioning ;;

  drive_coeff <- mul (PyTensor drive_coeff) 500 ;;
  drive_coeff <- rearrange_flatten_coeffs drive_coeff ;;
  drive_embedding <- timesteps_call sub_exp_embedding (exp_embedding self) drive_coeff ;;
  drive_embedding <- to_dtype drive_embedding ;;
  drive_embedding <- rearrange_split_coeffs bs video_length (cross_attention_dim self)
                       drive_embedding ;;

  face_parts <- rearrange_merge_bf face_parts ;;
  face_embedding <- timestep_embedding_call sub_face_proj (face_proj self) face_parts ;;
  face_embedding <- rearrange_split_bf video_length face_embedding ;;

  drive_embedding <- cat_dim2 face_embedding drive_embedding ;;
  drive_embedding <- rearrange_merge_bf drive_embedding ;;
  drive_embedding <- timestep_embedding_call sub_exp_proj (exp_proj self) drive_embedding ;;

  acc <- for_enumerate (blocks_down self)
    (fun idx block acc =>
       let '(embedding, ret_dict) := acc in
       embedding <- sk_call (sub_blocks_down idx) block embedding drive_embedding ;;
       out <- rearrange_unflatten_frames video_length embedding ;;
       ret (embedding, dict_set ret_dict
                         ("up_v2_" +:+ pretty (length (blocks_down self) - idx - 1)) out))
    (embedding, []) ;;
  ret (snd acc).

End HMV2ControlNet.

(* ------------------------------------------------------------------ *)
(** ** [HMV3ControlNet] *)

Module HMV3ControlNet.

Record t := mk {
  scale_factor : nat;
  embedding_channels : nat;
  cross_attention_dim : nat;
  conv_in : Conv2d;
  conv_up2_down0 : Conv2d;
  conv_up1_down1 : Conv2d;
  emo_embedding : Timesteps;
  exp_embedding : Timesteps;
  exp_proj : TimestepEmbedding;
  face_proj : TimestepEmbedding;
  emo_proj : TimestepEmbedding;
  blocks_down : list SKCrossAttention
}.

Definition init (embedding_channels input_channels scale_factor cross_attention_dim : nat)
    (block_out_channels : list nat) : exn + t :=
  match block_out_channels !! 0 with
  | None => inl (IndexError "tuple index out of range")
  | Some c0 =>
      inr (mk scale_factor embedding_channels cross_attention_dim
              (mkConv2d input_channels c0 3 1 false)
              (mkConv2d 1280 320 1 0 false)
              (mkConv2d 1280 640 1 0 false)
              (mkTimesteps cross_attention_dim true 0)
              (mkTimesteps cross_attention_dim true 0)
              (mkTimestepEmbedding cross_attention_dim cross_attention_dim)
              (mkTimestepEmbedding 1024 cross_attention_dim)
              (mkTimestepEmbedding cross_attention_dim cross_attention_dim)
              (build_blocks block_out_channels cross_attention_dim 1024))
  end.

(** The body of the fusion loop of [forward]. *)
Definition loop_body `{SKSpatial} (self : t) (video_length : nat) (drive_embedding : ref)
    (idx : nat) (block : SKCrossAttention) (acc : ref * dict) : PyM t (ref * dict) :=
  let '(embedding, ret_dict) := acc in
  embedding <- sk_call (sub_blocks_down idx) block embedding drive_embedding ;;
  let up_idx := length (blocks_down self) - idx - 1 in
  out <- rearrange_unflatten_frames video_length embedding ;;
  let ret_dict := dict_set ret_dict ("up3_" +:+ pretty up_idx) out in
  ret_dict <- (if decide (up_idx = 2)
               then y <- conv2d_call sub_conv_up2_down0 (conv_up2_down0 self) embedding ;;
                    y <- rearrange_unflatten_frames video_length y ;;
                    ret (dict_set ret_dict "down3_0" y)
               else ret ret_dict) ;;
  ret_dict <- (if decide (up_idx = 1)
               then y <- conv2d_call sub_conv_up1_down1 (conv_up1_down1 self) embedding ;;
                    y <- rearrange_unflatten_frames video_length y ;;
                    ret (dict_set ret_dict "down3_1" y)
               else ret ret_dict) ;;
  ret_dict <- (if decide (up_idx = 0)
               then y <- dict_get ret_dict "up3_0" ;;
                    let ret_dict := dict_set ret_dict "down3_2" y in
                    y <- dict_get ret_dict "up3_0" ;;
                    ret (dict_set ret_dict "down3_3" y)
               else ret ret_dict) ;;
  ret (embedding, ret_dict).

Definition forward `{SKSpatial} (condition : ref) (drive_coeff face_parts emo_embedding : pyobj)
  : PyM t dict :=
  self <- get_self ;;
  sh <- unpack5 condition ;;
  let '(bs, _, video_length, h, w) := sh in
  conditioning <- rearrange_flatten_frames condition ;;
  oh <- floordiv h (scale_factor self) ;;
  ow <- floordiv w (scale_factor self) ;;
  conditioning <- interpolate conditioning oh ow ;;
  embedding <- conv2d_call sub_conv_in (conv_in self) conditioning ;;

  drive_embedding <-
    match drive_coeff, face_parts with
    | PyTensor drive_coeff, PyTensor face_parts =>
        drive_coeff <- mul (PyTensor drive_coeff) 500 ;;
        drive_coeff <- rearrange_flatten_coeffs drive_coeff ;;
        drive_embedding <- timesteps_call sub_exp_embedding (exp_embedding self) drive_coeff ;;
        drive_embedding <- to_dtype drive_embedding ;;
        drive_embedding <- rearrange_split_coeffs bs video_length (cross_attention_dim self)
                             drive_embedding ;;
        face_parts <- rearrange_merge_bf face_parts ;;
        face_embedding <- timestep_embedding_call sub_face_proj (face_proj self) face_parts ;;
        face_embedding <- rearrange_split_bf video_length face_embedding ;;
        drive_embedding <- cat_dim2 face_embedding drive_embedding ;;
        drive_embedding <- rearrange_merge_bf drive_embedding ;;
        timestep_embedding_call sub_exp_proj (exp_proj self) drive_embedding
    | _, _ =>
        emo_coeff <- mul emo_embedding 20 ;;
        emo_coeff <- rearrange_flatten_coeffs emo_coeff ;;
        emo_embedding <- timesteps_call sub_emo_embedding (HMV3ControlNet.emo_embedding self) emo_coeff ;;
        emo_embedding <- to_dtype emo_embedding ;;
        emo_embedding <- rearrange_split_coeffs bs video_length (cross_attention_dim self)
                           emo_embedding ;;
        emo_embedding <- rearrange_merge_bf emo_embedding ;;
        timestep_embedding_call sub_emo_proj (emo_proj self) emo_embedding
    end ;;

  acc <- for_enumerate (blocks_down self) (loop_body self video_length drive_embedding)
           (embedding, []) ;;
  ret (snd acc).

End HMV3ControlNet.

(* ------------------------------------------------------------------ *)
(** ** [HMV2ControlNet2] *)

Module HMV2ControlNet2.

Record t := mk {
  scale_factor : nat;
  embedding_channels : nat;
  cross_attention_dim : nat;
  conv_in : Conv2d;
  exp_embedding : Timesteps;
  emo_proj : TimestepEmbedding;
  blocks_down : list SKCrossAttention
}.

Definition init (embedding_channels input_channels scale_factor cross_attention_dim : nat)
    (block_out_channels : list nat) : exn + t :=
  match block_out_channels !! 0 with
  | None => inl (IndexError "tuple index out of range")
  | Some c0 =>
      inr (mk scale_factor embedding_channels cross_attention_dim
              (mkConv2d input_channels c0 3 1 false)
              (mkTimesteps cross_attention_dim true 0)
              (mkTimestepEmbedding cross_attention_dim cross_attention_dim)
              (build_blocks block_out_channels cross_attention_dim 1024))
  end.

Definition forward `{SKSpatial} (condition emo_embedding : ref) : PyM t dict :=
  self <- get_self ;;
  sh <- unpack5 condition ;;
  let '(bs, _, video_length, h, w) := sh in
  conditioning <- rearrange_flatten_frames condition ;;
  oh <- floordiv h (scale_factor self) ;;
  ow <- floordiv w (scale_factor self) ;;
  conditioning <- interpolate conditioning oh ow ;;
  embedding <- conv2d_call sub_conv_in (conv_in self) conditioning ;;

  drive_coeff <- mul (PyTensor emo_embedding) 20 ;;
  drive_coeff <- rearrange_flatten_coeffs drive_coeff ;;
  drive_embedding <- timesteps_call sub_exp_embedding (exp_embedding self) drive_coeff ;;
  drive_embedding <- to_dtype drive_embedding ;;
  drive_embedding <- rearrange_split_coeffs bs video_length (cross_attention_dim self)
                       drive_embedding ;;
  drive_embedding <- rearrange_merge_bf drive_embedding ;;
  drive_embedding <- timestep_embedding_call sub_emo_proj (emo_proj self) drive_embedding ;;

  acc <- for_enumerate (blocks_down self)
    (fun idx block acc =>
       let '(embedding, ret_dict) := acc in
       embedding <- sk_call (sub_blocks_down idx) block embedding drive_embedding ;;
       out <- rearrange_unflatten_frames video_length embedding ;;
       ret (embedding, dict_set ret_dict
                         ("up2_v2_" +:+ pretty (length (blocks_down self) - idx - 1)) out))
    (embedding, []) ;;
  ret (snd acc).

End HMV2ControlNet2.

(* ------------------------------------------------------------------ *)
(** ** Well-behaved computations *)

(** [st'] keeps [self] and extends the heap of [st]: no object is written. *)
Definition heap_grows {Self} (st st' : state Self) : Prop :=
  st_self st' = st_self st /\ st_heap st `prefix_of` st_heap st'.

(** ... and the calls logged in between satisfy [P]. *)
Definition step_ok {Self} (P : event -> Prop) (st st' : state Self) : Prop :=
  heap_grows st st' /\ exists new, st_trace st' = st_trace st ++ new /\ Forall P new.

Definition stable {Self} (I : state Self -> Prop) : Prop :=
  forall st st', I st -> heap_grows st st' -> I st'.

(** A well-behaved computation: from a state satisfying [I] it only grows
    the heap, logs calls satisfying [P], and raises at most the exception it
    ends with (none when it returns). *)
Definition wb {Self A} (I : state Self -> Prop) (P : event -> Prop) (m : PyM Self A) : Prop :=
  forall st, I st ->
    match m st with
    | inr (_, st') => step_ok P st st' /\ st_raised st' = st_raised st
    | inl (e, st') => step_ok P st st' /\ st_raised st' = e :: st_raised st
    end.

(** The exceptions raised during a call, the new head of [st_raised]:
    none when the call returned, exactly the returned one when it raised. *)
Definition propagates {Self A} (o : (exn * state Self) + (A * state Self)) (st : state Self)
  : Prop :=
  match o with
  | inr (_, st') => st_raised st' = st_raised st
  | inl (e, st') => st_raised st' = e :: st_raised st
  end.

(** The exceptions the framework operations of the model raise, with their
    messages: torch's [RuntimeError]s, einops' [EinopsError] on each pattern,
    Python's [TypeError] of [None * c], [ValueError] of a failed unpacking or
    of [F.interpolate], [ZeroDivisionError], [IndexError] of a tuple index,
    diffusers' assertion on [Timesteps] inputs and the [KeyError] of a dict
    read.  An exception the code raised itself ([raise ValueError("...")] of
    an input check) is none of these. *)
Definition framework_runtime_messages : list string :=
  ["invalid tensor"; "Input and output sizes should be greater than 0";
   "Non-empty 4D data tensor expected"; "Sizes of tensors must match except in dimension 2";
   "Tensors must have same number of dimensions"; "expected input to have in_channels channels";
   "Kernel size can't be greater than actual input size";
   "Expected 3D (unbatched) or 4D (batched) input to conv2d";
   "mat1 and mat2 shapes cannot be multiplied"; "both arguments to linear need to be at least 1D";
   "shape mismatch in SKCrossAttention"].

Definition framework_einops_patterns : list string :=
  [pat_flatten_frames; pat_unflatten_frames; pat_flatten_coeffs; pat_split_coeffs;
   pat_merge_bf; pat_split_bf].

Definition is_framework_error (e : exn) : bool :=
  match e with
  | RuntimeError msg => bool_decide (msg ∈ framework_runtime_messages)
  | EinopsError pat => bool_decide (pat ∈ framework_einops_patterns)
  | TypeError msg => bool_decide (msg = "unsupported operand type(s) for *: 'NoneType' and 'float'")
  | ValueError msg =>
      bool_decide (msg ∈ ["wrong number of values to unpack";
                          "Input and scale_factor must have the same number of spatial dimensions"])
  | IndexError msg => bool_decide (msg = "tuple index out of range")
  | KeyError _ => true
  | ZeroDivisionError => true
  | AssertionError msg => bool_decide (msg = "Timesteps should be a 1d-array")
  end.

(** [m] can only fail with an exception satisfying [R]. *)
Definition raises_only {Self A} (R : exn -> Prop) (m : PyM Self A) : Prop :=
  forall st e st', m st = inl (e, st') -> R e.

(** An unhandled pass-through: the call raised nothing but the exception it
    ends with ([propagates]: nothing was caught, recovered from or retried),
    that exception is a framework's ([is_framework_error]), and nothing was
    printed or logged. *)
Definition passes_through {Self A} (o : (exn * state Self) + (A * state Self)) (st : state Self)
  : Prop :=
  propagates o st /\
  (forall e st', o = inl (e, st') -> is_framework_error e = true) /\
  exists new, st_trace (outcome_state o) = st_trace st ++ new /\
              Forall (fun ev => ev_module ev <> sys_stdout) new.

(** On success, [m] logged a call of every sub-module of [ms]. *)
Definition must_log {Self A} (ms : list submodule) (m : PyM Self A) : Prop :=
  forall st a st', m st = inr (a, st') ->
    exists new, st_trace st' = st_trace st ++ new /\
                Forall (fun x => exists ev, ev ∈ new /\ ev_module ev = x) ms.

(** The embedding sub-modules of the two driving-signal paths of
    [HMV3ControlNet.forward]. *)
Definition dual_path_module (m : submodule) : bool :=
  match m with sub_exp_embedding | sub_face_proj | sub_exp_proj => true | _ => false end.

Definition emo_path_module (m : submodule) : bool :=
  match m with sub_emo_embedding | sub_emo_proj => true | _ => false end.

(** [not (drive_coeff is None or face_parts is None)]. *)
Definition both_supplied (drive_coeff face_parts : pyobj) : bool :=
  match drive_coeff, face_parts with PyTensor _, PyTensor _ => true | _, _ => false end.

(** A Python argument refers to an existing tensor (or is [None]). *)
Definition valid_arg (heap : list tensor) (x : pyobj) : Prop :=
  match x with PyNone => True | PyTensor r => is_Some (heap !! r) end.

(** A call of the sinusoidal encoder [m] receives [x * c], flattened by
    ["b f c -> (b f c)"], where [x] is the argument tensor as it was in
    [heap] when [forward] was called. *)
Definition encoder_input_scaled (heap : list tensor) (x : pyobj) (c : nat) (m : submodule)
    (ev : event) : Prop :=
  if decide (ev_module ev = m)
  then exists r t, x = PyTensor r /\ heap !! r = Some t /\
                   ev_args ev = [VRearrange pat_flatten_coeffs (VMul (val t) c)]
  else True.

(** Every call made during [o] satisfies [P]; a call that returns has called
    the encoder [enc]. *)
Definition encoding_report {Self A} (o : (exn * state Self) + (A * state Self))
    (st : state Self) (enc : submodule) (P : event -> Prop) : Prop :=
  (exists new, st_trace (outcome_state o) = st_trace st ++ new /\ Forall P new) /\
  (forall a st', o = inr (a, st') ->
     exists new, st_trace st' = st_trace st ++ new /\ exists ev, ev ∈ new /\ ev_module ev = enc).

(* ------------------------------------------------------------------ *)
(** ** Results of [forward] *)

(** What [drive_coeff * 500] or [emo_embedding * 20] raises when the operand
    is [None]. *)
Definition none_mul_error : exn :=
  TypeError "unsupported operand type(s) for *: 'NoneType' and 'float'".

(** A fusion block with its [hidden] width replaced. *)
Definition with_hidden (hidden : nat) (blk : SKCrossAttention) : SKCrossAttention :=
  mkSKCrossAttention (sk_channel_in blk) (sk_channel_out blk) (sk_cross_attention_dim blk)
                     (sk_num_positional_embeddings blk) hidden.

(** The body of the fusion loop of the four single-output variants
    ([HMControlNet], [HMControlNet2], [HMV2ControlNet], [HMV2ControlNet2]):
    they differ only in the key [key idx] under which stage [idx] is stored. *)
Definition simple_body `{SKSpatial} {Self} (key : nat -> string) (de vl : ref)
    (idx : nat) (block : SKCrossAttention) (acc : ref * dict) : PyM Self (ref * dict) :=
  let '(embedding, ret_dict) := acc in
  embedding <- sk_call (sub_blocks_down idx) block embedding de ;;
  out <- rearrange_unflatten_frames vl embedding ;;
  ret (embedding, dict_set ret_dict (key idx) out).

(** The entries "down3_2" and "down3_3" alias the entry "up3_0". *)
Definition up3_0_aliased (d : dict) : Prop :=
  forall r, dict_lookup d "up3_0" = Some r ->
            dict_lookup d "down3_2" = Some r /\ dict_lookup d "down3_3" = Some r.

(** The keys the fusion stage of [HMV3ControlNet.forward] with [up_idx] adds,
    in order. *)
Definition HMV3_stage_keys (up_idx : nat) : list string :=
  ["up3_" +:+ pretty up_idx] ++
  (if decide (up_idx = 2) then ["down3_0"] else []) ++
  (if decide (up_idx = 1) then ["down3_1"] else []) ++
  (if decide (up_idx = 0) then ["down3_2"; "down3_3"] else []).

(** The keys after the first [i] of [n] stages. *)
Definition HMV3_keys (n i : nat) : list string :=
  concat (map (fun idx => HMV3_stage_keys (n - idx - 1)) (seq 0 i)).

(** [r] is a rank-5 tensor [(B, c, F, h, w)] with a channel width [c] of
    [allowed]. *)
Definition entry_ok {Self} (allowed : list nat) (B F : nat) (st : state Self) (r : ref) : Prop :=
  exists t c h w, st_heap st !! r = Some t /\ shape t = [B; c; F; h; w] /\ c ∈ allowed.

Definition dict_ok {Self} (allowed : list nat) (B F : nat) (st : state Self) (d : dict) : Prop :=
  forall k r, dict_lookup d k = Some r -> entry_ok allowed B F st r.

(** The channel widths of the outputs of [HMV3ControlNet]. *)
Definition HMV3_allowed (self : HMV3ControlNet.t) : list nat :=
  conv_out_channels (HMV3ControlNet.conv_up2_down0 self) ::
  conv_out_channels (HMV3ControlNet.conv_up1_down1 self) ::
  map sk_channel_out (HMV3ControlNet.blocks_down self).

(** The invariant of the fusion loop of [HMV3ControlNet.forward] after [i]
    stages, for a condition of batch [B] and [F] frames. *)
Definition HMV3_loop_inv (self : HMV3ControlNet.t) (B F : nat) (i : nat) (acc : ref * dict)
    (st : state HMV3ControlNet.t) : Prop :=
  map fst (snd acc) = HMV3_keys (length (HMV3ControlNet.blocks_down self)) i /\
  (exists t c h w, st_heap st !! fst acc = Some t /\ shape t = [B * F; c; h; w]) /\
  dict_ok (HMV3_allowed self) B F st (snd acc).

(** The channel width [HMV3ControlNet.forward] gives the entry [key]: the
    output width of the stage's block for "up3_u" (stage [j] with
    [u = N - j - 1]) and for its aliases "down3_2" and "down3_3" (stage
    [u = 0]), the output widths of the 1x1 convolutions for "down3_0" and
    "down3_1". *)
Definition HMV3_key_width (self : HMV3ControlNet.t) (key : string) : nat :=
  let blocks := HMV3ControlNet.blocks_down self in
  let N := length blocks in
  if decide (key = "down3_0") then conv_out_channels (HMV3ControlNet.conv_up2_down0 self)
  else if decide (key = "down3_1") then conv_out_channels (HMV3ControlNet.conv_up1_down1 self)
  else if decide (key = "down3_2" \/ key = "down3_3")
  then from_option sk_channel_out 0 (blocks !! (N - 1))
  else match list_find (fun j => key = "up3_" +:+ pretty (N - j - 1)) (seq 0 N) with
       | Some (_, j) => from_option sk_channel_out 0 (blocks !! j)
       | None => 0
       end.

(** Every entry [k] of [d] is a rank-5 tensor [(B, wf k, F, h, w)]. *)
Definition dict_widths {Self} (wf : string -> nat) (B F : nat) (st : state Self) (d : dict)
  : Prop :=
  forall k r, dict_lookup d k = Some r ->
    exists t h w, st_heap st !! r = Some t /\ shape t = [B; wf k; F; h; w].

(* ------------------------------------------------------------------ *)
(** ** Values, traces and invariants of the fusion chains *)

(** The running embedding after the first [n] fusion blocks: block [j] is called on the
    previous embedding and the driving embedding [de]. *)
Fixpoint fusion_chain (v0 de : value) (n : nat) : value :=
  match n with
  | 0 => v0
  | S n' => VCall (sub_blocks_down n') [fusion_chain v0 de n'; de]
  end.

(** [conv_in] of the condition rearranged to [(b f) c h w] and resized to [(oh, ow)]. *)
Definition conv_in_value (vc : value) (oh ow : nat) : value :=
  VCall sub_conv_in [VInterpolate (VRearrange pat_flatten_frames vc) oh ow].

(** [(b f c) d -> b f c d] of the sinusoidal encoding of [c * vx] flattened to [(b f c)]. *)
Definition encoded_value (enc : submodule) (vx : value) (c : nat) : value :=
  VRearrange pat_split_coeffs (VCall enc [VRearrange pat_flatten_coeffs (VMul vx c)]).

(** The driving embedding of the expression path:
    [exp_proj(cat(face_proj(face_parts), exp_embedding(500 * drive_coeff)))]. *)
Definition dual_drive_value (vdc vfp : value) : value :=
  VCall sub_exp_proj
    [VRearrange pat_merge_bf
       (VCat [VRearrange pat_split_bf (VCall sub_face_proj [VRearrange pat_merge_bf vfp]);
              encoded_value sub_exp_embedding vdc 500] 2)].

(** The driving embedding of an emotion path: [proj(enc(20 * emo_embedding))]. *)
Definition emo_drive_value (enc proj : submodule) (v : value) : value :=
  VCall proj [VRearrange pat_merge_bf (encoded_value enc v 20)].

(** The call of [conv_in] on the resized condition. *)
Definition conv_in_event (vc : value) (oh ow : nat) : event :=
  mkEvent sub_conv_in [VInterpolate (VRearrange pat_flatten_frames vc) oh ow].

(** The calls of the expression path, in order. *)
Definition dual_drive_trace (vdc vfp : value) : list event :=
  [mkEvent sub_exp_embedding [VRearrange pat_flatten_coeffs (VMul vdc 500)];
   mkEvent sub_face_proj [VRearrange pat_merge_bf vfp];
   mkEvent sub_exp_proj
     [VRearrange pat_merge_bf
        (VCat [VRearrange pat_split_bf (VCall sub_face_proj [VRearrange pat_merge_bf vfp]);
               encoded_value sub_exp_embedding vdc 500] 2)]].

(** The calls of an emotion path, in order. *)
Definition emo_drive_trace (enc proj : submodule) (v : value) : list event :=
  [mkEvent enc [VRearrange pat_flatten_coeffs (VMul v 20)];
   mkEvent proj [VRearrange pat_merge_bf (encoded_value enc v 20)]].

(** The calls of the first [n] fusion blocks of a chain without side projections. *)
Definition chain_trace (v0 dv : value) (n : nat) : list event :=
  map (fun j => mkEvent (sub_blocks_down j) [fusion_chain v0 dv j; dv]) (seq 0 n).

(** Invariant of the fusion loop of the four variants that store one output per block, under
    the key [key j] of block [j]. *)
Definition simple_chain_inv {Self} (key : nat -> string) (v0 dv : value) (s0 : state Self)
    (k : nat) (acc : ref * dict) (s : state Self) : Prop :=
  heap_grows s0 s /\
  st_trace s = st_trace s0 ++ chain_trace v0 dv k /\
  (exists te, st_heap s !! fst acc = Some te /\ val te = fusion_chain v0 dv k) /\
  forall j, j < k -> exists r tr, dict_lookup (snd acc) (key j) = Some r /\
    length (st_heap s0) <= r /\ st_heap s !! r = Some tr /\
    val tr = VRearrange pat_unflatten_frames (fusion_chain v0 dv (S j)).

(** The exceptions of unpacking a shape of the wrong length and of resizing to an empty size. *)
Definition unpack_error : exn := ValueError "wrong number of values to unpack".
Definition empty_size_error : exn := RuntimeError "Input and output sizes should be greater than 0".

(** A computation that never raises [KeyError]. *)
Definition not_key_error (e : exn) : Prop := forall k, e <> KeyError k.

Definition no_key {Self A} (m : PyM Self A) : Prop :=
  forall st e st', m st = inl (e, st') -> not_key_error e.

(** The calls of stage [j] of the fusion loop of [HMV3ControlNet], and of its first [k]
    stages. *)
Definition HMV3_stage_trace (v0 dv : value) (N j : nat) : list event :=
  mkEvent (sub_blocks_down j) [fusion_chain v0 dv j; dv] ::
  (if decide (N - j - 1 = 2)
   then [mkEvent sub_conv_up2_down0 [fusion_chain v0 dv (S j)]] else []) ++
  (if decide (N - j - 1 = 1)
   then [mkEvent sub_conv_up1_down1 [fusion_chain v0 dv (S j)]] else []).

Definition HMV3_chain_trace (v0 dv : value) (N k : nat) : list event :=
  concat (map (HMV3_stage_trace v0 dv N) (seq 0 k)).

(** The output [key] of stage [j] is [(b f) c h w -> b c f h w] of [v]. *)
Definition stage_out {Self} (s0 s : state Self) (d : dict) (key : string) (v : value) : Prop :=
  exists r tr, dict_lookup d key = Some r /\ length (st_heap s0) <= r /\
    st_heap s !! r = Some tr /\ val tr = VRearrange pat_unflatten_frames v.

(** Invariant of the fusion loop of [HMV3ControlNet]. *)
Definition HMV3_chain_inv (self : HMV3ControlNet.t) (v0 dv : value) (s0 : state HMV3ControlNet.t)
    (k : nat) (acc : ref * dict) (s : state HMV3ControlNet.t) : Prop :=
  let N := length (HMV3ControlNet.blocks_down self) in
  heap_grows s0 s /\
  st_trace s = st_trace s0 ++ HMV3_chain_trace v0 dv N k /\
  (exists te, st_heap s !! fst acc = Some te /\ val te = fusion_chain v0 dv k) /\
  forall j, j < k ->
    stage_out s0 s (snd acc) ("up3_" +:+ pretty (N - j - 1)) (fusion_chain v0 dv (S j)) /\
    (N - j - 1 = 2 ->
       stage_out s0 s (snd acc) "down3_0"
         (VCall sub_conv_up2_down0 [fusion_chain v0 dv (S j)])) /\
    (N - j - 1 = 1 ->
       stage_out s0 s (snd acc) "down3_1"
         (VCall sub_conv_up1_down1 [fusion_chain v0 dv (S j)])) /\
    (forall b, HMV3ControlNet.blocks_down self !! j = Some b ->
       (N - j - 1 = 2 -> sk_channel_out b = conv_in_channels (HMV3ControlNet.conv_up2_down0 self)) /\
       (N - j - 1 = 1 -> sk_channel_out b = conv_in_channels (HMV3ControlNet.conv_up1_down1 self))).

(** The fused embedding of each stage of [HMV3ControlNet.forward], the outputs it stores and
    the channel agreement its 1x1 convolutions need. *)
Definition HMV3_stage_facts (self : HMV3ControlNet.t) (v0 dv : value)
    (st st' : state HMV3ControlNet.t) (d : dict) (j : nat) : Prop :=
  let N := length (HMV3ControlNet.blocks_down self) in
  stage_out st st' d ("up3_" +:+ pretty (N - j - 1)) (fusion_chain v0 dv (S j)) /\
  (N - j - 1 = 2 ->
     stage_out st st' d "down3_0" (VCall sub_conv_up2_down0 [fusion_chain v0 dv (S j)])) /\
  (N - j - 1 = 1 ->
     stage_out st st' d "down3_1" (VCall sub_conv_up1_down1 [fusion_chain v0 dv (S j)])) /\
  (forall b, HMV3ControlNet.blocks_down self !! j = Some b ->
     (N - j - 1 = 2 -> sk_channel_out b = conv_in_channels (HMV3ControlNet.conv_up2_down0 self)) /\
     (N - j - 1 = 1 -> sk_channel_out b = conv_in_channels (HMV3ControlNet.conv_up1_down1 self))).

(** The inputs [HMV3ControlNet.forward] reads its driving signal from: tensors of the heap for
    [drive_coeff] and [face_parts], or else a tensor of the heap for [emo_embedding]. *)
Definition HMV3_drive_inputs (st : state HMV3ControlNet.t) (dc fp emo : pyobj) : Prop :=
  (exists rdc rfp tdc tfp, dc = PyTensor rdc /\ fp = PyTensor rfp /\
     st_heap st !! rdc = Some tdc /\ st_heap st !! rfp = Some tfp) \/
  (~ (exists a b, dc = PyTensor a /\ fp = PyTensor b) /\
   exists r te, emo = PyTensor r /\ st_heap st !! r = Some te).

(* ------------------------------------------------------------------ *)
(** ** Example inputs *)

(** Fusion blocks that keep the spatial size. *)
Definition sk_same_hw : SKSpatial := fun _ h w => (h, w).

(** A condition of one frame [(1, 3, 1, 8, 8)] and the driving inputs. *)
Definition example_heap : list tensor :=
  [mkTensor [1; 3; 1; 8; 8] (VArg "condition");
   mkTensor [1; 1; 2] (VArg "drive_coeff");
   mkTensor [1; 1; 3; 1024] (VArg "face_parts");
   mkTensor [1; 1; 2] (VArg "emo_embedding")].

(** The default [block_out_channels] of [HMControlNet] and [HMControlNet2],
    and of [HMV2ControlNet], [HMV3ControlNet] and [HMV2ControlNet2]. *)
Definition boc_v1 : list nat := [128; 320; 640; 1280].
Definition boc_v2 : list nat := [128; 640; 1280; 1280; 1280].

(* ------------------------------------------------------------------ *)
(** ** Reasoning about computations *)

Section Reasoning.
Context {Self : Type}.
Implicit Types (st : state Self) (I : state Self -> Prop).

Lemma heap_grows_refl st : heap_grows st st.
Proof. split; [done | reflexivity]. Qed.

Lemma heap_grows_trans st1 st2 st3 :
  heap_grows st1 st2 -> heap_grows st2 st3 -> heap_grows st1 st3.
Proof.
  intros [E1 P1] [E2 P2]. split; [congruence | by etrans].
Qed.

Lemma step_ok_refl P st : step_ok P st st.
Proof. split; [apply heap_grows_refl | exists []; by rewrite app_nil_r]. Qed.

Lemma step_ok_trans P st1 st2 st3 :
  step_ok P st1 st2 -> step_ok P st2 st3 -> step_ok P st1 st3.
Proof.
  intros [G1 (n1 & T1 & F1)] [G2 (n2 & T2 & F2)]. split; [by eapply heap_grows_trans|].
  exists (n1 ++ n2). rewrite T2, T1, app_assoc. split; [done | by apply Forall_app].
Qed.

Lemma stable_True : stable (Self:=Self) (fun _ => True).
Proof. by intros ?. Qed.

Lemma stable_heap_prefix (h : list tensor) : stable (Self:=Self) (fun st => h `prefix_of` st_heap st).
Proof. intros st st' H [_ G]. by etrans. Qed.

Lemma wb_weaken {A} I P (m : PyM Self A) : wb (fun _ => True) P m -> wb I P m.
Proof. intros H st _. by apply H. Qed.

Lemma wb_mono {A} I (P Q : event -> Prop) (m : PyM Self A) :
  (forall ev, P ev -> Q ev) -> wb I P m -> wb I Q m.
Proof.
  intros HPQ H st HI. specialize (H st HI).
  destruct (m st) as [[e st']|[a st']]; destruct H as [[G (n & T & F)] R];
    (split; [split; [done | exists n; split; [done | by eapply Forall_impl]] | done]).
Qed.

Lemma wb_ret {A} I P (a : A) : wb I P (ret a).
Proof. intros st _. split; [apply step_ok_refl | done]. Qed.

Lemma wb_raise {A} I P e : wb I P (raise (A:=A) e).
Proof.
  intros st _. cbn. split; [|done].
  split; [split; [done | reflexivity]|]. exists []. by rewrite app_nil_r.
Qed.

Lemma wb_get_self I P : wb I P get_self.
Proof. intros st _. split; [apply step_ok_refl | done]. Qed.

Lemma wb_deref I P r : wb I P (deref r).
Proof.
  intros st HI. unfold deref. destruct (st_heap st !! r).
  - split; [apply step_ok_refl | done].
  - by apply (wb_raise I P (RuntimeError "invalid tensor")).
Qed.

Lemma wb_alloc I P t : wb I P (alloc t).
Proof.
  intros st _. cbn. split; [|done]. split.
  - split; [done | by apply prefix_app_r].
  - exists []. by rewrite app_nil_r.
Qed.

Lemma wb_log_call I (P : event -> Prop) m args : P (mkEvent m args) -> wb I P (log_call m args).
Proof.
  intros HP st _. cbn. split; [|done]. split; [split; [done | reflexivity]|].
  exists [mkEvent m args]. split; [done | by constructor].
Qed.

Lemma wb_bind {A B} I P (m : PyM Self A) (k : A -> PyM Self B) :
  stable I -> wb I P m -> (forall a, wb I P (k a)) -> wb I P (bind m k).
Proof.
  intros HI Hm Hk st Hst. unfold bind. specialize (Hm st Hst).
  destruct (m st) as [[e st1]|[a st1]]; [done|].
  destruct Hm as [S1 R1].
  assert (I st1) as H1 by (eapply HI; [exact Hst | apply S1]).
  specialize (Hk a st1 H1). destruct (k a st1) as [[e st2]|[b st2]];
    destruct Hk as [S2 R2]; (split; [by eapply step_ok_trans | congruence]).
Qed.

Lemma wb_for_enumerate_from {A B} I P (l : list B) body (i : nat) (acc : A) :
  stable I -> (forall j b acc, wb I P (body j b acc)) -> wb I P (for_enumerate_from i l body acc).
Proof.
  intros HI Hb. revert i acc. induction l as [|b l IH]; intros i acc; cbn.
  - apply wb_ret.
  - apply wb_bind; auto.
Qed.

Lemma wb_for_enumerate {A B} I P (l : list B) body (acc : A) :
  stable I -> (forall j b acc, wb I P (body j b acc)) -> wb I P (for_enumerate l body acc).
Proof. apply wb_for_enumerate_from. Qed.

End Reasoning.

Create HintDb wb.
#[export] Hint Resolve wb_ret wb_raise wb_get_self wb_deref wb_alloc wb_log_call : wb.
#[export] Hint Resolve stable_True stable_heap_prefix : wb.

(** Decompose a computation built by [bind], [match] and [if]. *)
Ltac wb_prim_step :=
  first
    [ solve [eauto with wb]
    | apply wb_bind; [eauto with wb | | intros]
    | progress case_match ].

Ltac wb_prim_solve := repeat wb_prim_step.

Section Primitives.
Context {Self : Type} (I : state Self -> Prop) (P : event -> Prop).

Lemma wb_floordiv a b : wb I P (floordiv (Self:=Self) a b).
Proof. apply wb_weaken. unfold floordiv. wb_prim_solve. Qed.

Lemma wb_unpack5 x : wb I P (unpack5 (Self:=Self) x).
Proof. apply wb_weaken. unfold unpack5. wb_prim_solve. Qed.

Lemma wb_rearrange_flatten_frames x : wb I P (rearrange_flatten_frames (Self:=Self) x).
Proof. apply wb_weaken. unfold rearrange_flatten_frames. wb_prim_solve. Qed.

Lemma wb_rearrange_unflatten_frames f x : wb I P (rearrange_unflatten_frames (Self:=Self) f x).
Proof. apply wb_weaken. unfold rearrange_unflatten_frames. wb_prim_solve. Qed.

Lemma wb_rearrange_flatten_coeffs x : wb I P (rearrange_flatten_coeffs (Self:=Self) x).
Proof. apply wb_weaken. unfold rearrange_flatten_coeffs. wb_prim_solve. Qed.

Lemma wb_rearrange_split_coeffs b f d x : wb I P (rearrange_split_coeffs (Self:=Self) b f d x).
Proof. apply wb_weaken. unfold rearrange_split_coeffs. wb_prim_solve. Qed.

Lemma wb_rearrange_merge_bf x : wb I P (rearrange_merge_bf (Self:=Self) x).
Proof. apply wb_weaken. unfold rearrange_merge_bf. wb_prim_solve. Qed.

Lemma wb_rearrange_split_bf f x : wb I P (rearrange_split_bf (Self:=Self) f x).
Proof. apply wb_weaken. unfold rearrange_split_bf. wb_prim_solve. Qed.

Lemma wb_mul x c : wb I P (mul (Self:=Self) x c).
Proof. apply wb_weaken. unfold mul. wb_prim_solve. Qed.

Lemma wb_to_dtype x : wb I P (to_dtype (Self:=Self) x).
Proof. apply wb_ret. Qed.

Lemma wb_interpolate x oh ow : wb I P (interpolate (Self:=Self) x oh ow).
Proof. apply wb_weaken. unfold interpolate. wb_prim_solve. Qed.

Lemma wb_cat_dim2 x y : wb I P (cat_dim2 (Self:=Self) x y).
Proof. apply wb_weaken. unfold cat_dim2. wb_prim_solve. Qed.

Lemma wb_dict_get d k : wb I P (dict_get (Self:=Self) d k).
Proof. apply wb_weaken. unfold dict_get. wb_prim_solve. Qed.

Lemma wb_conv2d_call m cfg x :
  (forall args, P (mkEvent m args)) -> wb I P (conv2d_call (Self:=Self) m cfg x).
Proof. intros HP. apply wb_weaken. unfold conv2d_call. wb_prim_solve. Qed.

Lemma wb_timesteps_call m cfg x :
  (forall args, P (mkEvent m args)) -> wb I P (timesteps_call (Self:=Self) m cfg x).
Proof. intros HP. apply wb_weaken. unfold timesteps_call. wb_prim_solve. Qed.

Lemma wb_timestep_embedding_call m cfg x :
  (forall args, P (mkEvent m args)) -> wb I P (timestep_embedding_call (Self:=Self) m cfg x).
Proof. intros HP. apply wb_weaken. unfold timestep_embedding_call. wb_prim_solve. Qed.

Lemma wb_sk_call `{SKSpatial} m cfg x e :
  (forall args, P (mkEvent m args)) -> wb I P (sk_call (Self:=Self) m cfg x e).
Proof. intros HP. apply wb_weaken. unfold sk_call. wb_prim_solve. Qed.

End Primitives.

#[export] Hint Resolve wb_floordiv wb_unpack5 wb_rearrange_flatten_frames
  wb_rearrange_unflatten_frames wb_rearrange_flatten_coeffs wb_rearrange_split_coeffs
  wb_rearrange_merge_bf wb_rearrange_split_bf wb_mul wb_to_dtype wb_interpolate
  wb_cat_dim2 wb_dict_get wb_conv2d_call wb_timesteps_call wb_timestep_embedding_call
  wb_sk_call : wb.

(** Decompose a forward pass: primitives, sub-module calls (whose logged
    events must satisfy the predicate), [bind], loops, [match] and [if]. *)
Ltac wb_step :=
  first
    [ solve [eauto with wb]
    | (eapply wb_conv2d_call || eapply wb_timesteps_call
       || eapply wb_timestep_embedding_call || eapply wb_sk_call); intros; cbn; done
    | apply wb_bind; [eauto with wb | | intros]
    | apply wb_for_enumerate; [eauto with wb | intros]
    | progress case_match ].

Ltac wb_solve := repeat wb_step.

Lemma wb_outcome {Self A} (P : event -> Prop) (m : PyM Self A) st :
  wb (fun _ => True) P m ->
  heap_grows st (outcome_state (m st)) /\
  match m st with
  | inr (_, st') => st_raised st' = st_raised st
  | inl (e, st') => st_raised st' = e :: st_raised st
  end.
Proof.
  intros H. specialize (H st I). destruct (m st) as [[e st']|[a st']];
    destruct H as [[G _] R]; split; done.
Qed.

(* ------------------------------------------------------------------ *)
(** ** Every forward pass is well behaved *)

Section ForwardWb.
Context `{SKSpatial}.

Lemma HMControlNet_forward_wb condition drive_coeff face_parts :
  wb (fun _ => True) (fun _ => True) (HMControlNet.forward condition drive_coeff face_parts).
Proof. unfold HMControlNet.forward. wb_solve. Qed.

Lemma HMControlNet2_forward_wb condition emo_embedding :
  wb (fun _ => True) (fun _ => True) (HMControlNet2.forward condition emo_embedding).
Proof. unfold HMControlNet2.forward. wb_solve. Qed.

Lemma HMV2ControlNet_forward_wb condition drive_coeff face_parts :
  wb (fun _ => True) (fun _ => True) (HMV2ControlNet.forward condition drive_coeff face_parts).
Proof. unfold HMV2ControlNet.forward. wb_solve. Qed.

Lemma HMV3ControlNet_forward_wb condition drive_coeff face_parts emo_embedding :
  wb (fun _ => True) (fun _ => True)
     (HMV3ControlNet.forward condition drive_coeff face_parts emo_embedding).
Proof. unfold HMV3ControlNet.forward, HMV3ControlNet.loop_body. wb_solve. Qed.

Lemma HMV2ControlNet2_forward_wb condition emo_embedding :
  wb (fun _ => True) (fun _ => True) (HMV2ControlNet2.forward condition emo_embedding).
Proof. unfold HMV2ControlNet2.forward. wb_solve. Qed.

End ForwardWb.

(* ------------------------------------------------------------------ *)
(** ** C8: forward passes never write the module or existing tensors *)

(** C8: for every variant and every call of [forward], whether it returns
    or raises, the module object ([self], holding every sub-module and its
    parameters) is the same after the call, and every tensor object that
    existed before the call (in particular the inputs) is unchanged: the
    call only allocates new tensors.  The monad can write both ([set_self]
    for an attribute assignment, [store] for an in-place tensor operation,
    see [heap_grows_excludes]); the forwards of hm_control.py use neither.
    The sub-module calls are modelled as not writing: [Conv2d], [Timesteps]
    and [TimestepEmbedding] keep no state across a call in evaluation, and
    [SKCrossAttention] is modelled from the spec. *)
Theorem forward_preserves_module `{SKSpatial} :
  (forall c d f (st : state HMControlNet.t),
     heap_grows st (outcome_state (HMControlNet.forward c d f st))) /\
  (forall c e (st : state HMControlNet2.t),
     heap_grows st (outcome_state (HMControlNet2.forward c e st))) /\
  (forall c d f (st : state HMV2ControlNet.t),
     heap_grows st (outcome_state (HMV2ControlNet.forward c d f st))) /\
  (forall c d f e (st : state HMV3ControlNet.t),
     heap_grows st (outcome_state (HMV3ControlNet.forward c d f e st))) /\
  (forall c e (st : state HMV2ControlNet2.t),
     heap_grows st (outcome_state (HMV2ControlNet2.forward c e st))).
Proof.
  repeat split; intros;
    first [ apply (wb_outcome _ _ _ (HMControlNet_forward_wb _ _ _))
          | apply (wb_outcome _ _ _ (HMControlNet2_forward_wb _ _))
          | apply (wb_outcome _ _ _ (HMV2ControlNet_forward_wb _ _ _))
          | apply (wb_outcome _ _ _ (HMV3ControlNet_forward_wb _ _ _ _))
          | apply (wb_outcome _ _ _ (HMV2ControlNet2_forward_wb _ _)) ].
Qed.

(** What [heap_grows] rules out: an attribute assignment that changes
    [self], and an in-place write of an existing tensor. *)
Lemma heap_grows_excludes {Self} (st : state Self) f r t t0 :
  (f (st_self st) <> st_self st -> ~ heap_grows st (outcome_state (set_self f st))) /\
  (st_heap st !! r = Some t0 -> t <> t0 -> ~ heap_grows st (outcome_state (store r t st))).
Proof.
  split.
  - intros Hf [Hs _]. by apply Hf.
  - intros Hr Ht [_ Hp]. unfold store in Hp. rewrite Hr in Hp. cbn in Hp.
    pose proof (prefix_lookup_Some _ _ _ _ Hr Hp) as Hl.
    rewrite list_lookup_insert, decide_True in Hl
      by (split; [done | eapply lookup_lt_Some; exact Hr]).
    apply Ht. congruence.
Qed.

(* ------------------------------------------------------------------ *)
(** ** The exceptions a computation can end with *)

Section RaisesOnly.
Context {Self : Type} (R : exn -> Prop).

Lemma ro_ret {A} (a : A) : raises_only (Self:=Self) R (ret a).
Proof. by intros st e st' E. Qed.

Lemma ro_raise {A} e : R e -> raises_only (Self:=Self) R (raise (A:=A) e).
Proof. intros HR st e' st' E. by injection E as <- _. Qed.

Lemma ro_get_self : raises_only (Self:=Self) R get_self.
Proof. by intros st e st' E. Qed.

Lemma ro_alloc t : raises_only (Self:=Self) R (alloc t).
Proof. by intros st e st' E. Qed.

Lemma ro_log_call m args : raises_only (Self:=Self) R (log_call m args).
Proof. by intros st e st' E. Qed.

Lemma ro_deref r : R (RuntimeError "invalid tensor") -> raises_only (Self:=Self) R (deref r).
Proof.
  intros HR st e st' E. unfold deref in E. destruct (st_heap st !! r); [done|].
  by injection E as <- _.
Qed.

Lemma ro_bind {A B} (m : PyM Self A) (k : A -> PyM Self B) :
  raises_only R m -> (forall a, raises_only R (k a)) -> raises_only R (bind m k).
Proof.
  intros Hm Hk st e st' E. unfold bind in E.
  destruct (m st) as [[e1 st1]|[a st1]] eqn:E1.
  - injection E as <- _. by eapply Hm.
  - by eapply Hk.
Qed.

Lemma ro_for_enumerate_from {A B} (l : list B) (body : nat -> B -> A -> PyM Self A) i acc :
  (forall j b acc, raises_only R (body j b acc)) ->
  raises_only R (for_enumerate_from i l body acc).
Proof.
  intros Hb. revert i acc. induction l as [|b l IH]; intros i acc; cbn.
  - apply ro_ret.
  - apply ro_bind; auto.
Qed.

Lemma ro_for_enumerate {A B} (l : list B) (body : nat -> B -> A -> PyM Self A) acc :
  (forall j b acc, raises_only R (body j b acc)) -> raises_only R (for_enumerate l body acc).
Proof. apply ro_for_enumerate_from. Qed.

End RaisesOnly.

Create HintDb fw.

(** Decompose a computation built from the monad's operations; every [raise]
    must raise a framework exception. *)
Ltac fw_prim_step :=
  first
    [ apply ro_ret | apply ro_get_self | apply ro_alloc | apply ro_log_call
    | apply ro_deref; reflexivity
    | apply ro_raise; reflexivity
    | apply ro_bind; [|intros]
    | progress case_match ].

Section FrameworkPrimitives.
Context {Self : Type}.
Abbreviation fw := (fun e => is_framework_error e = true).

Lemma fw_floordiv a b : raises_only fw (floordiv (Self:=Self) a b).
Proof. unfold floordiv. repeat fw_prim_step. Qed.

Lemma fw_unpack5 x : raises_only fw (unpack5 (Self:=Self) x).
Proof. unfold unpack5. repeat fw_prim_step. Qed.

Lemma fw_rearrange_flatten_frames x : raises_only fw (rearrange_flatten_frames (Self:=Self) x).
Proof. unfold rearrange_flatten_frames. repeat fw_prim_step. Qed.

Lemma fw_rearrange_unflatten_frames f x :
  raises_only fw (rearrange_unflatten_frames (Self:=Self) f x).
Proof. unfold rearrange_unflatten_frames. repeat fw_prim_step. Qed.

Lemma fw_rearrange_flatten_coeffs x : raises_only fw (rearrange_flatten_coeffs (Self:=Self) x).
Proof. unfold rearrange_flatten_coeffs. repeat fw_prim_step. Qed.

Lemma fw_rearrange_split_coeffs b f d x :
  raises_only fw (rearrange_split_coeffs (Self:=Self) b f d x).
Proof. unfold rearrange_split_coeffs. repeat fw_prim_step. Qed.

Lemma fw_rearrange_merge_bf x : raises_only fw (rearrange_merge_bf (Self:=Self) x).
Proof. unfold rearrange_merge_bf. repeat fw_prim_step. Qed.

Lemma fw_rearrange_split_bf f x : raises_only fw (rearrange_split_bf (Self:=Self) f x).
Proof. unfold rearrange_split_bf. repeat fw_prim_step. Qed.

Lemma fw_mul x c : raises_only fw (mul (Self:=Self) x c).
Proof. unfold mul. repeat fw_prim_step. Qed.

Lemma fw_to_dtype x : raises_only fw (to_dtype (Self:=Self) x).
Proof. apply ro_ret. Qed.

Lemma fw_interpolate x oh ow : raises_only fw (interpolate (Self:=Self) x oh ow).
Proof. unfold interpolate. repeat fw_prim_step. Qed.

Lemma fw_cat_dim2 x y : raises_only fw (cat_dim2 (Self:=Self) x y).
Proof. unfold cat_dim2. repeat fw_prim_step. Qed.

Lemma fw_dict_get d k : raises_only fw (dict_get (Self:=Self) d k).
Proof. unfold dict_get. repeat fw_prim_step. Qed.

Lemma fw_conv2d_call m cfg x : raises_only fw (conv2d_call (Self:=Self) m cfg x).
Proof. unfold conv2d_call. repeat fw_prim_step. Qed.

Lemma fw_timesteps_call m cfg x : raises_only fw (timesteps_call (Self:=Self) m cfg x).
Proof. unfold timesteps_call. repeat fw_prim_step. Qed.

Lemma fw_timestep_embedding_call m cfg x :
  raises_only fw (timestep_embedding_call (Self:=Self) m cfg x).
Proof. unfold timestep_embedding_call. repeat fw_prim_step. Qed.

Lemma fw_sk_call `{SKSpatial} m cfg x e : raises_only fw (sk_call (Self:=Self) m cfg x e).
Proof. unfold sk_call. repeat fw_prim_step. Qed.

End FrameworkPrimitives.

#[export] Hint Resolve ro_ret ro_get_self fw_floordiv fw_unpack5 fw_rearrange_flatten_frames
  fw_rearrange_unflatten_frames fw_rearrange_flatten_coeffs fw_rearrange_split_coeffs
  fw_rearrange_merge_bf fw_rearrange_split_bf fw_mul fw_to_dtype fw_interpolate fw_cat_dim2
  fw_dict_get fw_conv2d_call fw_timesteps_call fw_timestep_embedding_call fw_sk_call : fw.

(** Decompose a forward pass into primitives, [bind], loops, [match] and [if]. *)
Ltac fw_step :=
  first
    [ solve [eauto with fw]
    | apply ro_bind; [solve [eauto with fw] | intros]
    | apply ro_for_enumerate; intros
    | apply ro_bind; [|intros]
    | progress case_match ].

Section ForwardErrors.
Context `{SKSpatial}.
Abbreviation fw := (fun e => is_framework_error e = true).

Lemma HMControlNet_forward_fw c d f : raises_only fw (HMControlNet.forward c d f).
Proof. unfold HMControlNet.forward, simple_body. repeat fw_step. Qed.

Lemma HMControlNet2_forward_fw c e : raises_only fw (HMControlNet2.forward c e).
Proof. unfold HMControlNet2.forward, simple_body. repeat fw_step. Qed.

Lemma HMV2ControlNet_forward_fw c d f : raises_only fw (HMV2ControlNet.forward c d f).
Proof. unfold HMV2ControlNet.forward, simple_body. repeat fw_step. Qed.

Lemma HMV3ControlNet_forward_fw c d f e : raises_only fw (HMV3ControlNet.forward c d f e).
Proof. unfold HMV3ControlNet.forward, HMV3ControlNet.loop_body. repeat fw_step. Qed.

Lemma HMV2ControlNet2_forward_fw c e : raises_only fw (HMV2ControlNet2.forward c e).
Proof. unfold HMV2ControlNet2.forward, simple_body. repeat fw_step. Qed.

Lemma HMControlNet_forward_silent c d f :
  wb (fun _ => True) (fun ev => ev_module ev <> sys_stdout) (HMControlNet.forward c d f).
Proof. unfold HMControlNet.forward. wb_solve. Qed.

Lemma HMControlNet2_forward_silent c e :
  wb (fun _ => True) (fun ev => ev_module ev <> sys_stdout) (HMControlNet2.forward c e).
Proof. unfold HMControlNet2.forward. wb_solve. Qed.

Lemma HMV2ControlNet_forward_silent c d f :
  wb (fun _ => True) (fun ev => ev_module ev <> sys_stdout) (HMV2ControlNet.forward c d f).
Proof. unfold HMV2ControlNet.forward. wb_solve. Qed.

Lemma HMV3ControlNet_forward_silent c d f e :
  wb (fun _ => True) (fun ev => ev_module ev <> sys_stdout) (HMV3ControlNet.forward c d f e).
Proof. unfold HMV3ControlNet.forward, HMV3ControlNet.loop_body. wb_solve. Qed.

Lemma HMV2ControlNet2_forward_silent c e :
  wb (fun _ => True) (fun ev => ev_module ev <> sys_stdout) (HMV2ControlNet2.forward c e).
Proof. unfold HMV2ControlNet2.forward. wb_solve. Qed.

End ForwardErrors.

Lemma passes_through_intro {Self A} (m : PyM Self A) st :
  wb (fun _ => True) (fun ev => ev_module ev <> sys_stdout) m ->
  raises_only (fun e => is_framework_error e = true) m ->
  passes_through (m st) st.
Proof.
  intros Hw Hr. specialize (Hw st I). unfold passes_through, propagates.
  destruct (m st) as [[e st']|[a st']] eqn:E; destruct Hw as [[_ N] R].
  - split_and!; [done| |done]. intros e' st'' [= <- <-]. by eapply Hr.
  - split_and!; [done|by intros ? ? ?|done].
Qed.

(** What [passes_through] rules out: a handler that recovers from an
    exception, an exception of the code's own, and output. *)
Lemma passes_through_excludes {Self} (st : state Self) e :
  ~ passes_through (try_except (raise e) (fun _ => ret tt) st) st /\
  ~ passes_through (raise (A:=unit) (ValueError "condition must be a 5-d tensor") st) st /\
  ~ passes_through (py_print "forward" st) st.
Proof.
  split_and!.
  - intros [P _]. cbn in P. apply (f_equal length) in P. cbn in P. lia.
  - intros (_ & Hf & _). by specialize (Hf _ _ eq_refl).
  - intros (_ & _ & new & T & F). cbn in T. apply app_inv_head in T as <-.
    apply Forall_cons in F as [F _]. by apply F.
Qed.

(* ------------------------------------------------------------------ *)
(** ** C9: exceptions propagate unhandled *)

(** C9: for every variant and every call, either [forward] returns its
    mapping and no exception was raised (none was caught and recovered from),
    or it ends with an exception that is the only one raised during the call;
    every exception it can end with is one of the framework's or Python's own
    ([is_framework_error]: the errors of the tensor operations, of unpacking,
    indexing and dict lookup, and of [None * 20]), never one of the code's
    own; and the call writes nothing to the output ([print] or [logging]).
    [passes_through_excludes] shows that a handler, a [raise] of the code's
    own and a [print] each break this. *)
Theorem forward_exceptions_propagate `{SKSpatial} :
  (forall c d f (st : state HMControlNet.t), passes_through (HMControlNet.forward c d f st) st) /\
  (forall c e (st : state HMControlNet2.t), passes_through (HMControlNet2.forward c e st) st) /\
  (forall c d f (st : state HMV2ControlNet.t),
     passes_through (HMV2ControlNet.forward c d f st) st) /\
  (forall c d f e (st : state HMV3ControlNet.t),
     passes_through (HMV3ControlNet.forward c d f e st) st) /\
  (forall c e (st : state HMV2ControlNet2.t),
     passes_through (HMV2ControlNet2.forward c e st) st).
Proof.
  split_and!; intros; apply passes_through_intro;
    first [ apply HMControlNet_forward_silent | apply HMControlNet2_forward_silent
          | apply HMV2ControlNet_forward_silent | apply HMV3ControlNet_forward_silent
          | apply HMV2ControlNet2_forward_silent
          | apply HMControlNet_forward_fw | apply HMControlNet2_forward_fw
          | apply HMV2ControlNet_forward_fw | apply HMV3ControlNet_forward_fw
          | apply HMV2ControlNet2_forward_fw ].
Qed.

(* ------------------------------------------------------------------ *)
(** ** Calls a successful computation must have made *)

Section MustLog.
Context {Self : Type}.

Lemma must_log_of_wb {A} (P : event -> Prop) (m : PyM Self A) :
  wb (fun _ => True) P m -> must_log [] m.
Proof.
  intros H st a st' E. specialize (H st I). rewrite E in H.
  destruct H as [[_ (n & T & _)] _]. exists n. by split.
Qed.

Lemma must_log_weaken {A} (ms ms' : list submodule) (m : PyM Self A) :
  (forall x, x ∈ ms' -> x ∈ ms) -> must_log ms m -> must_log ms' m.
Proof.
  intros Hs H st a st' E. destruct (H st a st' E) as (n & T & F).
  exists n. split; [done|]. rewrite Forall_forall in F |- *. intros x Hx.
  apply F, Hs, Hx.
Qed.

Lemma must_log_bind {A B} ms1 ms2 (m : PyM Self A) (k : A -> PyM Self B) :
  must_log ms1 m -> (forall a, must_log ms2 (k a)) -> must_log (ms1 ++ ms2) (bind m k).
Proof.
  intros Hm Hk st b st' E. unfold bind in E.
  destruct (m st) as [[e st1]|[a st1]] eqn:Em; [done|].
  destruct (Hm _ _ _ Em) as (n1 & T1 & F1).
  destruct (Hk _ _ _ _ E) as (n2 & T2 & F2).
  exists (n1 ++ n2). rewrite T2, T1, app_assoc. split; [done|].
  apply Forall_app; split.
  - eapply Forall_impl; [exact F1|]. intros x (ev & Hev & Hx).
    exists ev. split; [apply elem_of_app; by left | done].
  - eapply Forall_impl; [exact F2|]. intros x (ev & Hev & Hx).
    exists ev. split; [apply elem_of_app; by right | done].
Qed.

Lemma must_log_log_call m args : must_log (Self:=Self) [m] (log_call m args).
Proof.
  intros st a st' E. cbn in E. injection E as <- <-. cbn.
  exists [mkEvent m args]. split; [done|]. constructor; [|done].
  exists (mkEvent m args). split; [by constructor | done].
Qed.

Lemma must_log_conv2d_call m cfg x : must_log (Self:=Self) [m] (conv2d_call m cfg x).
Proof.
  unfold conv2d_call. apply (must_log_weaken ([] ++ [m] ++ [])); [set_solver|].
  apply must_log_bind; [apply (must_log_of_wb (fun _ => True)); wb_solve | intros t].
  apply must_log_bind; [apply must_log_log_call | intros _].
  apply (must_log_of_wb (fun _ => True)). wb_solve.
Qed.

Lemma must_log_timesteps_call m cfg x : must_log (Self:=Self) [m] (timesteps_call m cfg x).
Proof.
  unfold timesteps_call. apply (must_log_weaken ([] ++ [m] ++ [])); [set_solver|].
  apply must_log_bind; [apply (must_log_of_wb (fun _ => True)); wb_solve | intros t].
  apply must_log_bind; [apply must_log_log_call | intros _].
  apply (must_log_of_wb (fun _ => True)). wb_solve.
Qed.

Lemma must_log_timestep_embedding_call m cfg x :
  must_log (Self:=Self) [m] (timestep_embedding_call m cfg x).
Proof.
  unfold timestep_embedding_call. apply (must_log_weaken ([] ++ [m] ++ [])); [set_solver|].
  apply must_log_bind; [apply (must_log_of_wb (fun _ => True)); wb_solve | intros t].
  apply must_log_bind; [apply must_log_log_call | intros _].
  apply (must_log_of_wb (fun _ => True)). wb_solve.
Qed.

End MustLog.

(** Build the list of logged modules of a computation. *)
Ltac must_log_step :=
  first
    [ apply must_log_conv2d_call | apply must_log_timesteps_call
    | apply must_log_timestep_embedding_call
    | eapply must_log_bind; [ | intros ]
    | progress case_match
    | apply (must_log_of_wb (fun _ => True)); solve [wb_solve] ].

(* ------------------------------------------------------------------ *)
(** ** C1: the two driving-signal paths of [HMV3ControlNet] *)

Section HMV3Paths.
Context `{SKSpatial}.

Lemma HMV3_forward_dual_no_emo condition dc fp emo_embedding :
  wb (fun _ => True) (fun ev => emo_path_module (ev_module ev) = false)
     (HMV3ControlNet.forward condition (PyTensor dc) (PyTensor fp) emo_embedding).
Proof. unfold HMV3ControlNet.forward, HMV3ControlNet.loop_body. wb_solve. Qed.

Lemma HMV3_forward_emo_no_dual condition drive_coeff face_parts emo_embedding :
  both_supplied drive_coeff face_parts = false ->
  wb (fun _ => True) (fun ev => dual_path_module (ev_module ev) = false)
     (HMV3ControlNet.forward condition drive_coeff face_parts emo_embedding).
Proof.
  intros Hb. unfold HMV3ControlNet.forward, HMV3ControlNet.loop_body.
  destruct drive_coeff, face_parts; try discriminate; wb_solve.
Qed.

Lemma HMV3_forward_dual_calls condition dc fp emo_embedding :
  must_log [sub_exp_embedding; sub_face_proj; sub_exp_proj]
    (HMV3ControlNet.forward condition (PyTensor dc) (PyTensor fp) emo_embedding).
Proof.
  unfold HMV3ControlNet.forward, HMV3ControlNet.loop_body.
  eapply must_log_weaken; [| repeat must_log_step].
  cbn. set_solver.
Qed.

Lemma HMV3_forward_emo_calls condition drive_coeff face_parts emo_embedding :
  both_supplied drive_coeff face_parts = false ->
  must_log [sub_emo_embedding; sub_emo_proj]
    (HMV3ControlNet.forward condition drive_coeff face_parts emo_embedding).
Proof.
  intros Hb. unfold HMV3ControlNet.forward, HMV3ControlNet.loop_body.
  destruct drive_coeff, face_parts; try discriminate;
    (eapply must_log_weaken; [| repeat must_log_step]); cbn; set_solver.
Qed.

End HMV3Paths.

Lemma wb_new_events {Self A} (P : event -> Prop) (m : PyM Self A) st :
  wb (fun _ => True) P m ->
  exists new, st_trace (outcome_state (m st)) = st_trace st ++ new /\ Forall P new.
Proof.
  intros H. specialize (H st I). destruct (m st) as [[e st']|[a st']];
    destruct H as [[_ N] _]; exact N.
Qed.

Lemma must_log_new_events {Self A} ms (m : PyM Self A) st a st' :
  must_log ms m -> m st = inr (a, st') ->
  exists new, st_trace st' = st_trace st ++ new /\
              forall x, x ∈ ms -> exists ev, ev ∈ new /\ ev_module ev = x.
Proof.
  intros H E. destruct (H _ _ _ E) as (n & T & F). exists n. split; [done|].
  intros x Hx. rewrite Forall_forall in F. by apply F.
Qed.

(** C1: in [HMV3ControlNet.forward] the driving-signal path is selected by
    the optional inputs.  When [drive_coeff] and [face_parts] are both given,
    no sub-module of the emotion path ([emo_embedding], [emo_proj]) is called;
    otherwise no sub-module of the dual path ([exp_embedding], [face_proj],
    [exp_proj]) is called (whether the call returns or raises).  A call that
    returns has called every sub-module of the selected path.  The two sets
    of sub-modules are disjoint. *)
Theorem HMV3_driving_path_selection `{SKSpatial} condition drive_coeff face_parts emo_embedding
    (st : state HMV3ControlNet.t) :
  (exists new,
     st_trace (outcome_state
                 (HMV3ControlNet.forward condition drive_coeff face_parts emo_embedding st))
       = st_trace st ++ new /\
     Forall (fun ev => if both_supplied drive_coeff face_parts
                       then emo_path_module (ev_module ev) = false
                       else dual_path_module (ev_module ev) = false) new) /\
  (forall d st',
     HMV3ControlNet.forward condition drive_coeff face_parts emo_embedding st = inr (d, st') ->
     exists new, st_trace st' = st_trace st ++ new /\
       forall m, (if both_supplied drive_coeff face_parts
                  then dual_path_module m else emo_path_module m) = true ->
       exists ev, ev ∈ new /\ ev_module ev = m) /\
  (forall m, dual_path_module m = true -> emo_path_module m = false).
Proof.
  split; [|split].
  - destruct (both_supplied drive_coeff face_parts) eqn:Hb.
    + destruct drive_coeff, face_parts; try discriminate.
      apply wb_new_events, HMV3_forward_dual_no_emo.
    + by apply wb_new_events, HMV3_forward_emo_no_dual.
  - intros d st' E. destruct (both_supplied drive_coeff face_parts) eqn:Hb.
    + destruct drive_coeff, face_parts; try discriminate.
      destruct (must_log_new_events _ _ _ _ _ (HMV3_forward_dual_calls _ _ _ _) E)
        as (n & T & F).
      exists n. split; [done|]. intros m Hm. apply F.
      destruct m; try discriminate; set_solver.
    + destruct (must_log_new_events _ _ _ _ _ (HMV3_forward_emo_calls _ _ _ _ Hb) E)
        as (n & T & F).
      exists n. split; [done|]. intros m Hm. apply F.
      destruct m; try discriminate; set_solver.
  - by intros [] ?.
Qed.

Lemma lookup_snoc_length {A} (l : list A) (x : A) : (l ++ [x]) !! length l = Some x.
Proof. rewrite lookup_app_r by lia. by rewrite Nat.sub_diag. Qed.

Lemma wb_outcome_compose {Self A} (P : event -> Prop) (st st1 : state Self)
    (o : (exn * state Self) + (A * state Self)) :
  step_ok P st st1 -> st_raised st1 = st_raised st ->
  match o with
  | inr (_, st') => step_ok P st1 st' /\ st_raised st' = st_raised st1
  | inl (e, st') => step_ok P st1 st' /\ st_raised st' = e :: st_raised st1
  end ->
  match o with
  | inr (_, st') => step_ok P st st' /\ st_raised st' = st_raised st
  | inl (e, st') => step_ok P st st' /\ st_raised st' = e :: st_raised st
  end.
Proof.
  intros S1 R1 H. destruct o as [[e st']|[a st']]; destruct H as [S2 R2];
    (split; [by eapply step_ok_trans | congruence]).
Qed.

Lemma wb_scaled_timesteps {Self B} (I : state Self -> Prop) (P : event -> Prop)
    (x : pyobj) (c : nat) (m : submodule) (cfg : Timesteps) (k : ref -> PyM Self B) :
  stable I ->
  (forall st r t, I st -> x = PyTensor r -> st_heap st !! r = Some t ->
     P (mkEvent m [VRearrange pat_flatten_coeffs (VMul (val t) c)])) ->
  (forall z, wb I P (k z)) ->
  wb I P (y <- mul x c ;; y <- rearrange_flatten_coeffs y ;; z <- timesteps_call m cfg y ;; k z).
Proof.
  intros HI HP Hk st Hst.
  destruct x as [|r]; [by apply (wb_raise I P (A:=ref))|].
  unfold bind at 1. unfold mul, bind at 1, deref at 1.
  destruct (st_heap st !! r) as [t|] eqn:Er;
    [| apply (wb_raise I P (A:=ref) (RuntimeError "invalid tensor")); done].
  cbn [alloc]. unfold rearrange_flatten_coeffs, bind at 1, bind at 1, deref at 1.
  cbn [st_heap]. rewrite lookup_snoc_length. cbn [shape val].
  destruct (shape t) as [|b [|f [|cc [|? ?]]]] eqn:Es;
    try (cbn; split; [split; [split; [done | by apply prefix_app_r]
                             | exists []; by rewrite app_nil_r] | done]).
  cbn [alloc]. unfold timesteps_call, bind at 1, bind at 1, deref at 1.
  cbn [st_heap]. rewrite lookup_snoc_length. cbn [shape val log_call bind].
  cbn [alloc st_self st_heap st_trace st_raised].
  match goal with
  | |- match k ?z ?st3 with _ => _ end => set (st2 := st3)
  end.
  assert (G : heap_grows st st2).
  { split; [done|]. cbn. rewrite <- !app_assoc. by apply prefix_app_r. }
  apply (wb_outcome_compose _ _ st2).
  - split; [exact G|]. exists [mkEvent m [VRearrange pat_flatten_coeffs (VMul (val t) c)]].
    split; [done|]. constructor; [|done]. by eapply HP.
  - done.
  - apply Hk. by eapply HI.
Qed.

Lemma scaled_event_ok (heap0 : list tensor) x c m {Self} (st : state Self) r t :
  heap0 `prefix_of` st_heap st -> valid_arg heap0 x -> x = PyTensor r ->
  st_heap st !! r = Some t ->
  encoder_input_scaled heap0 x c m (mkEvent m [VRearrange pat_flatten_coeffs (VMul (val t) c)]).
Proof.
  intros Hp Hv -> Hr. cbn in Hv. destruct Hv as [t0 H0].
  pose proof (prefix_lookup_Some _ _ _ _ H0 Hp) as H1.
  rewrite Hr in H1. injection H1 as <-.
  unfold encoder_input_scaled. cbn. rewrite decide_True by done. by exists r, t.
Qed.

Lemma encoder_input_scaled_other heap0 x c m m' args :
  m' <> m -> encoder_input_scaled heap0 x c m (mkEvent m' args).
Proof. intros Hm. unfold encoder_input_scaled. cbn. by rewrite decide_False. Qed.

Ltac scaled_step :=
  first
    [ apply wb_scaled_timesteps;
        [ eauto with wb
        | intros; first [ eapply scaled_event_ok; eassumption
                        | split; [eapply scaled_event_ok; eassumption
                                 | apply encoder_input_scaled_other; discriminate]
                        | split; [apply encoder_input_scaled_other; discriminate
                                 | eapply scaled_event_ok; eassumption] ]
        | intros ]
    | wb_step ].

(* ------------------------------------------------------------------ *)
(** ** C4: the driving coefficients are scaled before the encoder *)

Section Scaled.
Context `{SKSpatial}.
Variable heap0 : list tensor.

Lemma HMControlNet_forward_scaled c dc fp :
  valid_arg heap0 (PyTensor dc) ->
  wb (fun st => heap0 `prefix_of` st_heap st)
     (encoder_input_scaled heap0 (PyTensor dc) 500 sub_exp_embedding)
     (HMControlNet.forward c dc fp).
Proof. intros Hv. unfold HMControlNet.forward. repeat scaled_step. Qed.

Lemma HMControlNet2_forward_scaled c emo :
  valid_arg heap0 (PyTensor emo) ->
  wb (fun st => heap0 `prefix_of` st_heap st)
     (encoder_input_scaled heap0 (PyTensor emo) 20 sub_exp_embedding)
     (HMControlNet2.forward c emo).
Proof. intros Hv. unfold HMControlNet2.forward. repeat scaled_step. Qed.

Lemma HMV2ControlNet_forward_scaled c dc fp :
  valid_arg heap0 (PyTensor dc) ->
  wb (fun st => heap0 `prefix_of` st_heap st)
     (encoder_input_scaled heap0 (PyTensor dc) 500 sub_exp_embedding)
     (HMV2ControlNet.forward c dc fp).
Proof. intros Hv. unfold HMV2ControlNet.forward. repeat scaled_step. Qed.

Lemma HMV3ControlNet_forward_scaled c dc fp emo :
  valid_arg heap0 dc -> valid_arg heap0 emo ->
  wb (fun st => heap0 `prefix_of` st_heap st)
     (fun ev => encoder_input_scaled heap0 dc 500 sub_exp_embedding ev /\
                encoder_input_scaled heap0 emo 20 sub_emo_embedding ev)
     (HMV3ControlNet.forward c dc fp emo).
Proof.
  intros Hv He. unfold HMV3ControlNet.forward, HMV3ControlNet.loop_body.
  repeat scaled_step.
Qed.

Lemma HMV2ControlNet2_forward_scaled c emo :
  valid_arg heap0 (PyTensor emo) ->
  wb (fun st => heap0 `prefix_of` st_heap st)
     (encoder_input_scaled heap0 (PyTensor emo) 20 sub_exp_embedding)
     (HMV2ControlNet2.forward c emo).
Proof. intros Hv. unfold HMV2ControlNet2.forward. repeat scaled_step. Qed.

End Scaled.

Section EncoderCalls.
Context `{SKSpatial}.

Lemma HMControlNet_forward_calls c dc fp :
  must_log [sub_exp_embedding] (HMControlNet.forward c dc fp).
Proof.
  unfold HMControlNet.forward. eapply must_log_weaken; [| repeat must_log_step]. cbn. set_solver.
Qed.

Lemma HMControlNet2_forward_calls c emo :
  must_log [sub_exp_embedding] (HMControlNet2.forward c emo).
Proof.
  unfold HMControlNet2.forward. eapply must_log_weaken; [| repeat must_log_step]. cbn. set_solver.
Qed.

Lemma HMV2ControlNet_forward_calls c dc fp :
  must_log [sub_exp_embedding] (HMV2ControlNet.forward c dc fp).
Proof.
  unfold HMV2ControlNet.forward. eapply must_log_weaken; [| repeat must_log_step]. cbn. set_solver.
Qed.

Lemma HMV2ControlNet2_forward_calls c emo :
  must_log [sub_exp_embedding] (HMV2ControlNet2.forward c emo).
Proof.
  unfold HMV2ControlNet2.forward. eapply must_log_weaken; [| repeat must_log_step]. cbn. set_solver.
Qed.

End EncoderCalls.

Lemma encoding_report_intro {Self A} (I : state Self -> Prop) P enc ms (m : PyM Self A) st :
  I st -> wb I P m -> must_log ms m -> enc ∈ ms -> encoding_report (m st) st enc P.
Proof.
  intros HI Hw Hm Hin. split.
  - specialize (Hw st HI). destruct (m st) as [[e st']|[a st']]; by destruct Hw as [[_ N] _].
  - intros a st' E. destruct (must_log_new_events _ _ _ _ _ Hm E) as (n & T & F).
    exists n. split; [done | by apply F].
Qed.

(** C4: in every forward pass of every variant, each call of a sinusoidal
    [Timesteps] encoder receives the driving input multiplied by its constant
    and then flattened: the expression coefficients [drive_coeff] times 500
    (on [exp_embedding] of [HMControlNet], [HMV2ControlNet] and of the dual
    mode of [HMV3ControlNet]), the emotion embedding times 20 (on
    [exp_embedding] of [HMControlNet2] and [HMV2ControlNet2], on
    [emo_embedding] of the emotion mode of [HMV3ControlNet]).  This holds
    whether the call returns or raises, and a call that returns has called
    the encoder of its (selected) path. *)
Theorem forward_scales_before_encoding `{SKSpatial} :
  (forall c dc fp (st : state HMControlNet.t),
     valid_arg (st_heap st) (PyTensor dc) ->
     encoding_report (HMControlNet.forward c dc fp st) st sub_exp_embedding
       (encoder_input_scaled (st_heap st) (PyTensor dc) 500 sub_exp_embedding)) /\
  (forall c emo (st : state HMControlNet2.t),
     valid_arg (st_heap st) (PyTensor emo) ->
     encoding_report (HMControlNet2.forward c emo st) st sub_exp_embedding
       (encoder_input_scaled (st_heap st) (PyTensor emo) 20 sub_exp_embedding)) /\
  (forall c dc fp (st : state HMV2ControlNet.t),
     valid_arg (st_heap st) (PyTensor dc) ->
     encoding_report (HMV2ControlNet.forward c dc fp st) st sub_exp_embedding
       (encoder_input_scaled (st_heap st) (PyTensor dc) 500 sub_exp_embedding)) /\
  (forall c dc fp emo (st : state HMV3ControlNet.t),
     valid_arg (st_heap st) dc -> valid_arg (st_heap st) emo ->
     encoding_report (HMV3ControlNet.forward c dc fp emo st) st
       (if both_supplied dc fp then sub_exp_embedding else sub_emo_embedding)
       (fun ev => encoder_input_scaled (st_heap st) dc 500 sub_exp_embedding ev /\
                  encoder_input_scaled (st_heap st) emo 20 sub_emo_embedding ev)) /\
  (forall c emo (st : state HMV2ControlNet2.t),
     valid_arg (st_heap st) (PyTensor emo) ->
     encoding_report (HMV2ControlNet2.forward c emo st) st sub_exp_embedding
       (encoder_input_scaled (st_heap st) (PyTensor emo) 20 sub_exp_embedding)).
Proof.
  split; [|split; [|split; [|split]]].
  - intros c dc fp st Hv. eapply (encoding_report_intro (fun s => st_heap st `prefix_of` st_heap s));
      [reflexivity | by apply HMControlNet_forward_scaled | apply HMControlNet_forward_calls
      | set_solver].
  - intros c emo st Hv. eapply (encoding_report_intro (fun s => st_heap st `prefix_of` st_heap s));
      [reflexivity | by apply HMControlNet2_forward_scaled | apply HMControlNet2_forward_calls
      | set_solver].
  - intros c dc fp st Hv. eapply (encoding_report_intro (fun s => st_heap st `prefix_of` st_heap s));
      [reflexivity | by apply HMV2ControlNet_forward_scaled | apply HMV2ControlNet_forward_calls
      | set_solver].
  - intros c dc fp emo st Hv He. destruct (both_supplied dc fp) eqn:Hb.
    + destruct dc, fp; try discriminate.
      eapply (encoding_report_intro (fun s => st_heap st `prefix_of` st_heap s));
        [reflexivity | by apply HMV3ControlNet_forward_scaled | apply HMV3_forward_dual_calls
        | set_solver].
    + eapply (encoding_report_intro (fun s => st_heap st `prefix_of` st_heap s));
        [reflexivity | by apply HMV3ControlNet_forward_scaled | by apply HMV3_forward_emo_calls
        | set_solver].
  - intros c emo st Hv. eapply (encoding_report_intro (fun s => st_heap st `prefix_of` st_heap s));
      [reflexivity | by apply HMV2ControlNet2_forward_scaled
      | apply HMV2ControlNet2_forward_calls | set_solver].
Qed.

Section Inversion.
Context {Self : Type}.
Implicit Types (st : state Self).

Lemma bind_inr {A B} (m : PyM Self A) (k : A -> PyM Self B) st b st' :
  bind m k st = inr (b, st') -> exists a st1, m st = inr (a, st1) /\ k a st1 = inr (b, st').
Proof. unfold bind. destruct (m st) as [[e st1]|[a st1]]; [done|]. eauto. Qed.

Lemma ret_inr {A} (x : A) st a st' : ret x st = inr (a, st') -> a = x /\ st' = st.
Proof. by intros [= -> ->]. Qed.

Lemma get_self_inr st a st' : get_self st = inr (a, st') -> a = st_self st /\ st' = st.
Proof. by intros [= -> ->]. Qed.

Lemma dict_get_inr d k st r st' :
  dict_get (Self:=Self) d k st = inr (r, st') -> dict_lookup d k = Some r /\ st' = st.
Proof. unfold dict_get. destruct (dict_lookup d k); [by intros [= -> ->] | done]. Qed.

Lemma deref_inr r st t st' : deref r st = inr (t, st') -> st_heap st !! r = Some t /\ st' = st.
Proof. unfold deref. destruct (st_heap st !! r); [by intros [= -> ->] | done]. Qed.

Lemma wb_inr {A} I P (m : PyM Self A) st a st' :
  wb I P m -> I st -> m st = inr (a, st') -> step_ok P st st'.
Proof. intros H HI E. specialize (H st HI). rewrite E in H. apply H. Qed.

Lemma rearrange_unflatten_frames_inr f x st r st' :
  rearrange_unflatten_frames f x st = inr (r, st') ->
  exists t n c h w, st_heap st !! x = Some t /\ shape t = [n; c; h; w] /\
    f <> 0 /\ n `mod` f = 0 /\ r = length (st_heap st) /\
    st_heap st' = st_heap st ++ [mkTensor [n / f; c; f; h; w]
                                           (VRearrange pat_unflatten_frames (val t))].
Proof.
  unfold rearrange_unflatten_frames, bind.
  destruct (deref x st) as [[e st1]|[t st1]] eqn:E; [done|].
  apply deref_inr in E as [Ht ->].
  destruct (shape t) as [|n [|c [|h [|w [|]]]]] eqn:Hs; try done.
  case_decide as D; [|done]. intros [= <- <-].
  exists t, n, c, h, w. naive_solver.
Qed.

Lemma sk_call_inr `{SKSpatial} m cfg x e st r st' :
  sk_call m cfg x e st = inr (r, st') ->
  exists tx te n c h w, st_heap st !! x = Some tx /\ st_heap st !! e = Some te /\
    shape tx = [n; c; h; w] /\ c = sk_channel_in cfg /\ r = length (st_heap st) /\
    st_heap st' = st_heap st ++
      [mkTensor [n; sk_channel_out cfg; fst (sk_out_hw cfg h w); snd (sk_out_hw cfg h w)]
                (VCall m [val tx; val te])].
Proof.
  unfold sk_call, bind.
  destruct (deref x st) as [[?]|[tx st1]] eqn:E1; [done|]. apply deref_inr in E1 as [Hx ->].
  destruct (deref e st) as [[?]|[te st1]] eqn:E2; [done|]. apply deref_inr in E2 as [He ->].
  cbn. destruct (shape tx) as [|n [|c [|h [|w [|]]]]] eqn:Hs; try done;
  destruct (shape te) as [|n' [|k [|d [|]]]] eqn:Hs'; try done.
  case_decide as D; [|done]. intros [= <- <-]. cbn.
  exists tx, te, n, c, h, w. naive_solver.
Qed.

Lemma unpack5_inr x st b c f h w st' :
  unpack5 x st = inr ((b, c, f, h, w), st') ->
  exists t, st_heap st !! x = Some t /\ shape t = [b; c; f; h; w] /\ st' = st.
Proof.
  unfold unpack5, bind.
  destruct (deref x st) as [[?]|[t st1]] eqn:E1; [done|]. apply deref_inr in E1 as [Hx ->].
  destruct (shape t) as [|b' [|c' [|f' [|h' [|w' [|]]]]]] eqn:Hs; try done.
  intros [= <- <- <- <- <- <-]. eauto.
Qed.

Lemma rearrange_flatten_frames_inr x st r st' :
  rearrange_flatten_frames x st = inr (r, st') ->
  exists t b c f h w, st_heap st !! x = Some t /\ shape t = [b; c; f; h; w] /\
    r = length (st_heap st) /\
    st_heap st' = st_heap st ++ [mkTensor [b * f; c; h; w] (VRearrange pat_flatten_frames (val t))].
Proof.
  unfold rearrange_flatten_frames, bind.
  destruct (deref x st) as [[?]|[t st1]] eqn:E1; [done|]. apply deref_inr in E1 as [Hx ->].
  destruct (shape t) as [|b [|c [|f [|h [|w [|]]]]]] eqn:Hs; try done.
  intros [= <- <-]. exists t, b, c, f, h, w. naive_solver.
Qed.

Lemma interpolate_inr x oh ow st r st' :
  interpolate x oh ow st = inr (r, st') ->
  exists t n c h w, st_heap st !! x = Some t /\ shape t = [n; c; h; w] /\
    r = length (st_heap st) /\
    st_heap st' = st_heap st ++ [mkTensor [n; c; oh; ow] (VInterpolate (val t) oh ow)].
Proof.
  unfold interpolate, bind.
  destruct (deref x st) as [[?]|[t st1]] eqn:E1; [done|]. apply deref_inr in E1 as [Hx ->].
  destruct (shape t) as [|n [|c [|h [|w [|]]]]] eqn:Hs; try done.
  case_decide; [done|]. case_decide; [done|].
  intros [= <- <-]. exists t, n, c, h, w. naive_solver.
Qed.

Lemma conv2d_call_inr m cfg x st r st' :
  conv2d_call m cfg x st = inr (r, st') ->
  exists t n c h w, st_heap st !! x = Some t /\ shape t = [n; c; h; w] /\
    r = length (st_heap st) /\
    st_heap st' = st_heap st ++
      [mkTensor [n; conv_out_channels cfg;
                 h + 2 * conv_padding cfg - conv_kernel_size cfg + 1;
                 w + 2 * conv_padding cfg - conv_kernel_size cfg + 1] (VCall m [val t])].
Proof.
  unfold conv2d_call, bind.
  destruct (deref x st) as [[?]|[t st1]] eqn:E1; [done|]. apply deref_inr in E1 as [Hx ->].
  cbn. destruct (shape t) as [|n [|c [|h [|w [|]]]]] eqn:Hs; try done.
  case_decide; [done|]. case_decide; [done|].
  intros [= <- <-]. exists t, n, c, h, w. naive_solver.
Qed.

End Inversion.

Lemma for_enumerate_from_inv {Self B A} (Inv : nat -> A -> state Self -> Prop)
    (l : list B) body i acc st a st' :
  Inv i acc st ->
  (forall k b acc st a st', l !! k = Some b -> Inv (i + k) acc st ->
     body (i + k) b acc st = inr (a, st') -> Inv (S (i + k)) a st') ->
  for_enumerate_from i l body acc st = inr (a, st') -> Inv (i + length l) a st'.
Proof.
  revert i acc st. induction l as [|b l IH]; intros i acc st H0 Hb E; cbn in *.
  - apply ret_inr in E as [-> ->]. by rewrite Nat.add_0_r.
  - apply bind_inr in E as (acc1 & st1 & E1 & E2).
    rewrite <- Nat.add_succ_comm. eapply IH; [| | exact E2].
    + pose proof (Hb 0 b acc st acc1 st1) as Hb0. rewrite Nat.add_0_r in Hb0. by apply Hb0.
    + intros k b' acc' st2 a' st3 Hk HI Eb. specialize (Hb (S k) b' acc' st2 a' st3 Hk).
      replace (i + S k) with (S i + k) in Hb by lia. by apply Hb.
Qed.

Lemma for_enumerate_inv {Self B A} (Inv : nat -> A -> state Self -> Prop)
    (l : list B) body acc st a st' :
  Inv 0 acc st ->
  (forall k b acc st a st', l !! k = Some b -> Inv k acc st ->
     body k b acc st = inr (a, st') -> Inv (S k) a st') ->
  for_enumerate l body acc st = inr (a, st') -> Inv (length l) a st'.
Proof. intros H0 Hb E. apply (for_enumerate_from_inv Inv l body 0 acc st a st'); auto. Qed.

Lemma dict_lookup_set_eq d k v : dict_lookup (dict_set d k v) k = Some v.
Proof.
  induction d as [|[k' v'] d IH]; cbn; [by rewrite decide_True|].
  destruct (decide (k = k')) as [->|Hk]; cbn; [by rewrite decide_True|].
  rewrite decide_False by done. exact IH.
Qed.

Lemma dict_lookup_set_ne d k k' v : k <> k' -> dict_lookup (dict_set d k v) k' = dict_lookup d k'.
Proof.
  intros Hk. induction d as [|[k'' v'] d IH]; cbn.
  - by rewrite decide_False.
  - destruct (decide (k = k'')) as [->|Hk']; cbn.
    + rewrite !decide_False by done. done.
    + case_decide; [done | exact IH].
Qed.

Ltac peel_inr :=
  repeat match goal with
  | E : bind _ _ _ = inr _ |- _ =>
      let E1 := fresh "E" in let E2 := fresh "E" in
      destruct (bind_inr _ _ _ _ _ E) as (? & ? & E1 & E2); clear E; cbv beta in E2
  | E : ret _ _ = inr _ |- _ => apply ret_inr in E as [? ?]; subst
  | E : get_self _ = inr _ |- _ => apply get_self_inr in E as [? ?]; subst
  | E : dict_get _ _ _ = inr _ |- _ => apply dict_get_inr in E as [? ?]; subst
  | E : (if decide ?p then _ else _) _ = inr _ |- _ => destruct (decide p)
  | E : (match ?p with pair _ _ => _ end) _ = inr _ |- _ => destruct p; cbv beta iota in E
  end.

Lemma up3_key_ne u : u <> 0 -> "up3_" +:+ pretty u <> "up3_0".
Proof.
  intros Hu E. change "up3_0" with ("up3_" +:+ pretty 0%nat) in E.
  by apply (inj (String.app _)), (inj pretty) in E.
Qed.

Lemma dict_lookup_set d k v k' :
  dict_lookup (dict_set d k v) k' = if decide (k' = k) then Some v else dict_lookup d k'.
Proof.
  case_decide; subst; [apply dict_lookup_set_eq | by apply dict_lookup_set_ne].
Qed.

Ltac string_ne :=
  solve [ discriminate
        | apply up3_key_ne; lia
        | let Heq := fresh in intros Heq; symmetry in Heq; revert Heq; apply up3_key_ne; lia ].

Ltac dict_simpl :=
  repeat match goal with
  | H : context [dict_lookup (dict_set ?d ?k ?v) ?k] |- _ =>
      rewrite (dict_lookup_set_eq d k v) in H
  | H : context [dict_lookup (dict_set ?d ?k ?v) ?k'] |- _ =>
      rewrite (dict_lookup_set_ne d k k' v) in H by string_ne
  | |- context [dict_lookup (dict_set ?d ?k ?v) ?k] =>
      rewrite (dict_lookup_set_eq d k v)
  | |- context [dict_lookup (dict_set ?d ?k ?v) ?k'] =>
      rewrite (dict_lookup_set_ne d k k' v) by string_ne
  end.

Section C2.
Context `{SKSpatial}.

Lemma HMV3_loop_body_aliased self vl de k b e d st e' d' st' :
  HMV3ControlNet.loop_body self vl de k b (e, d) st = inr ((e', d'), st') ->
  up3_0_aliased d -> up3_0_aliased d'.
Proof.
  unfold HMV3ControlNet.loop_body. cbv beta iota zeta. intros E Hd. peel_inr;
    match goal with Hp : pair _ _ = pair _ _ |- _ => injection Hp as Hp1 Hp2; subst e' d' end;
    try lia; unfold up3_0_aliased in *; intros r Hr.
    all: try (match goal with Hu : _ = 0 |- _ => rewrite Hu in * end;
              change ("up3_" +:+ pretty 0%nat) with "up3_0" in * );
      dict_simpl; naive_solver.
Qed.

(** C2: for every call of [HMV3ControlNet.forward] that returns a mapping
    [d] with an entry "up3_0", the entries "down3_2" and "down3_3" of [d]
    hold the very same reference as "up3_0": the tensor object is shared,
    not copied. *)
Theorem HMV3_down3_alias_up3_0 condition drive_coeff face_parts emo_embedding
    (st : state HMV3ControlNet.t) d st' r :
  HMV3ControlNet.forward condition drive_coeff face_parts emo_embedding st = inr (d, st') ->
  dict_lookup d "up3_0" = Some r ->
  dict_lookup d "down3_2" = Some r /\ dict_lookup d "down3_3" = Some r.
Proof.
  unfold HMV3ControlNet.forward. intros E. peel_inr.
  match goal with
  | Ef : for_enumerate _ _ _ _ = inr _ |- _ =>
      apply (for_enumerate_inv (fun _ acc _ => up3_0_aliased (snd acc))) in Ef
  end.
  - match goal with He : up3_0_aliased _ |- _ => by apply He end.
  - intros r' Hr. discriminate.
  - intros k b [e d0] st0 [e' d'] st1 _ Hi Eb. by eapply HMV3_loop_body_aliased.
Qed.
End C2.

Lemma dict_set_fresh d k v : k ∉ map fst d -> dict_set d k v = d ++ [(k, v)].
Proof.
  induction d as [|[k' v'] d IH]; intros Hk; cbn in *; [done|].
  rewrite decide_False by (intros ->; apply Hk; by left).
  f_equal. apply IH. intros Hin. apply Hk. by right.
Qed.

Lemma heap_lookup_grows {Self} (st st' : state Self) r t :
  heap_grows st st' -> st_heap st !! r = Some t -> st_heap st' !! r = Some t.
Proof. intros [_ Hp] Hr. by eapply prefix_lookup_Some. Qed.

Section SimpleLoop.
Context `{SKSpatial} {Self : Type} (key : nat -> string) (de vl : ref).

Lemma simple_body_wb idx block acc : wb (fun _ => True) (fun _ => True) (simple_body (Self:=Self) key de vl idx block acc).
Proof. unfold simple_body. wb_solve. Qed.

Lemma simple_loop_result blocks i e d (st : state Self) e' d' st' n0 :
  (exists t c h w, st_heap st !! e = Some t /\ shape t = [n0; c; h; w]) ->
  NoDup (map fst d ++ map key (seq i (length blocks))) ->
  for_enumerate_from i blocks (simple_body (Self:=Self) key de vl) (e, d) st = inr ((e', d'), st') ->
  exists outs, d' = d ++ zip (map key (seq i (length blocks))) outs /\
    length outs = length blocks /\
    forall k o blk, outs !! k = Some o -> blocks !! k = Some blk ->
      vl <> 0 /\
      exists t h w args, st_heap st' !! o = Some t /\
        shape t = [n0 / vl; sk_channel_out blk; vl; h; w] /\
        val t = VRearrange pat_unflatten_frames (VCall (sub_blocks_down (i + k)) args).
Proof.
  revert i e d st. induction blocks as [|blk blocks IH]; intros i e d st He Hnd E; cbn in *.
  - apply ret_inr in E as [[= -> ->] ->]. exists []. rewrite app_nil_r. split_and!; try done.
  - apply bind_inr in E as ([e1 d1] & st1 & E1 & E2).
    unfold simple_body in E1. cbv beta iota in E1.
    apply bind_inr in E1 as (x & st0 & Ex & E1).
    apply bind_inr in E1 as (o & st2 & Eo & E1).
    apply ret_inr in E1 as [[= -> ->] ->].
    destruct He as (t & c & h & w & Ht & Hs).
    apply sk_call_inr in Ex as (tx & te & n & c' & h' & w' & Htx & Hte & Hsx & Hc & -> & Hh0).
    rewrite Ht in Htx. injection Htx as <-. rewrite Hs in Hsx. injection Hsx as <- <- <- <-.
    apply rearrange_unflatten_frames_inr in Eo
      as (t1 & n1 & c1 & h1 & w1 & Ht1 & Hs1 & Hvl & Hmod & -> & Hh2).
    rewrite Hh0, lookup_snoc_length in Ht1. injection Ht1 as <-. cbn in Hs1.
    injection Hs1 as <- <- <- <-.
    assert (Hfresh : key i ∉ map fst d).
    { intros Hin. apply NoDup_app in Hnd as (_ & Hdis & _). apply (Hdis _ Hin). by left. }
    rewrite dict_set_fresh in E2 by done.
    edestruct (IH (S i) (length (st_heap st)) (d ++ [(key i, length (st_heap st0))]) st2)
      as (outs & Hd & Hlen & Hent); [| | exact E2 |].
    + eexists _, _, _, _. split.
      { rewrite Hh2, lookup_app_l.
        - rewrite Hh0. apply lookup_snoc_length.
        - rewrite Hh0, length_app. cbn. lia. }
      reflexivity.
    + rewrite map_app. cbn. rewrite <- app_assoc. exact Hnd.
    + exists (length (st_heap st0) :: outs). rewrite Hd, <- app_assoc. split_and!; [done|cbn; lia|].
      intros [|k] o' b' Ho Hb; cbn in Ho, Hb.
      * injection Ho as <-. injection Hb as <-. split; [done|].
        assert (G : heap_grows st2 st').
        { eapply (wb_inr (fun _ => True) (fun _ => True)); [| done | exact E2].
          apply wb_for_enumerate_from; [apply stable_True | intros; apply simple_body_wb]. }
        eexists _, _, _, _. split; [eapply heap_lookup_grows; [exact G|];
          rewrite Hh2; apply lookup_snoc_length|].
        split; [reflexivity|]. rewrite Nat.add_0_r. reflexivity.
      * destruct (Hent k o' b' Ho Hb) as [Hv (t' & h'' & w'' & args & Ht' & Hs' & Hv')].
        split; [done|]. exists t', h'', w'', args. split_and!; [done|done|].
        by rewrite <- Nat.add_succ_comm.
Qed.

End SimpleLoop.

Lemma wb_inr_grows {Self A} I P (m : PyM Self A) st a st' :
  wb I P m -> I st -> m st = inr (a, st') -> heap_grows st st'.
Proof. intros Hw HI E. eapply wb_inr in E; [|exact Hw|exact HI]. apply E. Qed.

Ltac grow_all :=
  repeat match goal with
  | Ei : ?m ?s = inr (?a, ?s') |- _ =>
      lazymatch goal with
      | _ : heap_grows s s' |- _ => fail
      | _ => let G := fresh "G" in
             assert (G : heap_grows s s')
               by (apply (wb_inr_grows (fun _ => True) (fun _ => True) m s a s');
                   [wb_solve | exact I | exact Ei])
      end
  end.

Lemma NoDup_map_seq (key : nat -> string) i n :
  (forall j j', i <= j < i + n -> i <= j' < i + n -> key j = key j' -> j = j') ->
  NoDup (map key (seq i n)).
Proof.
  revert i. induction n as [|n IH]; intros i Hk; cbn; constructor.
  - intros Hin. apply list_elem_of_In, in_map_iff in Hin as (j & Heq & Hj).
    apply in_seq in Hj. apply Hk in Heq; lia.
  - apply IH. intros j j' ? ? ?. apply Hk; [lia|lia|done].
Qed.

Ltac forward_preamble Ht Hs :=
  peel_inr; grow_all;
  lazymatch goal with Eu : unpack5 _ _ = inr _ |- _ =>
    let t0 := fresh in let Ht0 := fresh in let Hs0 := fresh in
    apply unpack5_inr in Eu as (t0 & Ht0 & Hs0 & ->);
    rewrite Ht in Ht0; injection Ht0 as <-; rewrite Hs in Hs0; injection Hs0 as <- <- <- <- <-
  end;
  lazymatch goal with Ef : rearrange_flatten_frames _ _ = inr _ |- _ =>
    let t1 := fresh in let Ht1 := fresh in let Hs1 := fresh in let Hh1 := fresh in
    apply rearrange_flatten_frames_inr in Ef as (t1 & ? & ? & ? & ? & ? & Ht1 & Hs1 & -> & Hh1);
    rewrite Ht in Ht1; injection Ht1 as <-; rewrite Hs in Hs1; injection Hs1 as <- <- <- <- <-;
    lazymatch type of Hh1 with st_heap ?s1 = st_heap ?s0 ++ [?T] =>
      let Hf := fresh in
      assert (Hf : st_heap s1 !! length (st_heap s0) = Some T)
        by (rewrite Hh1; apply lookup_snoc_length)
    end
  end;
  lazymatch goal with Ei : interpolate _ _ _ _ = inr _ |- _ =>
    let t2 := fresh in let Ht2 := fresh in let Hs2 := fresh in let Hh3 := fresh in
    apply interpolate_inr in Ei as (t2 & ? & ? & ? & ? & Ht2 & Hs2 & -> & Hh3);
    lazymatch type of Ht2 with st_heap ?s5 !! ?r = Some _ =>
      let Hf' := fresh in
      assert (Hf' : st_heap s5 !! r = Some _) by (clear Ht2; eauto 25 using heap_lookup_grows);
      rewrite Hf' in Ht2; injection Ht2 as <-; cbn in Hs2; injection Hs2 as <- <- <- <-
    end;
    lazymatch goal with Ec : conv2d_call _ _ _ _ = inr _ |- _ =>
      let t3 := fresh in let Ht3 := fresh in let Hs3 := fresh in let Hh4 := fresh in
      apply conv2d_call_inr in Ec as (t3 & ? & ? & ? & ? & Ht3 & Hs3 & -> & Hh4);
      rewrite Hh3, lookup_snoc_length in Ht3; injection Ht3 as <-; cbn in Hs3;
      injection Hs3 as <- <- <- <-;
      lazymatch type of Hh4 with st_heap ?s1 = st_heap ?s0 ++ [?T] =>
        let Hc := fresh in
        assert (Hc : st_heap s1 !! length (st_heap s0) = Some T)
          by (rewrite Hh4; apply lookup_snoc_length)
      end
    end
  end.

Ltac simple_forward_result KEY :=
  let Ht := fresh "Ht" in let Hs := fresh "Hs" in let E := fresh "E" in
  intros Ht Hs E; forward_preamble Ht Hs;
  lazymatch goal with El : for_enumerate _ _ _ ?s0 = inr (?acc, _) |- _ =>
    lazymatch type of s0 with state ?S =>
    destruct acc as [? ?]; cbn;
    let outs := fresh "outs" in let Hd := fresh in let Hlen := fresh in let Hent := fresh in
    edestruct (simple_loop_result (Self:=S) KEY) as (outs & Hd & Hlen & Hent); [| | exact El |];
    [ eexists _, _, _, _; split; [eauto 25 using heap_lookup_grows | reflexivity]
    | apply NoDup_map_seq; intros ? ? ? ? Hj;
      apply (inj (String.app _)), (inj pretty) in Hj; lia
    | exists outs; rewrite Hd; split_and!; [done|done|]; intros k o blk Ho Hb;
      destruct (Hent k o blk Ho Hb) as [Hv (t' & h1 & w1 & args & Ho' & Hs' & Hv')];
      split; [done|]; exists t', h1, w1, args; rewrite Nat.div_mul in Hs' by done; done ]
    end
  end.

Section SimpleForward.
Context `{SKSpatial}.

Lemma HMControlNet_forward_result condition dc fp st d st' t B C F Hh W :
  st_heap st !! condition = Some t -> shape t = [B; C; F; Hh; W] ->
  HMControlNet.forward condition dc fp st = inr (d, st') ->
  let blocks := HMControlNet.blocks_down (st_self st) in
  exists outs, d = zip (map (fun i => "down_" +:+ pretty i) (seq 0 (length blocks))) outs /\
    length outs = length blocks /\
    forall k o blk, outs !! k = Some o -> blocks !! k = Some blk ->
      F <> 0 /\
      exists t h w args, st_heap st' !! o = Some t /\
        shape t = [B; sk_channel_out blk; F; h; w] /\
        val t = VRearrange pat_unflatten_frames (VCall (sub_blocks_down k) args).
Proof.
  unfold HMControlNet.forward. simple_forward_result (fun i : nat => "down_" +:+ pretty i).
Qed.

Lemma HMControlNet2_forward_result condition emo st d st' t B C F Hh W :
  st_heap st !! condition = Some t -> shape t = [B; C; F; Hh; W] ->
  HMControlNet2.forward condition emo st = inr (d, st') ->
  let blocks := HMControlNet2.blocks_down (st_self st) in
  exists outs, d = zip (map (fun i => "down2_" +:+ pretty i) (seq 0 (length blocks))) outs /\
    length outs = length blocks /\
    forall k o blk, outs !! k = Some o -> blocks !! k = Some blk ->
      F <> 0 /\
      exists t h w args, st_heap st' !! o = Some t /\
        shape t = [B; sk_channel_out blk; F; h; w] /\
        val t = VRearrange pat_unflatten_frames (VCall (sub_blocks_down k) args).
Proof.
  unfold HMControlNet2.forward. simple_forward_result (fun i : nat => "down2_" +:+ pretty i).
Qed.

Lemma HMV2ControlNet_forward_result condition dc fp st d st' t B C F Hh W :
  st_heap st !! condition = Some t -> shape t = [B; C; F; Hh; W] ->
  HMV2ControlNet.forward condition dc fp st = inr (d, st') ->
  let blocks := HMV2ControlNet.blocks_down (st_self st) in
  exists outs,
    d = zip (map (fun i => "up_v2_" +:+ pretty (length blocks - i - 1)) (seq 0 (length blocks)))
            outs /\
    length outs = length blocks /\
    forall k o blk, outs !! k = Some o -> blocks !! k = Some blk ->
      F <> 0 /\
      exists t h w args, st_heap st' !! o = Some t /\
        shape t = [B; sk_channel_out blk; F; h; w] /\
        val t = VRearrange pat_unflatten_frames (VCall (sub_blocks_down k) args).
Proof.
  unfold HMV2ControlNet.forward.
  simple_forward_result (fun i : nat =>
    "up_v2_" +:+ pretty (length (HMV2ControlNet.blocks_down (st_self st)) - i - 1)).
Qed.

Lemma HMV2ControlNet2_forward_result condition emo st d st' t B C F Hh W :
  st_heap st !! condition = Some t -> shape t = [B; C; F; Hh; W] ->
  HMV2ControlNet2.forward condition emo st = inr (d, st') ->
  let blocks := HMV2ControlNet2.blocks_down (st_self st) in
  exists outs,
    d = zip (map (fun i => "up2_v2_" +:+ pretty (length blocks - i - 1)) (seq 0 (length blocks)))
            outs /\
    length outs = length blocks /\
    forall k o blk, outs !! k = Some o -> blocks !! k = Some blk ->
      F <> 0 /\
      exists t h w args, st_heap st' !! o = Some t /\
        shape t = [B; sk_channel_out blk; F; h; w] /\
        val t = VRearrange pat_unflatten_frames (VCall (sub_blocks_down k) args).
Proof.
  unfold HMV2ControlNet2.forward.
  simple_forward_result (fun i : nat =>
    "up2_v2_" +:+ pretty (length (HMV2ControlNet2.blocks_down (st_self st)) - i - 1)).
Qed.

End SimpleForward.

Lemma entry_ok_grows {Self} allowed B F (st st' : state Self) r :
  heap_grows st st' -> entry_ok allowed B F st r -> entry_ok allowed B F st' r.
Proof.
  intros G (t & c & h & w & Ht & Hs & Hc). exists t, c, h, w.
  split_and!; [by eapply heap_lookup_grows|done|done].
Qed.

Lemma dict_ok_grows {Self} allowed B F (st st' : state Self) d :
  heap_grows st st' -> dict_ok allowed B F st d -> dict_ok allowed B F st' d.
Proof. intros G Hd k r Hr. eapply entry_ok_grows; [done|]. by eapply Hd. Qed.

Lemma dict_ok_set {Self} allowed B F (st : state Self) d k v :
  dict_ok allowed B F st d -> entry_ok allowed B F st v -> dict_ok allowed B F st (dict_set d k v).
Proof.
  intros Hd Hv k' r Hr. rewrite dict_lookup_set in Hr.
  destruct (decide (k' = k)); [by injection Hr as <-|]. by eapply Hd.
Qed.

Lemma map_fst_dict_set_fresh d k v : k ∉ map fst d -> map fst (dict_set d k v) = map fst d ++ [k].
Proof. intros Hk. rewrite dict_set_fresh by done. by rewrite map_app. Qed.

Lemma HMV3_stage_keys_inj x u u' :
  x ∈ HMV3_stage_keys u -> x ∈ HMV3_stage_keys u' -> u = u'.
Proof.
  unfold HMV3_stage_keys.
  repeat case_decide; subst; cbn;
    rewrite ?elem_of_app, ?elem_of_cons, ?elem_of_nil; intros Hx1 Hx2;
    repeat match goal with
    | H : _ \/ _ |- _ => destruct H
    | H : False |- _ => destruct H
    end; subst; try done; try lia;
    repeat match goal with
    | H : ?a +:+ _ = ?a +:+ _ |- _ => apply (inj (String.app _)), (inj pretty) in H
    end; try lia; try discriminate.
Qed.

Lemma HMV3_keys_S n i : HMV3_keys n (S i) = HMV3_keys n i ++ HMV3_stage_keys (n - i - 1).
Proof. unfold HMV3_keys. rewrite seq_S, map_app, concat_app. cbn. by rewrite app_nil_r. Qed.

Lemma elem_of_HMV3_keys n i x :
  x ∈ HMV3_keys n i -> exists idx, idx < i /\ x ∈ HMV3_stage_keys (n - idx - 1).
Proof.
  unfold HMV3_keys. rewrite list_elem_of_In, in_concat. intros (l & Hl & Hx).
  apply in_map_iff in Hl as (idx & <- & Hi). apply in_seq in Hi.
  exists idx. split; [lia|by apply list_elem_of_In].
Qed.

Lemma HMV3_key_fresh n i x : i < n -> x ∈ HMV3_stage_keys (n - i - 1) -> x ∉ HMV3_keys n i.
Proof.
  intros Hi Hx Hin. apply elem_of_HMV3_keys in Hin as (idx & Hidx & Hx').
  pose proof (HMV3_stage_keys_inj x _ _ Hx Hx'). lia.
Qed.

Lemma conv_stage_inr {Self} m cfg e key d (st : state Self) d2 st2 allowed B F :
  (exists t c h w, st_heap st !! e = Some t /\ shape t = [B * F; c; h; w]) ->
  conv_out_channels cfg ∈ allowed -> dict_ok allowed B F st d ->
  (y <- conv2d_call m cfg e ;; y <- rearrange_unflatten_frames F y ;; ret (dict_set d key y)) st
    = inr (d2, st2) ->
  heap_grows st st2 /\ dict_ok allowed B F st2 d2 /\ exists y, d2 = dict_set d key y.
Proof.
  intros (t & c & h & w & Ht & Hs) Hc Hd E. peel_inr. grow_all.
  lazymatch goal with Ec : conv2d_call _ _ _ _ = inr _ |- _ =>
    apply conv2d_call_inr in Ec as (t1 & n & c1 & h1 & w1 & Ht1 & Hs1 & -> & Hh1) end.
  rewrite Ht in Ht1. injection Ht1 as <-. rewrite Hs in Hs1. injection Hs1 as <- <- <- <-.
  lazymatch goal with Er : rearrange_unflatten_frames _ _ _ = inr _ |- _ =>
    apply rearrange_unflatten_frames_inr in Er as (t2 & n2 & c2 & h2 & w2 & Ht2 & Hs2 & HF & Hmod & -> & Hh2) end.
  rewrite Hh1, lookup_snoc_length in Ht2. injection Ht2 as <-. cbn in Hs2.
  injection Hs2 as <- <- <- <-.
  split_and!; [eauto using heap_grows_trans| |eexists; reflexivity].
  apply dict_ok_set; [eapply dict_ok_grows; [|exact Hd]; eauto using heap_grows_trans|].
  eexists _, _, _, _. rewrite Hh2, lookup_snoc_length. split; [reflexivity|]. cbn.
  rewrite Nat.div_mul by done. split; [reflexivity|done].
Qed.

Lemma alias_stage_inr {Self} d (st : state Self) d2 st2 allowed B F :
  dict_ok allowed B F st d ->
  (y <- dict_get d "up3_0" ;;
   y0 <- dict_get (dict_set d "down3_2" y) "up3_0" ;;
   ret (dict_set (dict_set d "down3_2" y) "down3_3" y0)) st = inr (d2, st2) ->
  st2 = st /\ dict_ok allowed B F st d2 /\
  exists y y', d2 = dict_set (dict_set d "down3_2" y) "down3_3" y'.
Proof.
  intros Hd E. peel_inr.
  repeat lazymatch goal with Hl : dict_lookup _ _ = Some _ |- _ => revert Hl end.
  intros Hy Hy'. split_and!; [done| |do 2 eexists; reflexivity].
  assert (Hd2 : dict_ok allowed B F st (dict_set d "down3_2" x)).
  { apply dict_ok_set; [done|]. by eapply Hd. }
  apply dict_ok_set; [done|]. by eapply Hd2.
Qed.

Ltac in_stage :=
  unfold HMV3_stage_keys; repeat case_decide; try lia; cbn; set_solver.

Ltac key_fresh N k :=
  rewrite ?map_app; cbn [map fst];
  lazymatch goal with Hk : map fst ?d = HMV3_keys _ _ |- _ => rewrite Hk end;
  rewrite ?elem_of_app, ?elem_of_cons, ?elem_of_nil;
  intros Hin; repeat match goal with H : _ \/ _ |- _ => destruct H as [H|H] end;
  [ revert Hin; apply (HMV3_key_fresh N k); [lia|in_stage] | .. ];
  try discriminate; try done.

Ltac set_fresh_inner N k :=
  match goal with |- context [dict_set ?d ?k' ?v] =>
    lazymatch d with context [dict_set] => fail | _ =>
      rewrite (dict_set_fresh d k' v) by (key_fresh N k) end
  end.

Ltac emb_grows :=
  match goal with
  | EMB : exists t c h w, st_heap ?s0 !! ?r = Some t /\ _
    |- exists t c h w, st_heap ?s !! ?r = Some t /\ _ =>
      let tt := fresh in let Htt := fresh in let Hss := fresh in
      destruct EMB as (tt & ? & ? & ? & Htt & Hss);
      eexists _, _, _, _; split; [|exact Hss];
      eapply heap_lookup_grows; [|exact Htt]; eauto using heap_grows_trans, heap_grows_refl
  end.

Section HMV3Loop.
Context `{SKSpatial}.

Lemma HMV3_loop_body_inv self B F de k blk e d st e' d' st' :
  HMV3ControlNet.blocks_down self !! k = Some blk ->
  HMV3_loop_inv self B F k (e, d) st ->
  HMV3ControlNet.loop_body self F de k blk (e, d) st = inr ((e', d'), st') ->
  HMV3_loop_inv self B F (S k) (e', d') st'.
Proof.
  intros Hk (Hkeys & (t & c & h & w & Ht & Hs) & Hd) E. cbn in Hkeys, Ht, Hd.
  unfold HMV3ControlNet.loop_body in E. cbv beta iota zeta in E.
  apply bind_inr in E as (e1 & s1 & E1 & E). cbv beta in E.
  apply bind_inr in E as (out & s2 & E2 & E). cbv beta in E.
  apply bind_inr in E as (d3 & s3 & E3 & E). cbv beta in E.
  apply bind_inr in E as (d4 & s4 & E4 & E). cbv beta in E.
  apply bind_inr in E as (d5 & s5 & E5 & E). cbv beta in E.
  apply ret_inr in E as [[= -> ->] ->].
  assert (Hlt : k < length (HMV3ControlNet.blocks_down self)) by (eapply lookup_lt_Some; done).
  grow_all.
  apply sk_call_inr in E1 as (tx & te & n & c' & h' & w' & Hx & He & Hsx & Hc' & -> & Hh1).
  rewrite Ht in Hx. injection Hx as <-. rewrite Hs in Hsx. injection Hsx as <- <- <- <-.
  apply rearrange_unflatten_frames_inr in E2
    as (t2 & n2 & c2 & h2 & w2 & Ht2 & Hs2 & HF & Hmod & -> & Hh2).
  rewrite Hh1, lookup_snoc_length in Ht2. injection Ht2 as <-. cbn in Hs2.
  injection Hs2 as <- <- <- <-.
  assert (EMB : exists t c h w, st_heap s1 !! length (st_heap st) = Some t /\
                                shape t = [B * F; c; h; w])
    by (eexists _, _, _, _; rewrite Hh1, lookup_snoc_length; split; reflexivity).
  assert (Hd2 : dict_ok (HMV3_allowed self) B F s2
     (dict_set d ("up3_" +:+ pretty (length (HMV3ControlNet.blocks_down self) - k - 1))
        (length (st_heap s1)))).
  { apply dict_ok_set; [eapply dict_ok_grows; [|exact Hd]; eauto using heap_grows_trans|].
    eexists _, _, _, _. rewrite Hh2, lookup_snoc_length. split; [reflexivity|]. cbn.
    rewrite Nat.div_mul by done. split; [reflexivity|].
    unfold HMV3_allowed. apply elem_of_cons; right; apply elem_of_cons; right.
    apply list_elem_of_fmap. exists blk. split; [done|]. by eapply list_elem_of_lookup_2. }
  match type of E3 with
  | (if decide ?p then _ else _) _ = inr (_, _) => destruct (decide p) as [U2|U2]
  end;
  [ apply (conv_stage_inr _ _ _ _ _ _ _ _ (HMV3_allowed self) B F) in E3
      as (? & Hd3 & y3 & ->); [ | emb_grows | unfold HMV3_allowed; set_solver | exact Hd2]
  | apply ret_inr in E3 as [-> ->] ].
  all: match type of E4 with
  | (if decide ?p then _ else _) _ = inr (_, _) => destruct (decide p) as [U1|U1]
  end;
  [ lia || (apply (conv_stage_inr _ _ _ _ _ _ _ _ (HMV3_allowed self) B F) in E4
      as (? & Hd4 & y4 & ->); [ | emb_grows | unfold HMV3_allowed; set_solver | done])
  | apply ret_inr in E4 as [-> ->] ].
  all: match type of E5 with
  | (if decide ?p then _ else _) _ = inr (_, _) => destruct (decide p) as [U0|U0]
  end;
  [ lia || (apply (alias_stage_inr _ _ _ _ (HMV3_allowed self) B F) in E5
      as (-> & Hd5 & y5 & y5' & ->); [ | done])
  | apply ret_inr in E5 as [-> ->] ].
  all: unfold HMV3_loop_inv; cbn [fst snd]; split_and!;
    [ rewrite HMV3_keys_S;
      repeat set_fresh_inner (length (HMV3ControlNet.blocks_down self)) k;
      rewrite ?map_app, Hkeys; unfold HMV3_stage_keys; repeat case_decide; try lia; cbn;
      rewrite <- ?app_assoc; reflexivity
    | emb_grows
    | done ].
Qed.

End HMV3Loop.

Section HMV3Forward.
Context `{SKSpatial}.

Lemma HMV3ControlNet_forward_result condition dc fp emo st d st' t B C F Hh W :
  st_heap st !! condition = Some t -> shape t = [B; C; F; Hh; W] ->
  HMV3ControlNet.forward condition dc fp emo st = inr (d, st') ->
  let N := length (HMV3ControlNet.blocks_down (st_self st)) in
  map fst d = HMV3_keys N N /\ dict_ok (HMV3_allowed (st_self st)) B F st' d.
Proof.
  intros Ht Hs E. unfold HMV3ControlNet.forward in E. forward_preamble Ht Hs.
  lazymatch goal with El : for_enumerate _ _ _ _ = inr (?acc, _) |- _ =>
    apply (for_enumerate_inv (HMV3_loop_inv (st_self st) B F)) in El as (Hk & _ & Hd) end.
  - split; [exact Hk|exact Hd].
  - split_and!; [reflexivity| |by intros ? ?].
    eexists _, _, _, _. split; [eauto 25 using heap_lookup_grows | reflexivity].
  - intros k blk [e0 d0] s0 [e1 d1] s1 Hk Hi Eb. by eapply HMV3_loop_body_inv.
Qed.

End HMV3Forward.

Lemma wb_conj {Self A} I (P Q : event -> Prop) (m : PyM Self A) :
  wb I P m -> wb I Q m -> wb I (fun ev => P ev /\ Q ev) m.
Proof.
  intros HP HQ st HI. specialize (HP st HI). specialize (HQ st HI).
  destruct (m st) as [[e st']|[a st']];
    destruct HP as [[G (n & T & F)] R]; destruct HQ as [[_ (n' & T' & F')] _];
    rewrite T in T'; apply app_inv_head in T' as <-;
    (split; [split; [done | exists n; split; [done | by apply Forall_and]] | done]).
Qed.

Section Branches.
Context `{SKSpatial}.

Lemma HMControlNet2_forward_no_face_proj c emo :
  wb (fun _ => True) (fun ev => ev_module ev <> sub_face_proj) (HMControlNet2.forward c emo).
Proof. unfold HMControlNet2.forward. wb_solve. Qed.

Lemma HMControlNet_forward_face_proj c dc fp :
  must_log [sub_face_proj] (HMControlNet.forward c dc fp).
Proof.
  unfold HMControlNet.forward. eapply must_log_weaken; [| repeat must_log_step]. cbn. set_solver.
Qed.

End Branches.

Lemma build_blocks_hidden boc cad h h' :
  build_blocks boc cad h' = map (with_hidden h') (build_blocks boc cad h).
Proof. unfold build_blocks. rewrite map_map. reflexivity. Qed.

(** C7 (amended): for every configuration, [HMControlNet2.__init__] and
    [HMControlNet.__init__] both fail with the same error or both succeed;
    then they share the scale factor, widths, [conv_in] and the sinusoidal
    encoder, [HMControlNet2]'s [emo_proj] is [HMControlNet]'s [exp_proj], and
    the fusion blocks are built from the same [block_out_channels] with one
    difference: their [hidden] width is 64 in [HMControlNet] and 1024 in
    [HMControlNet2].  In [forward], [HMControlNet2] encodes its single
    emotion embedding scaled by 20 and never calls a face-region projection,
    whereas every call of [HMControlNet] that returns has called [face_proj]
    (and its encoder receives [drive_coeff] scaled by 500). *)
Theorem HMControlNet2_init_vs_HMControlNet `{SKSpatial} :
  (forall ec ic sf cad boc,
   match HMControlNet.init ec ic sf cad boc, HMControlNet2.init ec ic sf cad boc with
   | inr a, inr b =>
       HMControlNet2.scale_factor b = HMControlNet.scale_factor a /\
       HMControlNet2.embedding_channels b = HMControlNet.embedding_channels a /\
       HMControlNet2.cross_attention_dim b = HMControlNet.cross_attention_dim a /\
       HMControlNet2.conv_in b = HMControlNet.conv_in a /\
       HMControlNet2.exp_embedding b = HMControlNet.exp_embedding a /\
       HMControlNet2.emo_proj b = HMControlNet.exp_proj a /\
       HMControlNet2.blocks_down b = map (with_hidden 1024) (HMControlNet.blocks_down a) /\
       Forall (fun blk => sk_num_positional_embeddings_hidden blk = 64)
              (HMControlNet.blocks_down a) /\
       Forall (fun blk => sk_num_positional_embeddings_hidden blk = 1024)
              (HMControlNet2.blocks_down b)
   | inl e1, inl e2 => e1 = e2
   | _, _ => False
   end) /\
  (forall c emo (st : state HMControlNet2.t),
     valid_arg (st_heap st) (PyTensor emo) ->
     encoding_report (HMControlNet2.forward c emo st) st sub_exp_embedding
       (fun ev => encoder_input_scaled (st_heap st) (PyTensor emo) 20 sub_exp_embedding ev /\
                  ev_module ev <> sub_face_proj)) /\
  (forall c dc fp (st : state HMControlNet.t),
     valid_arg (st_heap st) (PyTensor dc) ->
     encoding_report (HMControlNet.forward c dc fp st) st sub_face_proj
       (encoder_input_scaled (st_heap st) (PyTensor dc) 500 sub_exp_embedding)).
Proof.
  split_and!.
  - intros ec ic sf cad boc. unfold HMControlNet.init, HMControlNet2.init.
    destruct (boc !! 0); cbn; [|done].
    split_and!; try done.
    + apply build_blocks_hidden.
    + unfold build_blocks. apply Forall_map, Forall_true. done.
    + unfold build_blocks. apply Forall_map, Forall_true. done.
  - intros c emo st Hv.
    eapply (encoding_report_intro (fun s => st_heap st `prefix_of` st_heap s));
      [reflexivity | | apply HMControlNet2_forward_calls | set_solver].
    apply wb_conj; [by apply HMControlNet2_forward_scaled|].
    apply wb_weaken, HMControlNet2_forward_no_face_proj.
  - intros c dc fp st Hv.
    eapply (encoding_report_intro (fun s => st_heap st `prefix_of` st_heap s));
      [reflexivity | by apply HMControlNet_forward_scaled | apply HMControlNet_forward_face_proj
      | set_solver].
Qed.

(** C7: the default configuration builds different fusion blocks in the two
    variants. *)
Lemma HMControlNet2_init_vs_HMControlNet_counterexample : exists a b,
  HMControlNet.init 1280 3 8 320 [128; 320; 640; 1280] = inr a /\
  HMControlNet2.init 1280 3 8 320 [128; 320; 640; 1280] = inr b /\
  HMControlNet.blocks_down a <> HMControlNet2.blocks_down b.
Proof. do 2 eexists. split; [reflexivity|]. split; [reflexivity|]. cbn. discriminate. Qed.

Lemma build_blocks_length boc cad h : length (build_blocks boc cad h) = length boc - 1.
Proof. unfold build_blocks. by rewrite length_map, length_seq. Qed.

Lemma build_blocks_channel_out boc cad h :
  map sk_channel_out (build_blocks boc cad h) = drop 1 boc.
Proof.
  unfold build_blocks. rewrite map_map. cbn. apply list_eq. intros i.
  rewrite list_lookup_fmap, lookup_drop.
  destruct (decide (i < length boc - 1)).
  - rewrite lookup_seq_lt by done. cbn. rewrite nth_lookup.
    destruct (lookup_lt_is_Some_2 boc (S i)) as [x Hx]; [lia|]. by rewrite Hx.
  - rewrite lookup_seq_ge by lia. cbn. symmetry. apply lookup_ge_None_2. lia.
Qed.

Lemma map_fst_zip {A B} (l : list A) (k : list B) : length k = length l -> map fst (zip l k) = l.
Proof.
  revert k. induction l as [|x l IH]; intros [|y k] Hk; cbn in *; try done.
  f_equal. apply IH. lia.
Qed.

Lemma dict_lookup_zip_Some keys outs k r :
  dict_lookup (zip keys outs) k = Some r -> exists i, outs !! i = Some r.
Proof.
  revert outs. induction keys as [|k' keys IH]; intros [|o outs]; cbn; try done.
  case_decide.
  - intros [= ->]. by exists 0.
  - intros Hl. destruct (IH outs Hl) as [i Hi]. by exists (S i).
Qed.

Lemma dict_lookup_zip keys outs i k :
  NoDup keys -> length outs = length keys -> keys !! i = Some k ->
  dict_lookup (zip keys outs) k = outs !! i.
Proof.
  revert outs i. induction keys as [|k' keys IH]; intros [|o outs] i Hnd Hl Hk; cbn in *;
    try done; try lia.
  apply NoDup_cons in Hnd as [Hni Hnd].
  destruct i as [|i]; cbn in *.
  - injection Hk as ->. by rewrite decide_True.
  - rewrite decide_False; [apply IH; [done|lia|done]|].
    intros ->. apply Hni. by eapply list_elem_of_lookup_2.
Qed.


Lemma HMControlNet_init_blocks ec ic sf cad boc s :
  HMControlNet.init ec ic sf cad boc = inr s -> HMControlNet.blocks_down s = build_blocks boc cad 64.
Proof. unfold HMControlNet.init. destruct (boc !! 0); [by intros [= <-]|done]. Qed.

Lemma HMControlNet2_init_blocks ec ic sf cad boc s :
  HMControlNet2.init ec ic sf cad boc = inr s -> HMControlNet2.blocks_down s = build_blocks boc cad 1024.
Proof. unfold HMControlNet2.init. destruct (boc !! 0); [by intros [= <-]|done]. Qed.

Lemma HMV2ControlNet_init_blocks ec ic sf cad boc s :
  HMV2ControlNet.init ec ic sf cad boc = inr s -> HMV2ControlNet.blocks_down s = build_blocks boc cad 1024.
Proof. unfold HMV2ControlNet.init. destruct (boc !! 0); [by intros [= <-]|done]. Qed.

Lemma HMV2ControlNet2_init_blocks ec ic sf cad boc s :
  HMV2ControlNet2.init ec ic sf cad boc = inr s ->
  HMV2ControlNet2.blocks_down s = build_blocks boc cad 1024.
Proof. unfold HMV2ControlNet2.init. destruct (boc !! 0); [by intros [= <-]|done]. Qed.

Lemma HMV3ControlNet_init_blocks ec ic sf cad boc s :
  HMV3ControlNet.init ec ic sf cad boc = inr s ->
  HMV3ControlNet.blocks_down s = build_blocks boc cad 1024.
Proof. unfold HMV3ControlNet.init. destruct (boc !! 0); [by intros [= <-]|done]. Qed.

Lemma HMV3ControlNet_init_allowed ec ic sf cad boc s :
  HMV3ControlNet.init ec ic sf cad boc = inr s -> HMV3_allowed s = 320 :: 640 :: drop 1 boc.
Proof.
  unfold HMV3ControlNet.init. destruct (boc !! 0); [intros [= <-]|done].
  unfold HMV3_allowed. cbn. by rewrite build_blocks_channel_out.
Qed.

Lemma zip_outputs_ok {Self} (keys : list string) outs blocks B F (st : state Self) :
  length outs = length blocks ->
  (forall k o blk, outs !! k = Some o -> blocks !! k = Some blk ->
     F <> 0 /\ exists t h w args, st_heap st !! o = Some t /\
       shape t = [B; sk_channel_out blk; F; h; w] /\
       val t = VRearrange pat_unflatten_frames (VCall (sub_blocks_down k) args)) ->
  dict_ok (map sk_channel_out blocks) B F st (zip keys outs).
Proof.
  intros Hlen Hent key r Hr. apply dict_lookup_zip_Some in Hr as [i Hi].
  destruct (lookup_lt_is_Some_2 blocks i) as [blk Hb].
  { rewrite <- Hlen. by eapply lookup_lt_Some. }
  destruct (Hent i r blk Hi Hb) as [_ (t & h & w & args & Ht & Hs & _)].
  exists t, (sk_channel_out blk), h, w. split_and!; [done|done|].
  apply list_elem_of_fmap. exists blk. split; [done|]. by eapply list_elem_of_lookup_2.
Qed.

Lemma zip_output_at {Self} (keys : list string) outs blocks (st : state Self) i key B F :
  NoDup keys -> length keys = length blocks -> length outs = length blocks ->
  keys !! i = Some key ->
  (forall k o blk, outs !! k = Some o -> blocks !! k = Some blk ->
     F <> 0 /\ exists t h w args, st_heap st !! o = Some t /\
       shape t = [B; sk_channel_out blk; F; h; w] /\
       val t = VRearrange pat_unflatten_frames (VCall (sub_blocks_down k) args)) ->
  exists r t args, dict_lookup (zip keys outs) key = Some r /\ st_heap st !! r = Some t /\
    val t = VRearrange pat_unflatten_frames (VCall (sub_blocks_down i) args).
Proof.
  intros Hnd Hk Hlen Hi Hent.
  assert (Hlt : i < length blocks) by (rewrite <- Hk; by eapply lookup_lt_Some).
  destruct (lookup_lt_is_Some_2 outs i) as [o Ho]; [lia|].
  destruct (lookup_lt_is_Some_2 blocks i) as [blk Hb]; [lia|].
  destruct (Hent i o blk Ho Hb) as [_ (t & h & w & args & Ht & _ & Hv)].
  exists o, t, args. split_and!; [|done|done].
  rewrite (dict_lookup_zip keys outs i key); [done|done|lia|done].
Qed.

Lemma HMV3_keys_length_prefix N i : i <= N - 3 -> length (HMV3_keys N i) = i.
Proof.
  induction i as [|i IH]; intros Hi; [reflexivity|].
  rewrite HMV3_keys_S, length_app, IH by lia.
  unfold HMV3_stage_keys. repeat case_decide; try lia. cbn. lia.
Qed.

Lemma dict_widths_grows {Self} wf B F (st st' : state Self) d :
  heap_grows st st' -> dict_widths wf B F st d -> dict_widths wf B F st' d.
Proof.
  intros G Hd k r Hr. destruct (Hd k r Hr) as (t & h & w & Ht & Hs).
  exists t, h, w. split; [by eapply heap_lookup_grows|done].
Qed.

Lemma dict_widths_set {Self} wf B F (st : state Self) d k v t h w :
  dict_widths wf B F st d -> st_heap st !! v = Some t -> shape t = [B; wf k; F; h; w] ->
  dict_widths wf B F st (dict_set d k v).
Proof.
  intros Hd Hv Hs k' r Hr. rewrite dict_lookup_set in Hr.
  destruct (decide (k' = k)) as [->|]; [injection Hr as <-; by exists t, h, w|by eapply Hd].
Qed.

Lemma HMV3_key_width_up3 self j blk :
  HMV3ControlNet.blocks_down self !! j = Some blk ->
  HMV3_key_width self ("up3_" +:+ pretty (length (HMV3ControlNet.blocks_down self) - j - 1))
    = sk_channel_out blk.
Proof.
  intros Hj. assert (Hlt : j < length (HMV3ControlNet.blocks_down self))
    by (eapply lookup_lt_Some; done).
  unfold HMV3_key_width. cbv zeta.
  rewrite !decide_False by (first [discriminate | intros [?|?]; discriminate]).
  destruct (list_find _ _) as [[i x]|] eqn:Hf.
  - apply list_find_Some in Hf as (Hx & HP & Hmin).
    apply lookup_seq in Hx as [-> Hi].
    apply (inj (String.app _)), (inj pretty) in HP.
    assert (i = j) as -> by lia. cbn. by rewrite Hj.
  - apply list_find_None in Hf. rewrite Forall_forall in Hf.
    exfalso. apply (Hf j); [|done]. apply elem_of_seq. lia.
Qed.

Lemma HMV3_key_width_aliases self :
  1 <= length (HMV3ControlNet.blocks_down self) ->
  HMV3_key_width self "down3_2" = HMV3_key_width self "up3_0" /\
  HMV3_key_width self "down3_3" = HMV3_key_width self "up3_0".
Proof.
  intros HN.
  destruct (lookup_lt_is_Some_2 (HMV3ControlNet.blocks_down self)
              (length (HMV3ControlNet.blocks_down self) - 1)) as [b Hb]; [lia|].
  pose proof (HMV3_key_width_up3 self _ b Hb) as Hu.
  replace (length (HMV3ControlNet.blocks_down self) -
           (length (HMV3ControlNet.blocks_down self) - 1) - 1) with 0 in Hu by lia.
  change ("up3_" +:+ pretty 0%nat) with "up3_0" in Hu. rewrite Hu.
  unfold HMV3_key_width. cbv zeta.
  rewrite decide_False by discriminate. rewrite decide_False by discriminate.
  rewrite decide_True by (left; done). rewrite Hb. split; [done|].
  rewrite decide_False by discriminate. rewrite decide_False by discriminate.
  by rewrite decide_True by (right; done).
Qed.

Lemma conv_stage_width {Self} wf m cfg e key d (st : state Self) d2 st2 B F :
  (exists t c h w, st_heap st !! e = Some t /\ shape t = [B * F; c; h; w]) ->
  wf key = conv_out_channels cfg -> dict_widths wf B F st d ->
  (y <- conv2d_call m cfg e ;; y <- rearrange_unflatten_frames F y ;; ret (dict_set d key y)) st
    = inr (d2, st2) ->
  heap_grows st st2 /\ dict_widths wf B F st2 d2.
Proof.
  intros (t & c & h & w & Ht & Hs) Hc Hd E. peel_inr. grow_all.
  lazymatch goal with Ec : conv2d_call _ _ _ _ = inr _ |- _ =>
    apply conv2d_call_inr in Ec as (t1 & n & c1 & h1 & w1 & Ht1 & Hs1 & -> & Hh1) end.
  rewrite Ht in Ht1. injection Ht1 as <-. rewrite Hs in Hs1. injection Hs1 as <- <- <- <-.
  lazymatch goal with Er : rearrange_unflatten_frames _ _ _ = inr _ |- _ =>
    apply rearrange_unflatten_frames_inr in Er as (t2 & n2 & c2 & h2 & w2 & Ht2 & Hs2 & HF & Hmod & -> & Hh2) end.
  rewrite Hh1, lookup_snoc_length in Ht2. injection Ht2 as <-. cbn in Hs2.
  injection Hs2 as <- <- <- <-.
  split; [eauto using heap_grows_trans|].
  eapply dict_widths_set; [eapply dict_widths_grows; [|exact Hd]; eauto using heap_grows_trans
    | rewrite Hh2, lookup_snoc_length; reflexivity | ].
  cbn. rewrite Nat.div_mul by done. by rewrite Hc.
Qed.

Lemma alias_stage_width {Self} wf d (st : state Self) d2 st2 B F :
  wf "down3_2" = wf "up3_0" -> wf "down3_3" = wf "up3_0" -> dict_widths wf B F st d ->
  (y <- dict_get d "up3_0" ;;
   y0 <- dict_get (dict_set d "down3_2" y) "up3_0" ;;
   ret (dict_set (dict_set d "down3_2" y) "down3_3" y0)) st = inr (d2, st2) ->
  st2 = st /\ dict_widths wf B F st d2.
Proof.
  intros H2 H3 Hd E. peel_inr.
  repeat lazymatch goal with Hl : dict_lookup _ _ = Some _ |- _ => revert Hl end.
  intros Hy Hy'. split; [done|].
  destruct (Hd _ _ Hy) as (t & h & w & Ht & Hs).
  assert (Hd2 : dict_widths wf B F st (dict_set d "down3_2" x)).
  { eapply dict_widths_set; [done|exact Ht|]. by rewrite H2. }
  destruct (Hd2 _ _ Hy') as (t' & h' & w' & Ht' & Hs').
  eapply dict_widths_set; [done|exact Ht'|]. by rewrite H3.
Qed.

Section HMV3Widths.
Context `{SKSpatial}.

Lemma HMV3_loop_body_widths self B F de k blk e d st e' d' st' :
  HMV3ControlNet.blocks_down self !! k = Some blk ->
  HMV3_loop_inv self B F k (e, d) st ->
  dict_widths (HMV3_key_width self) B F st d ->
  HMV3ControlNet.loop_body self F de k blk (e, d) st = inr ((e', d'), st') ->
  dict_widths (HMV3_key_width self) B F st' d'.
Proof.
  intros Hk (_ & (t & c & h & w & Ht & Hs) & _) Hw E. cbn in Ht.
  unfold HMV3ControlNet.loop_body in E. cbv beta iota zeta in E.
  apply bind_inr in E as (e1 & s1 & E1 & E). cbv beta in E.
  apply bind_inr in E as (out & s2 & E2 & E). cbv beta in E.
  apply bind_inr in E as (d3 & s3 & E3 & E). cbv beta in E.
  apply bind_inr in E as (d4 & s4 & E4 & E). cbv beta in E.
  apply bind_inr in E as (d5 & s5 & E5 & E). cbv beta in E.
  apply ret_inr in E as [[= -> ->] ->].
  assert (Hlt : k < length (HMV3ControlNet.blocks_down self)) by (eapply lookup_lt_Some; done).
  grow_all.
  apply sk_call_inr in E1 as (tx & te & n & c' & h' & w' & Hx & He & Hsx & Hc' & -> & Hh1).
  rewrite Ht in Hx. injection Hx as <-. rewrite Hs in Hsx. injection Hsx as <- <- <- <-.
  apply rearrange_unflatten_frames_inr in E2
    as (t2 & n2 & c2 & h2 & w2 & Ht2 & Hs2 & HF & Hmod & -> & Hh2).
  rewrite Hh1, lookup_snoc_length in Ht2. injection Ht2 as <-. cbn in Hs2.
  injection Hs2 as <- <- <- <-.
  assert (EMB : exists t c h w, st_heap s1 !! length (st_heap st) = Some t /\
                                shape t = [B * F; c; h; w])
    by (eexists _, _, _, _; rewrite Hh1, lookup_snoc_length; split; reflexivity).
  assert (Hw2 : dict_widths (HMV3_key_width self) B F s2
     (dict_set d ("up3_" +:+ pretty (length (HMV3ControlNet.blocks_down self) - k - 1))
        (length (st_heap s1)))).
  { eapply dict_widths_set;
      [eapply dict_widths_grows; [|exact Hw]; eauto using heap_grows_trans
      | rewrite Hh2, lookup_snoc_length; reflexivity | ].
    cbn. rewrite Nat.div_mul by done. by rewrite (HMV3_key_width_up3 self k blk Hk). }
  match type of E3 with
  | (if decide ?p then _ else _) _ = inr (_, _) => destruct (decide p) as [U2|U2]
  end;
  [ apply (conv_stage_width (HMV3_key_width self) _ _ _ _ _ _ _ _ B F) in E3 as [? Hw3];
      [ | emb_grows | reflexivity | exact Hw2]
  | apply ret_inr in E3 as [-> ->] ].
  all: match type of E4 with
  | (if decide ?p then _ else _) _ = inr (_, _) => destruct (decide p) as [U1|U1]
  end;
  [ lia || (apply (conv_stage_width (HMV3_key_width self) _ _ _ _ _ _ _ _ B F) in E4 as [? Hw4];
      [ | emb_grows | reflexivity | done])
  | apply ret_inr in E4 as [-> ->] ].
  all: match type of E5 with
  | (if decide ?p then _ else _) _ = inr (_, _) => destruct (decide p) as [U0|U0]
  end;
  [ lia || (apply (alias_stage_width (HMV3_key_width self) _ _ _ _ B F) in E5 as (-> & Hw5);
      [ | apply HMV3_key_width_aliases; lia | apply HMV3_key_width_aliases; lia | done])
  | apply ret_inr in E5 as [-> ->] ].
  all: done.
Qed.

Lemma HMV3ControlNet_forward_widths condition dc fp emo st d st' t B C F Hh W :
  st_heap st !! condition = Some t -> shape t = [B; C; F; Hh; W] ->
  HMV3ControlNet.forward condition dc fp emo st = inr (d, st') ->
  dict_widths (HMV3_key_width (st_self st)) B F st' d.
Proof.
  intros Ht Hs E. unfold HMV3ControlNet.forward in E. forward_preamble Ht Hs.
  lazymatch goal with El : for_enumerate _ _ _ _ = inr (?acc, _) |- _ =>
    apply (for_enumerate_inv (fun k acc s => HMV3_loop_inv (st_self st) B F k acc s /\
                                             dict_widths (HMV3_key_width (st_self st)) B F s (snd acc)))
      in El as [_ Hd] end.
  - exact Hd.
  - split; [split_and!; [reflexivity| |by intros ? ?] | by intros ? ?].
    eexists _, _, _, _. split; [eauto 25 using heap_lookup_grows | reflexivity].
  - intros k blk [e0 d0] s0 [e1 d1] s1 Hk [Hi Hw] Eb. split.
    + by eapply HMV3_loop_body_inv.
    + by eapply HMV3_loop_body_widths.
Qed.

End HMV3Widths.

Lemma dict_lookup_elem d k r : dict_lookup d k = Some r -> k ∈ map fst d.
Proof.
  induction d as [|[k' v'] d IH]; cbn; [done|].
  case_decide as Hk; [intros _; subst; by left|]. intros Hl. right. by apply IH.
Qed.

Lemma dict_lookup_zip_Some_at keys outs k r :
  dict_lookup (zip keys outs) k = Some r -> exists i, keys !! i = Some k /\ outs !! i = Some r.
Proof.
  revert outs. induction keys as [|k' keys IH]; intros [|o outs]; cbn; try done.
  case_decide.
  - intros [= ->]. subst. by exists 0.
  - intros Hl. destruct (IH outs Hl) as (i & Hi & Ho). by exists (S i).
Qed.

Lemma build_blocks_lookup boc cad h k b :
  build_blocks boc cad h !! k = Some b ->
  boc !! k = Some (sk_channel_in b) /\ boc !! S k = Some (sk_channel_out b) /\
  sk_cross_attention_dim b = cad.
Proof.
  unfold build_blocks. rewrite list_lookup_fmap.
  destruct (seq 1 (length boc - 1) !! k) as [i|] eqn:Hi; [|done]. cbn. intros [= <-].
  apply lookup_seq in Hi as [-> Hl]. cbn. replace (1 + k - 1) with k by lia.
  destruct (lookup_lt_is_Some_2 boc k) as [x Hx]; [lia|].
  destruct (lookup_lt_is_Some_2 boc (S k)) as [y Hy]; [lia|].
  rewrite Nat.sub_0_r, (nth_lookup_Some _ _ _ _ Hx), (nth_lookup_Some _ _ _ _ Hy). done.
Qed.

Lemma zip_entry_width {Self} (key : nat -> string) outs boc cad hid (st : state Self) B F k r :
  let blocks := build_blocks boc cad hid in
  length outs = length blocks ->
  (forall k o blk, outs !! k = Some o -> blocks !! k = Some blk ->
     F <> 0 /\ exists t h w args, st_heap st !! o = Some t /\
       shape t = [B; sk_channel_out blk; F; h; w] /\
       val t = VRearrange pat_unflatten_frames (VCall (sub_blocks_down k) args)) ->
  dict_lookup (zip (map key (seq 0 (length blocks))) outs) k = Some r ->
  exists i c t h w args, i < length boc - 1 /\ k = key i /\ boc !! S i = Some c /\
    st_heap st !! r = Some t /\ shape t = [B; c; F; h; w] /\
    val t = VRearrange pat_unflatten_frames (VCall (sub_blocks_down i) args).
Proof.
  intros blocks Hlen Hent Hr. apply dict_lookup_zip_Some_at in Hr as (i & Hki & Hri).
  rewrite list_lookup_fmap in Hki.
  destruct (seq 0 (length blocks) !! i) as [i'|] eqn:Hs; [|done].
  apply lookup_seq in Hs as [-> Hi]. injection Hki as <-.
  destruct (lookup_lt_is_Some_2 blocks i) as [blk Hb]; [lia|].
  destruct (Hent i r blk Hri Hb) as [_ (t & h & w & args & Ht & Hsh & Hv)].
  apply build_blocks_lookup in Hb as (_ & Hc & _).
  unfold blocks in Hi. rewrite build_blocks_length in Hi.
  exists i, (sk_channel_out blk), t, h, w, args. by split_and!.
Qed.

Lemma HMV3_stage_keys_NoDup u : NoDup (HMV3_stage_keys u).
Proof.
  unfold HMV3_stage_keys. repeat case_decide; try lia; subst; cbn;
    first [apply NoDup_singleton | apply (bool_decide_unpack _); vm_compute; reflexivity].
Qed.

Lemma NoDup_HMV3_keys N i : i <= N -> NoDup (HMV3_keys N i).
Proof.
  induction i as [|i IH]; intros Hi; [constructor|].
  rewrite HMV3_keys_S. apply NoDup_app. split_and!; [apply IH; lia | | apply HMV3_stage_keys_NoDup].
  intros x Hx Hx'. revert Hx. apply (HMV3_key_fresh N i x); [lia|done].
Qed.

Lemma elem_of_HMV3_keys_2 n i idx x :
  idx < i -> x ∈ HMV3_stage_keys (n - idx - 1) -> x ∈ HMV3_keys n i.
Proof.
  intros Hi Hx. unfold HMV3_keys. apply list_elem_of_In, in_concat.
  exists (HMV3_stage_keys (n - idx - 1)). split; [|by apply list_elem_of_In].
  apply in_map_iff. exists idx. split; [done|]. apply in_seq. lia.
Qed.

Lemma HMV3_keys_elem_iff N k :
  k ∈ HMV3_keys N N <->
  (exists u, u < N /\ k = "up3_" +:+ pretty u) \/
  (k = "down3_0" /\ 2 < N) \/ (k = "down3_1" /\ 1 < N) \/
  ((k = "down3_2" \/ k = "down3_3") /\ 0 < N).
Proof.
  split.
  - intros (idx & Hidx & Hx)%elem_of_HMV3_keys. unfold HMV3_stage_keys in Hx.
    rewrite !elem_of_app in Hx. destruct Hx as [Hx|[Hx|[Hx|Hx]]].
    + apply list_elem_of_singleton in Hx. left. exists (N - idx - 1). split; [lia|done].
    + case_decide; [|set_solver]. apply list_elem_of_singleton in Hx.
      right; left. split; [done|lia].
    + case_decide; [|set_solver]. apply list_elem_of_singleton in Hx.
      right; right; left. split; [done|lia].
    + case_decide; [|set_solver]. right; right; right. split; [set_solver|lia].
  - intros [(u & Hu & ->)|[[-> HN]|[[-> HN]|[Hk HN]]]].
    + apply (elem_of_HMV3_keys_2 N N (N - u - 1)); [lia|].
      replace (N - (N - u - 1) - 1) with u by lia. unfold HMV3_stage_keys. set_solver.
    + apply (elem_of_HMV3_keys_2 N N (N - 3)); [lia|].
      replace (N - (N - 3) - 1) with 2 by lia. cbn. set_solver.
    + apply (elem_of_HMV3_keys_2 N N (N - 2)); [lia|].
      replace (N - (N - 2) - 1) with 1 by lia. cbn. set_solver.
    + apply (elem_of_HMV3_keys_2 N N (N - 1)); [lia|].
      replace (N - (N - 1) - 1) with 0 by lia. cbn. set_solver.
Qed.

Lemma HMV3_stage_keys_length u :
  length (HMV3_stage_keys u) = match u with 0 => 3 | 1 => 2 | 2 => 2 | _ => 1 end.
Proof. destruct u as [|[|[|u]]]; reflexivity. Qed.

Lemma HMV3_keys_length N : 3 <= N -> length (HMV3_keys N N) = N + 4.
Proof.
  intros HN. replace (HMV3_keys N N) with (HMV3_keys N (S (S (S (N - 3)))))
    by (f_equal; lia).
  rewrite !HMV3_keys_S, !length_app, HMV3_keys_length_prefix by lia.
  rewrite !HMV3_stage_keys_length.
  replace (N - S (S (N - 3)) - 1) with 0 by lia. replace (N - S (N - 3) - 1) with 1 by lia.
  replace (N - (N - 3) - 1) with 2 by lia. lia.
Qed.

Lemma HMV3ControlNet_init_adapters ec ic sf cad boc s :
  HMV3ControlNet.init ec ic sf cad boc = inr s ->
  conv_out_channels (HMV3ControlNet.conv_up2_down0 s) = 320 /\
  conv_out_channels (HMV3ControlNet.conv_up1_down1 s) = 640.
Proof.
  unfold HMV3ControlNet.init. destruct (boc !! 0); [intros [= <-]|done]. done.
Qed.

Ltac use_result R init_blocks :=
  intros * Hi Ht Hs E;
  eapply R in E; [|exact Ht|exact Hs]; cbv zeta in E;
  destruct E as (outs & -> & Hlen & Hent);
  rewrite (init_blocks _ _ _ _ _ _ Hi) in Hlen, Hent |- *.

Ltac entry_width :=
  cbv zeta; intros k r Hr;
  lazymatch goal with
  | Hlen : length _ = _, Hent : forall _ _ _, _ |- _ =>
    destruct (zip_entry_width _ _ _ _ _ _ _ _ _ _ Hlen Hent Hr)
      as (i & c & t' & h & w & args & Hi' & Hk & Hrest)
  end;
  do 6 eexists; split; [eassumption|];
  split; [lazymatch goal with Hk : _ = _ |- _ => rewrite Hk end; cbn beta; rewrite ?build_blocks_length; first [reflexivity | do 2 f_equal; lia] | eassumption].

Section Claims.
Context `{SKSpatial}.

(** C3 (amended): the keys of the mapping a successful [forward] returns, in
    order, for [N = len(block_out_channels) - 1]: "down_0" .. "down_{N-1}"
    ([HMControlNet]), "down2_0" .. ([HMControlNet2]), "up_v2_{N-1}" ..
    "up_v2_0" ([HMV2ControlNet]) and "up2_v2_{N-1}" .. "up2_v2_0"
    ([HMV2ControlNet2]), [N] keys each.  For [HMV3ControlNet] the keys are
    [HMV3_keys N N], with no key twice: a key is returned exactly when it is
    "up3_u" for a stage [u < N], "down3_0" when a stage [u = 2] exists
    ([N > 2]), "down3_1" when [u = 1] exists ([N > 1]), or "down3_2" or
    "down3_3" when [u = 0] exists ([N > 0]); that makes [N + 4] keys when
    [N >= 3] (8 with the default five channels). *)
Theorem forward_output_keys :
  (forall ec ic sf cad boc st condition t B C F Hh W dc fp d st',
     HMControlNet.init ec ic sf cad boc = inr (st_self st) ->
     st_heap st !! condition = Some t -> shape t = [B; C; F; Hh; W] ->
     HMControlNet.forward condition dc fp st = inr (d, st') ->
     map fst d = map (fun i => "down_" +:+ pretty i) (seq 0 (length boc - 1))) /\
  (forall ec ic sf cad boc st condition t B C F Hh W emo d st',
     HMControlNet2.init ec ic sf cad boc = inr (st_self st) ->
     st_heap st !! condition = Some t -> shape t = [B; C; F; Hh; W] ->
     HMControlNet2.forward condition emo st = inr (d, st') ->
     map fst d = map (fun i => "down2_" +:+ pretty i) (seq 0 (length boc - 1))) /\
  (forall ec ic sf cad boc st condition t B C F Hh W dc fp d st',
     HMV2ControlNet.init ec ic sf cad boc = inr (st_self st) ->
     st_heap st !! condition = Some t -> shape t = [B; C; F; Hh; W] ->
     HMV2ControlNet.forward condition dc fp st = inr (d, st') ->
     let N := length boc - 1 in
     map fst d = map (fun i => "up_v2_" +:+ pretty (N - 1 - i)) (seq 0 N)) /\
  (forall ec ic sf cad boc st condition t B C F Hh W emo d st',
     HMV2ControlNet2.init ec ic sf cad boc = inr (st_self st) ->
     st_heap st !! condition = Some t -> shape t = [B; C; F; Hh; W] ->
     HMV2ControlNet2.forward condition emo st = inr (d, st') ->
     let N := length boc - 1 in
     map fst d = map (fun i => "up2_v2_" +:+ pretty (N - 1 - i)) (seq 0 N)) /\
  (forall ec ic sf cad boc st condition t B C F Hh W dc fp emo d st',
     HMV3ControlNet.init ec ic sf cad boc = inr (st_self st) ->
     st_heap st !! condition = Some t -> shape t = [B; C; F; Hh; W] ->
     HMV3ControlNet.forward condition dc fp emo st = inr (d, st') ->
     let N := length boc - 1 in
     map fst d = HMV3_keys N N /\ NoDup (map fst d) /\
     (forall k, k ∈ map fst d <->
        (exists u, u < N /\ k = "up3_" +:+ pretty u) \/
        (k = "down3_0" /\ 2 < N) \/ (k = "down3_1" /\ 1 < N) \/
        ((k = "down3_2" \/ k = "down3_3") /\ 0 < N)) /\
     (3 <= N -> length d = N + 4)).
Proof.
  split_and!.
  - use_result HMControlNet_forward_result HMControlNet_init_blocks.
    rewrite map_fst_zip by (rewrite length_map, length_seq; done).
    by rewrite build_blocks_length.
  - use_result HMControlNet2_forward_result HMControlNet2_init_blocks.
    rewrite map_fst_zip by (rewrite length_map, length_seq; done).
    by rewrite build_blocks_length.
  - use_result HMV2ControlNet_forward_result HMV2ControlNet_init_blocks.
    rewrite map_fst_zip by (rewrite length_map, length_seq; done).
    rewrite build_blocks_length. apply map_ext. intros i. do 2 f_equal. lia.
  - use_result HMV2ControlNet2_forward_result HMV2ControlNet2_init_blocks.
    rewrite map_fst_zip by (rewrite length_map, length_seq; done).
    rewrite build_blocks_length. apply map_ext. intros i. do 2 f_equal. lia.
  - intros * Hi Ht Hs E.
    destruct (HMV3ControlNet_forward_result _ _ _ _ _ _ _ _ _ _ _ _ _ Ht Hs E) as [Hk _].
    rewrite (HMV3ControlNet_init_blocks _ _ _ _ _ _ Hi), build_blocks_length in Hk.
    cbv zeta in Hk |- *. rewrite Hk.
    split_and!; [done | by apply NoDup_HMV3_keys | intros k; apply HMV3_keys_elem_iff | ].
    intros HN. rewrite <- (length_map fst d), Hk. by apply HMV3_keys_length.
Qed.

(** C5: for every variant, given a condition of shape [(B, C, F, H, W)],
    every tensor of the returned mapping has shape [(B, C', F, h, w)], with
    [F] the input's frame count and [C'] the configured width of the stage
    its key names.  In the four single-chain variants the entry under the
    key of fusion block [i] has [C' = block_out_channels[i+1]] (the
    [channel_out] of block [i]) and is the [(b f) -> b f] un-flattening of
    that block's output.  In [HMV3ControlNet], "up3_{N-j-1}" has the width
    [block_out_channels[j+1]] of block [j], "down3_0" and "down3_1" the
    widths 320 and 640 of [conv_up2_down0] and [conv_up1_down1], and
    "down3_2" and "down3_3" the last width [block_out_channels[N]]. *)
Theorem forward_output_shapes :
  (forall ec ic sf cad boc st condition t B C F Hh W dc fp d st',
     HMControlNet.init ec ic sf cad boc = inr (st_self st) ->
     st_heap st !! condition = Some t -> shape t = [B; C; F; Hh; W] ->
     HMControlNet.forward condition dc fp st = inr (d, st') ->
     forall k r, dict_lookup d k = Some r ->
       exists i c t' h w args, i < length boc - 1 /\ k = "down_" +:+ pretty i /\
         boc !! S i = Some c /\ st_heap st' !! r = Some t' /\ shape t' = [B; c; F; h; w] /\
         val t' = VRearrange pat_unflatten_frames (VCall (sub_blocks_down i) args)) /\
  (forall ec ic sf cad boc st condition t B C F Hh W emo d st',
     HMControlNet2.init ec ic sf cad boc = inr (st_self st) ->
     st_heap st !! condition = Some t -> shape t = [B; C; F; Hh; W] ->
     HMControlNet2.forward condition emo st = inr (d, st') ->
     forall k r, dict_lookup d k = Some r ->
       exists i c t' h w args, i < length boc - 1 /\ k = "down2_" +:+ pretty i /\
         boc !! S i = Some c /\ st_heap st' !! r = Some t' /\ shape t' = [B; c; F; h; w] /\
         val t' = VRearrange pat_unflatten_frames (VCall (sub_blocks_down i) args)) /\
  (forall ec ic sf cad boc st condition t B C F Hh W dc fp d st',
     HMV2ControlNet.init ec ic sf cad boc = inr (st_self st) ->
     st_heap st !! condition = Some t -> shape t = [B; C; F; Hh; W] ->
     HMV2ControlNet.forward condition dc fp st = inr (d, st') ->
     let N := length boc - 1 in
     forall k r, dict_lookup d k = Some r ->
       exists i c t' h w args, i < N /\ k = "up_v2_" +:+ pretty (N - 1 - i) /\
         boc !! S i = Some c /\ st_heap st' !! r = Some t' /\ shape t' = [B; c; F; h; w] /\
         val t' = VRearrange pat_unflatten_frames (VCall (sub_blocks_down i) args)) /\
  (forall ec ic sf cad boc st condition t B C F Hh W emo d st',
     HMV2ControlNet2.init ec ic sf cad boc = inr (st_self st) ->
     st_heap st !! condition = Some t -> shape t = [B; C; F; Hh; W] ->
     HMV2ControlNet2.forward condition emo st = inr (d, st') ->
     let N := length boc - 1 in
     forall k r, dict_lookup d k = Some r ->
       exists i c t' h w args, i < N /\ k = "up2_v2_" +:+ pretty (N - 1 - i) /\
         boc !! S i = Some c /\ st_heap st' !! r = Some t' /\ shape t' = [B; c; F; h; w] /\
         val t' = VRearrange pat_unflatten_frames (VCall (sub_blocks_down i) args)) /\
  (forall ec ic sf cad boc st condition t B C F Hh W dc fp emo d st',
     HMV3ControlNet.init ec ic sf cad boc = inr (st_self st) ->
     st_heap st !! condition = Some t -> shape t = [B; C; F; Hh; W] ->
     HMV3ControlNet.forward condition dc fp emo st = inr (d, st') ->
     let N := length boc - 1 in
     forall k r, dict_lookup d k = Some r -> exists c t' h w,
       st_heap st' !! r = Some t' /\ shape t' = [B; c; F; h; w] /\
       ((exists j, j < N /\ k = "up3_" +:+ pretty (N - j - 1) /\ boc !! S j = Some c) \/
        (k = "down3_0" /\ c = 320) \/ (k = "down3_1" /\ c = 640) \/
        ((k = "down3_2" \/ k = "down3_3") /\ boc !! N = Some c))).
Proof.
  split_and!.
  - use_result HMControlNet_forward_result HMControlNet_init_blocks. entry_width.
  - use_result HMControlNet2_forward_result HMControlNet2_init_blocks. entry_width.
  - use_result HMV2ControlNet_forward_result HMV2ControlNet_init_blocks. entry_width.
  - use_result HMV2ControlNet2_forward_result HMV2ControlNet2_init_blocks. entry_width.
  - intros * Hi Ht Hs E N k r Hr.
    destruct (HMV3ControlNet_forward_widths condition dc fp emo st d st' t B C F Hh W Ht Hs E k r Hr)
      as (t' & h & w & Ht' & Hs').
    destruct (HMV3ControlNet_forward_result _ _ _ _ _ _ _ _ _ _ _ _ _ Ht Hs E) as [Hk _].
    exists (HMV3_key_width (st_self st) k), t', h, w. split_and!; [done|done|].
    pose proof (dict_lookup_elem _ _ _ Hr) as Hm. rewrite Hk in Hm. cbv zeta in Hm.
    destruct (HMV3ControlNet_init_adapters _ _ _ _ _ _ Hi) as [A0 A1].
    pose proof (HMV3ControlNet_init_blocks _ _ _ _ _ _ Hi) as Hb.
    assert (HN : length (HMV3ControlNet.blocks_down (st_self st)) = N)
      by (unfold N; by rewrite Hb, build_blocks_length).
    rewrite HN in Hm.
    apply HMV3_keys_elem_iff in Hm as [(u & Hu & ->)|[[-> _]|[[-> _]|[Hk' HN0]]]].
    + left. exists (N - u - 1). split; [lia|].
      destruct (lookup_lt_is_Some_2 (HMV3ControlNet.blocks_down (st_self st)) (N - u - 1))
        as [blk Hbl]; [lia|].
      pose proof (HMV3_key_width_up3 _ _ _ Hbl) as Hw. rewrite HN in Hw.
      replace (N - (N - u - 1) - 1) with u in Hw by lia. rewrite Hw.
      replace (N - (N - u - 1) - 1) with u by lia. split; [done|].
      rewrite Hb in Hbl. by apply build_blocks_lookup in Hbl as (_ & ? & _).
    + right; left. split; [done|].
      unfold HMV3_key_width. rewrite decide_True by done. done.
    + right; right; left. split; [done|].
      unfold HMV3_key_width. rewrite decide_False by discriminate.
      rewrite decide_True by done. done.
    + right; right; right. split; [done|].
      destruct (lookup_lt_is_Some_2 (HMV3ControlNet.blocks_down (st_self st)) (N - 1))
        as [blk Hbl]; [lia|].
      pose proof (HMV3_key_width_up3 _ _ _ Hbl) as Hw. rewrite HN in Hw.
      replace (N - (N - 1) - 1) with 0 in Hw by lia.
      change ("up3_" +:+ pretty 0%nat) with "up3_0" in Hw.
      destruct (HMV3_key_width_aliases (st_self st)) as [A2 A3]; [lia|].
      assert (Hc : HMV3_key_width (st_self st) k = sk_channel_out blk)
        by (destruct Hk' as [-> | ->]; congruence).
      rewrite Hc. rewrite Hb in Hbl. apply build_blocks_lookup in Hbl as (_ & Ho & _).
      replace N with (S (N - 1)) by lia. done.
Qed.

(** C6: [HMV2ControlNet] stores its outputs under the descending keys
    "up_v2_{N-1}" .. "up_v2_0", [N = len(block_out_channels) - 1], the
    output of fusion block [i] under "up_v2_{N-1-i}"; [HMV2ControlNet2]
    likewise under "up2_v2_*". *)
Theorem HMV2_descending_keys :
  (forall ec ic sf cad boc st condition t B C F Hh W dc fp d st',
     HMV2ControlNet.init ec ic sf cad boc = inr (st_self st) ->
     st_heap st !! condition = Some t -> shape t = [B; C; F; Hh; W] ->
     HMV2ControlNet.forward condition dc fp st = inr (d, st') ->
     let N := length boc - 1 in
     map fst d = map (fun i => "up_v2_" +:+ pretty (N - 1 - i)) (seq 0 N) /\
     forall i, i < N -> exists r t args,
       dict_lookup d ("up_v2_" +:+ pretty (N - 1 - i)) = Some r /\ st_heap st' !! r = Some t /\
       val t = VRearrange pat_unflatten_frames (VCall (sub_blocks_down i) args)) /\
  (forall ec ic sf cad boc st condition t B C F Hh W emo d st',
     HMV2ControlNet2.init ec ic sf cad boc = inr (st_self st) ->
     st_heap st !! condition = Some t -> shape t = [B; C; F; Hh; W] ->
     HMV2ControlNet2.forward condition emo st = inr (d, st') ->
     let N := length boc - 1 in
     map fst d = map (fun i => "up2_v2_" +:+ pretty (N - 1 - i)) (seq 0 N) /\
     forall i, i < N -> exists r t args,
       dict_lookup d ("up2_v2_" +:+ pretty (N - 1 - i)) = Some r /\ st_heap st' !! r = Some t /\
       val t = VRearrange pat_unflatten_frames (VCall (sub_blocks_down i) args)).
Proof.
  split.
  - use_result HMV2ControlNet_forward_result HMV2ControlNet_init_blocks.
    rewrite build_blocks_length in Hlen |- *. cbv zeta.
    assert (Hkeys : map (fun i => "up_v2_" +:+ pretty (length boc - 1 - i - 1)) (seq 0 (length boc - 1))
                    = map (fun i => "up_v2_" +:+ pretty (length boc - 1 - 1 - i)) (seq 0 (length boc - 1)))
      by (apply map_ext; intros i; do 2 f_equal; lia).
    rewrite Hkeys. split.
    + rewrite map_fst_zip by (rewrite length_map, length_seq; done). done.
    + intros i Hi'. eapply zip_output_at.
      * apply NoDup_map_seq. intros j j' Hj Hj' Hjj.
        apply (inj (String.app _)), (inj pretty) in Hjj. lia.
      * by rewrite length_map, length_seq, build_blocks_length.
      * by rewrite build_blocks_length.
      * rewrite list_lookup_fmap, lookup_seq_lt by done. done.
      * exact Hent.
  - use_result HMV2ControlNet2_forward_result HMV2ControlNet2_init_blocks.
    rewrite build_blocks_length in Hlen |- *. cbv zeta.
    assert (Hkeys : map (fun i => "up2_v2_" +:+ pretty (length boc - 1 - i - 1)) (seq 0 (length boc - 1))
                    = map (fun i => "up2_v2_" +:+ pretty (length boc - 1 - 1 - i)) (seq 0 (length boc - 1)))
      by (apply map_ext; intros i; do 2 f_equal; lia).
    rewrite Hkeys. split.
    + rewrite map_fst_zip by (rewrite length_map, length_seq; done). done.
    + intros i Hi'. eapply zip_output_at.
      * apply NoDup_map_seq. intros j j' Hj Hj' Hjj.
        apply (inj (String.app _)), (inj pretty) in Hjj. lia.
      * by rewrite length_map, length_seq, build_blocks_length.
      * by rewrite build_blocks_length.
      * rewrite list_lookup_fmap, lookup_seq_lt by done. done.
      * exact Hent.
Qed.

End Claims.

(** C10: a call of [HMV3ControlNet.forward] that supplies only one of
    [drive_coeff] and [face_parts] and no [emo_embedding] takes the emotion
    path; once [conv_in] has run, it raises the [TypeError] of [None * 20]
    (the only exception raised), not an error about the missing dual input. *)
Theorem HMV3_missing_dual_input_raises `{SKSpatial} ec ic sf cad boc self condition
    drive_coeff face_parts (st : state HMV3ControlNet.t) t b f h w :
  HMV3ControlNet.init ec ic sf cad boc = inr self -> st_self st = self ->
  st_heap st !! condition = Some t -> shape t = [b; ic; f; h; w] ->
  sf <> 0 -> h / sf <> 0 -> w / sf <> 0 -> ic * h * w <> 0 ->
  both_supplied drive_coeff face_parts = false ->
  exists st', HMV3ControlNet.forward condition drive_coeff face_parts PyNone st
                = inl (none_mul_error, st') /\
              st_raised st' = none_mul_error :: st_raised st /\
              exists args, st_trace st' = st_trace st ++ [mkEvent sub_conv_in args].
Proof.
  intros Hi Hs Ht Hsh Hsf Hh Hw Hc Hb.
  unfold HMV3ControlNet.init in Hi. destruct (boc !! 0) as [c0|]; [|discriminate].
  injection Hi as <-. destruct st as [self heap tr rs]; cbn in *; subst self.
  unfold HMV3ControlNet.forward, unpack5, rearrange_flatten_frames, floordiv, interpolate,
    conv2d_call, mul, get_self, deref, alloc, log_call, ret, raise, bind.
  repeat first [ rewrite Ht | rewrite Hsh | rewrite lookup_snoc_length
               | rewrite decide_False by (try tauto; lia) | progress cbn ].
  destruct drive_coeff, face_parts; try discriminate; cbn;
    eexists; (split; [reflexivity | split; [reflexivity | eexists; reflexivity]]).
Qed.

Lemma HMV3_down3_alias_up3_0_witness : exists self,
  HMV3ControlNet.init 1280 3 4 320 [128; 640; 1280; 1280; 1280] = inr self /\ exists d st' r,
  HMV3ControlNet.forward (H:=sk_same_hw) 0 PyNone PyNone (PyTensor 3)
    (mkState self example_heap [] []) = inr (d, st') /\
  dict_lookup d "up3_0" = Some r /\
  dict_lookup d "down3_2" = Some r /\ dict_lookup d "down3_3" = Some r.
Proof.
  eexists. split; [reflexivity|].
  lazymatch goal with |- context [HMV3ControlNet.forward ?c ?x ?y ?z ?s] =>
    destruct (HMV3ControlNet.forward c x y z s) as [[e st']|[d st']] eqn:E end;
    pose proof E as E'; vm_compute in E'; [discriminate|].
  injection E' as Hd Hst. subst d st'. do 3 eexists. split; [exact E|].
  split; [reflexivity|].
  eapply (HMV3_down3_alias_up3_0 (H:=sk_same_hw)); [exact E | reflexivity].
Defined.

Ltac run_forward :=
  eexists; split; [reflexivity|];
  lazymatch goal with |- exists d st', ?m ?s = inr (d, st') /\ _ =>
    let E := fresh "E" in let E' := fresh "E'" in
    let d0 := fresh "d" in let s0 := fresh "st" in
    destruct (m s) as [[? ?]|[d0 s0]] eqn:E; pose proof E as E'; vm_compute in E';
      [discriminate|];
    let Hd := fresh in let Hs := fresh in
    injection E' as Hd Hs; subst d0 s0; do 2 eexists; split; [exact E|]
  end.

Lemma forward_output_keys_witness :
  (exists self, HMControlNet.init 1280 3 8 320 boc_v1 = inr self /\ exists d st',
     HMControlNet.forward (H:=sk_same_hw) 0 1 2 (mkState self example_heap [] []) = inr (d, st') /\
     map fst d = map (fun i => "down_" +:+ pretty i) (seq 0 (length boc_v1 - 1))) /\
  (exists self, HMControlNet2.init 1280 3 8 320 boc_v1 = inr self /\ exists d st',
     HMControlNet2.forward (H:=sk_same_hw) 0 3 (mkState self example_heap [] []) = inr (d, st') /\
     map fst d = map (fun i => "down2_" +:+ pretty i) (seq 0 (length boc_v1 - 1))) /\
  (exists self, HMV2ControlNet.init 1280 3 4 320 boc_v2 = inr self /\ exists d st',
     HMV2ControlNet.forward (H:=sk_same_hw) 0 1 2 (mkState self example_heap [] []) = inr (d, st') /\
     let N := length boc_v2 - 1 in
     map fst d = map (fun i => "up_v2_" +:+ pretty (N - 1 - i)) (seq 0 N)) /\
  (exists self, HMV2ControlNet2.init 1280 3 4 320 boc_v2 = inr self /\ exists d st',
     HMV2ControlNet2.forward (H:=sk_same_hw) 0 3 (mkState self example_heap [] []) = inr (d, st') /\
     let N := length boc_v2 - 1 in
     map fst d = map (fun i => "up2_v2_" +:+ pretty (N - 1 - i)) (seq 0 N)) /\
  (exists self, HMV3ControlNet.init 1280 3 4 320 boc_v2 = inr self /\ exists d st',
     HMV3ControlNet.forward (H:=sk_same_hw) 0 PyNone PyNone (PyTensor 3)
       (mkState self example_heap [] []) = inr (d, st') /\
     let N := length boc_v2 - 1 in
     map fst d = HMV3_keys N N /\ NoDup (map fst d) /\
     (forall k, k ∈ map fst d <->
        (exists u, u < N /\ k = "up3_" +:+ pretty u) \/
        (k = "down3_0" /\ 2 < N) \/ (k = "down3_1" /\ 1 < N) \/
        ((k = "down3_2" \/ k = "down3_3") /\ 0 < N)) /\
     (3 <= N -> length d = N + 4)).
Proof.
  destruct (forward_output_keys (H:=sk_same_hw)) as (P1 & P2 & P3 & P4 & P5).
  split_and!; run_forward.
  - refine (P1 1280 3 8 320 boc_v1 _ 0 _ 1 3 1 8 8 1 2 _ _ _ _ _ E); reflexivity.
  - refine (P2 1280 3 8 320 boc_v1 _ 0 _ 1 3 1 8 8 3 _ _ _ _ _ E); reflexivity.
  - refine (P3 1280 3 4 320 boc_v2 _ 0 _ 1 3 1 8 8 1 2 _ _ _ _ _ E); reflexivity.
  - refine (P4 1280 3 4 320 boc_v2 _ 0 _ 1 3 1 8 8 3 _ _ _ _ _ E); reflexivity.
  - refine (P5 1280 3 4 320 boc_v2 _ 0 _ 1 3 1 8 8 PyNone PyNone (PyTensor 3) _ _
             _ _ _ E); reflexivity.
Defined.

(** C3: with the default configuration, [HMV3ControlNet] returns more than
    [len(block_out_channels) - 1] keys. *)
Lemma forward_output_keys_counterexample :
  exists self, HMV3ControlNet.init 1280 3 4 320 boc_v2 = inr self /\ exists d st',
    HMV3ControlNet.forward (H:=sk_same_hw) 0 PyNone PyNone (PyTensor 3)
      (mkState self example_heap [] []) = inr (d, st') /\
    length d <> length boc_v2 - 1.
Proof. run_forward. vm_compute. lia. Qed.

Lemma forward_output_shapes_witness :
  (exists self, HMControlNet.init 1280 3 8 320 boc_v1 = inr self /\ exists d st',
     HMControlNet.forward (H:=sk_same_hw) 0 1 2 (mkState self example_heap [] []) = inr (d, st') /\
     forall k r, dict_lookup d k = Some r ->
       exists i c t' h w args, i < length boc_v1 - 1 /\ k = "down_" +:+ pretty i /\
         boc_v1 !! S i = Some c /\ st_heap st' !! r = Some t' /\ shape t' = [1; c; 1; h; w] /\
         val t' = VRearrange pat_unflatten_frames (VCall (sub_blocks_down i) args)) /\
  (exists self, HMControlNet2.init 1280 3 8 320 boc_v1 = inr self /\ exists d st',
     HMControlNet2.forward (H:=sk_same_hw) 0 3 (mkState self example_heap [] []) = inr (d, st') /\
     forall k r, dict_lookup d k = Some r ->
       exists i c t' h w args, i < length boc_v1 - 1 /\ k = "down2_" +:+ pretty i /\
         boc_v1 !! S i = Some c /\ st_heap st' !! r = Some t' /\ shape t' = [1; c; 1; h; w] /\
         val t' = VRearrange pat_unflatten_frames (VCall (sub_blocks_down i) args)) /\
  (exists self, HMV2ControlNet.init 1280 3 4 320 boc_v2 = inr self /\ exists d st',
     HMV2ControlNet.forward (H:=sk_same_hw) 0 1 2 (mkState self example_heap [] []) = inr (d, st') /\
     let N := length boc_v2 - 1 in
     forall k r, dict_lookup d k = Some r ->
       exists i c t' h w args, i < N /\ k = "up_v2_" +:+ pretty (N - 1 - i) /\
         boc_v2 !! S i = Some c /\ st_heap st' !! r = Some t' /\ shape t' = [1; c; 1; h; w] /\
         val t' = VRearrange pat_unflatten_frames (VCall (sub_blocks_down i) args)) /\
  (exists self, HMV2ControlNet2.init 1280 3 4 320 boc_v2 = inr self /\ exists d st',
     HMV2ControlNet2.forward (H:=sk_same_hw) 0 3 (mkState self example_heap [] []) = inr (d, st') /\
     let N := length boc_v2 - 1 in
     forall k r, dict_lookup d k = Some r ->
       exists i c t' h w args, i < N /\ k = "up2_v2_" +:+ pretty (N - 1 - i) /\
         boc_v2 !! S i = Some c /\ st_heap st' !! r = Some t' /\ shape t' = [1; c; 1; h; w] /\
         val t' = VRearrange pat_unflatten_frames (VCall (sub_blocks_down i) args)) /\
  (exists self, HMV3ControlNet.init 1280 3 4 320 boc_v2 = inr self /\ exists d st',
     HMV3ControlNet.forward (H:=sk_same_hw) 0 PyNone PyNone (PyTensor 3)
       (mkState self example_heap [] []) = inr (d, st') /\
     let N := length boc_v2 - 1 in
     forall k r, dict_lookup d k = Some r -> exists c t' h w,
       st_heap st' !! r = Some t' /\ shape t' = [1; c; 1; h; w] /\
       ((exists j, j < N /\ k = "up3_" +:+ pretty (N - j - 1) /\ boc_v2 !! S j = Some c) \/
        (k = "down3_0" /\ c = 320) \/ (k = "down3_1" /\ c = 640) \/
        ((k = "down3_2" \/ k = "down3_3") /\ boc_v2 !! N = Some c))).
Proof.
  destruct (forward_output_shapes (H:=sk_same_hw)) as (P1 & P2 & P3 & P4 & P5).
  split_and!; run_forward.
  - refine (P1 1280 3 8 320 boc_v1 _ 0 _ 1 3 1 8 8 1 2 _ _ _ _ _ E); reflexivity.
  - refine (P2 1280 3 8 320 boc_v1 _ 0 _ 1 3 1 8 8 3 _ _ _ _ _ E); reflexivity.
  - refine (P3 1280 3 4 320 boc_v2 _ 0 _ 1 3 1 8 8 1 2 _ _ _ _ _ E); reflexivity.
  - refine (P4 1280 3 4 320 boc_v2 _ 0 _ 1 3 1 8 8 3 _ _ _ _ _ E); reflexivity.
  - refine (P5 1280 3 4 320 boc_v2 _ 0 _ 1 3 1 8 8 PyNone PyNone (PyTensor 3) _ _
             _ _ _ E); reflexivity.
Defined.

Lemma HMV2_descending_keys_witness :
  (exists self, HMV2ControlNet.init 1280 3 4 320 boc_v2 = inr self /\ exists d st',
     HMV2ControlNet.forward (H:=sk_same_hw) 0 1 2 (mkState self example_heap [] []) = inr (d, st') /\
     let N := length boc_v2 - 1 in
     map fst d = map (fun i => "up_v2_" +:+ pretty (N - 1 - i)) (seq 0 N) /\
     forall i, i < N -> exists r t args,
       dict_lookup d ("up_v2_" +:+ pretty (N - 1 - i)) = Some r /\ st_heap st' !! r = Some t /\
       val t = VRearrange pat_unflatten_frames (VCall (sub_blocks_down i) args)) /\
  (exists self, HMV2ControlNet2.init 1280 3 4 320 boc_v2 = inr self /\ exists d st',
     HMV2ControlNet2.forward (H:=sk_same_hw) 0 3 (mkState self example_heap [] []) = inr (d, st') /\
     let N := length boc_v2 - 1 in
     map fst d = map (fun i => "up2_v2_" +:+ pretty (N - 1 - i)) (seq 0 N) /\
     forall i, i < N -> exists r t args,
       dict_lookup d ("up2_v2_" +:+ pretty (N - 1 - i)) = Some r /\ st_heap st' !! r = Some t /\
       val t = VRearrange pat_unflatten_frames (VCall (sub_blocks_down i) args)).
Proof.
  destruct (HMV2_descending_keys (H:=sk_same_hw)) as (P1 & P2).
  split; run_forward.
  - refine (P1 1280 3 4 320 boc_v2 _ 0 _ 1 3 1 8 8 1 2 _ _ _ _ _ E); reflexivity.
  - refine (P2 1280 3 4 320 boc_v2 _ 0 _ 1 3 1 8 8 3 _ _ _ _ _ E); reflexivity.
Defined.

Lemma HMControlNet2_init_vs_HMControlNet_witness :
  (exists self, HMControlNet2.init 1280 3 8 320 boc_v1 = inr self /\
     encoding_report (HMControlNet2.forward (H:=sk_same_hw) 0 3 (mkState self example_heap [] []))
       (mkState self example_heap [] []) sub_exp_embedding
       (fun ev => encoder_input_scaled example_heap (PyTensor 3) 20 sub_exp_embedding ev /\
                  ev_module ev <> sub_face_proj)) /\
  (exists self, HMControlNet.init 1280 3 8 320 boc_v1 = inr self /\
     encoding_report (HMControlNet.forward (H:=sk_same_hw) 0 1 2 (mkState self example_heap [] []))
       (mkState self example_heap [] []) sub_face_proj
       (encoder_input_scaled example_heap (PyTensor 1) 500 sub_exp_embedding)).
Proof.
  destruct (HMControlNet2_init_vs_HMControlNet (H:=sk_same_hw)) as (_ & P2 & P3).
  split; (eexists; split; [reflexivity|]).
  - apply (P2 0 3 (mkState _ example_heap [] [])). cbn. by eexists.
  - apply (P3 0 1 2 (mkState _ example_heap [] [])). cbn. by eexists.
Defined.

Lemma forward_scales_before_encoding_witness :
  (exists self, HMControlNet.init 1280 3 8 320 boc_v1 = inr self /\
     encoding_report (HMControlNet.forward (H:=sk_same_hw) 0 1 2 (mkState self example_heap [] []))
       (mkState self example_heap [] []) sub_exp_embedding
       (encoder_input_scaled example_heap (PyTensor 1) 500 sub_exp_embedding)) /\
  (exists self, HMControlNet2.init 1280 3 8 320 boc_v1 = inr self /\
     encoding_report (HMControlNet2.forward (H:=sk_same_hw) 0 3 (mkState self example_heap [] []))
       (mkState self example_heap [] []) sub_exp_embedding
       (encoder_input_scaled example_heap (PyTensor 3) 20 sub_exp_embedding)) /\
  (exists self, HMV2ControlNet.init 1280 3 4 320 boc_v2 = inr self /\
     encoding_report (HMV2ControlNet.forward (H:=sk_same_hw) 0 1 2 (mkState self example_heap [] []))
       (mkState self example_heap [] []) sub_exp_embedding
       (encoder_input_scaled example_heap (PyTensor 1) 500 sub_exp_embedding)) /\
  (exists self, HMV3ControlNet.init 1280 3 4 320 boc_v2 = inr self /\
     encoding_report (HMV3ControlNet.forward (H:=sk_same_hw) 0 (PyTensor 1) (PyTensor 2) PyNone
                        (mkState self example_heap [] []))
       (mkState self example_heap [] []) sub_exp_embedding
       (fun ev => encoder_input_scaled example_heap (PyTensor 1) 500 sub_exp_embedding ev /\
                  encoder_input_scaled example_heap PyNone 20 sub_emo_embedding ev)) /\
  (exists self, HMV3ControlNet.init 1280 3 4 320 boc_v2 = inr self /\
     encoding_report (HMV3ControlNet.forward (H:=sk_same_hw) 0 PyNone PyNone (PyTensor 3)
                        (mkState self example_heap [] []))
       (mkState self example_heap [] []) sub_emo_embedding
       (fun ev => encoder_input_scaled example_heap PyNone 500 sub_exp_embedding ev /\
                  encoder_input_scaled example_heap (PyTensor 3) 20 sub_emo_embedding ev)) /\
  (exists self, HMV2ControlNet2.init 1280 3 4 320 boc_v2 = inr self /\
     encoding_report (HMV2ControlNet2.forward (H:=sk_same_hw) 0 3 (mkState self example_heap [] []))
       (mkState self example_heap [] []) sub_exp_embedding
       (encoder_input_scaled example_heap (PyTensor 3) 20 sub_exp_embedding)).
Proof.
  destruct (forward_scales_before_encoding (H:=sk_same_hw)) as (P1 & P2 & P3 & P4 & P5).
  split_and!; (eexists; split; [reflexivity|]).
  - apply (P1 0 1 2 (mkState _ example_heap [] [])). cbn. by eexists.
  - apply (P2 0 3 (mkState _ example_heap [] [])). cbn. by eexists.
  - apply (P3 0 1 2 (mkState _ example_heap [] [])). cbn. by eexists.
  - apply (P4 0 (PyTensor 1) (PyTensor 2) PyNone (mkState _ example_heap [] [])); cbn;
      [by eexists | done].
  - apply (P4 0 PyNone PyNone (PyTensor 3) (mkState _ example_heap [] [])); cbn;
      [done | by eexists].
  - apply (P5 0 3 (mkState _ example_heap [] [])). cbn. by eexists.
Defined.

Lemma HMV3_missing_dual_input_raises_witness :
  exists self, HMV3ControlNet.init 1280 3 4 320 boc_v2 = inr self /\
  exists st', HMV3ControlNet.forward (H:=sk_same_hw) 0 (PyTensor 1) PyNone PyNone
                (mkState self example_heap [] []) = inl (none_mul_error, st') /\
              st_raised st' = [none_mul_error] /\
              exists args, st_trace st' = [mkEvent sub_conv_in args].
Proof.
  eexists. split; [reflexivity|].
  eapply (HMV3_missing_dual_input_raises (H:=sk_same_hw) 1280 3 4 320 boc_v2 _ 0 (PyTensor 1) PyNone
           (mkState _ example_heap [] []) _ 1 1 8 8);
    [reflexivity | reflexivity | reflexivity | reflexivity | lia | cbn; lia | cbn; lia
    | cbn; lia | reflexivity].
Defined.

(* ------------------------------------------------------------------ *)
(** ** Symbolic runs of the forward passes *)

Section Run.
Context {Self : Type}.
Implicit Types (st : state Self).

Ltac run_prim :=
  intros E;
  repeat (unfold bind, deref, alloc, log_call, ret, raise, get_self in E);
  repeat (case_match; simplify_eq/=); destruct_and?; subst;
  repeat match goal with H : decide _ = _ |- _ => clear H end;
  repeat match goal with H : ¬ (?a ≠ ?b) |- _ => assert (a = b) by lia; clear H end; subst;
  repeat eexists; split_and?; (eassumption || reflexivity || tauto || lia || idtac).

Lemma mul_run x c st r st' :
  mul (Self:=Self) x c st = inr (r, st') ->
  exists rx t, x = PyTensor rx /\ st_heap st !! rx = Some t /\ r = length (st_heap st) /\
    st' = mkState (st_self st) (st_heap st ++ [mkTensor (shape t) (VMul (val t) c)])
                  (st_trace st) (st_raised st).
Proof. unfold mul. run_prim. Qed.

Lemma rearrange_flatten_frames_run x st r st' :
  rearrange_flatten_frames (Self:=Self) x st = inr (r, st') ->
  exists t b c f h w, st_heap st !! x = Some t /\ shape t = [b; c; f; h; w] /\
    r = length (st_heap st) /\
    st' = mkState (st_self st)
            (st_heap st ++ [mkTensor [b * f; c; h; w] (VRearrange pat_flatten_frames (val t))])
            (st_trace st) (st_raised st).
Proof. unfold rearrange_flatten_frames. run_prim. Qed.

Lemma rearrange_unflatten_frames_run f x st r st' :
  rearrange_unflatten_frames (Self:=Self) f x st = inr (r, st') ->
  exists t n c h w, st_heap st !! x = Some t /\ shape t = [n; c; h; w] /\
    f <> 0 /\ n `mod` f = 0 /\ r = length (st_heap st) /\
    st' = mkState (st_self st)
            (st_heap st ++ [mkTensor [n / f; c; f; h; w] (VRearrange pat_unflatten_frames (val t))])
            (st_trace st) (st_raised st).
Proof. unfold rearrange_unflatten_frames. run_prim. Qed.

Lemma rearrange_flatten_coeffs_run x st r st' :
  rearrange_flatten_coeffs (Self:=Self) x st = inr (r, st') ->
  exists t b f c, st_heap st !! x = Some t /\ shape t = [b; f; c] /\ r = length (st_heap st) /\
    st' = mkState (st_self st)
            (st_heap st ++ [mkTensor [b * f * c] (VRearrange pat_flatten_coeffs (val t))])
            (st_trace st) (st_raised st).
Proof. unfold rearrange_flatten_coeffs. run_prim. Qed.

Lemma rearrange_split_coeffs_run b f d x st r st' :
  rearrange_split_coeffs (Self:=Self) b f d x st = inr (r, st') ->
  exists t n, st_heap st !! x = Some t /\ shape t = [n; d] /\ r = length (st_heap st) /\
    st' = mkState (st_self st)
            (st_heap st ++ [mkTensor [b; f; n / (b * f); d] (VRearrange pat_split_coeffs (val t))])
            (st_trace st) (st_raised st).
Proof. unfold rearrange_split_coeffs. run_prim. Qed.

Lemma rearrange_merge_bf_run x st r st' :
  rearrange_merge_bf (Self:=Self) x st = inr (r, st') ->
  exists t b f c d, st_heap st !! x = Some t /\ shape t = [b; f; c; d] /\
    r = length (st_heap st) /\
    st' = mkState (st_self st)
            (st_heap st ++ [mkTensor [b * f; c; d] (VRearrange pat_merge_bf (val t))])
            (st_trace st) (st_raised st).
Proof. unfold rearrange_merge_bf. run_prim. Qed.

Lemma rearrange_split_bf_run f x st r st' :
  rearrange_split_bf (Self:=Self) f x st = inr (r, st') ->
  exists t n c d, st_heap st !! x = Some t /\ shape t = [n; c; d] /\
    r = length (st_heap st) /\
    st' = mkState (st_self st)
            (st_heap st ++ [mkTensor [n / f; f; c; d] (VRearrange pat_split_bf (val t))])
            (st_trace st) (st_raised st).
Proof. unfold rearrange_split_bf. run_prim. Qed.

Lemma interpolate_run x oh ow st r st' :
  interpolate (Self:=Self) x oh ow st = inr (r, st') ->
  exists t n c h w, st_heap st !! x = Some t /\ shape t = [n; c; h; w] /\
    oh <> 0 /\ ow <> 0 /\ c * h * w <> 0 /\ r = length (st_heap st) /\
    st' = mkState (st_self st)
            (st_heap st ++ [mkTensor [n; c; oh; ow] (VInterpolate (val t) oh ow)])
            (st_trace st) (st_raised st).
Proof. unfold interpolate. run_prim. Qed.

Lemma cat_dim2_run x y st r st' :
  cat_dim2 (Self:=Self) x y st = inr (r, st') ->
  exists tx ty a0 a1 a2 a3 b2, st_heap st !! x = Some tx /\ st_heap st !! y = Some ty /\
    shape tx = [a0; a1; a2; a3] /\ shape ty = [a0; a1; b2; a3] /\ r = length (st_heap st) /\
    st' = mkState (st_self st)
            (st_heap st ++ [mkTensor [a0; a1; a2 + b2; a3] (VCat [val tx; val ty] 2)])
            (st_trace st) (st_raised st).
Proof. unfold cat_dim2. run_prim. Qed.

Lemma conv2d_call_run m cfg x st r st' :
  conv2d_call (Self:=Self) m cfg x st = inr (r, st') ->
  exists t n c h w, st_heap st !! x = Some t /\ shape t = [n; c; h; w] /\
    c = conv_in_channels cfg /\
    conv_kernel_size cfg <= h + 2 * conv_padding cfg /\
    conv_kernel_size cfg <= w + 2 * conv_padding cfg /\ r = length (st_heap st) /\
    st' = mkState (st_self st)
            (st_heap st ++ [mkTensor [n; conv_out_channels cfg;
                                     h + 2 * conv_padding cfg - conv_kernel_size cfg + 1;
                                     w + 2 * conv_padding cfg - conv_kernel_size cfg + 1]
                                    (VCall m [val t])])
            (st_trace st ++ [mkEvent m [val t]]) (st_raised st).
Proof.
  unfold conv2d_call. run_prim.
Qed.

Lemma timesteps_call_run m cfg x st r st' :
  timesteps_call (Self:=Self) m cfg x st = inr (r, st') ->
  exists t n, st_heap st !! x = Some t /\ shape t = [n] /\ r = length (st_heap st) /\
    st' = mkState (st_self st)
            (st_heap st ++ [mkTensor [n; ts_num_channels cfg] (VCall m [val t])])
            (st_trace st ++ [mkEvent m [val t]]) (st_raised st).
Proof. unfold timesteps_call. run_prim. Qed.

Lemma timestep_embedding_call_run m cfg x st r st' :
  timestep_embedding_call (Self:=Self) m cfg x st = inr (r, st') ->
  exists t, st_heap st !! x = Some t /\ last (shape t) = Some (te_in_channels cfg) /\
    r = length (st_heap st) /\
    st' = mkState (st_self st)
            (st_heap st ++ [mkTensor (removelast (shape t) ++ [te_time_embed_dim cfg])
                                     (VCall m [val t])])
            (st_trace st ++ [mkEvent m [val t]]) (st_raised st).
Proof. unfold timestep_embedding_call. run_prim. Qed.

Lemma sk_call_run `{SKSpatial} m cfg x e st r st' :
  sk_call (Self:=Self) m cfg x e st = inr (r, st') ->
  exists tx te n c h w, st_heap st !! x = Some tx /\ st_heap st !! e = Some te /\
    shape tx = [n; c; h; w] /\ c = sk_channel_in cfg /\ r = length (st_heap st) /\
    st' = mkState (st_self st)
            (st_heap st ++
              [mkTensor [n; sk_channel_out cfg; fst (sk_out_hw cfg h w); snd (sk_out_hw cfg h w)]
                        (VCall m [val tx; val te])])
            (st_trace st ++ [mkEvent m [val tx; val te]]) (st_raised st).
Proof. unfold sk_call. run_prim. Qed.

Lemma unpack5_run x st b c f h w st' :
  unpack5 (Self:=Self) x st = inr ((b, c, f, h, w), st') ->
  exists t, st_heap st !! x = Some t /\ shape t = [b; c; f; h; w] /\ st' = st.
Proof. unfold unpack5. run_prim. Qed.

Lemma floordiv_run a b st q st' :
  floordiv (Self:=Self) a b st = inr (q, st') -> b <> 0 /\ q = a / b /\ st' = st.
Proof. unfold floordiv. run_prim. Qed.

Lemma to_dtype_run x st r st' : to_dtype (Self:=Self) x st = inr (r, st') -> r = x /\ st' = st.
Proof. unfold to_dtype, ret. by intros [= -> ->]. Qed.

End Run.

Lemma lookup_app_length {A} (l k : list A) : (l ++ k) !! length l = k !! 0.
Proof. rewrite lookup_app_r by lia. by rewrite Nat.sub_diag. Qed.

Lemma lookup_app_add {A} (l k : list A) j : (l ++ k) !! (length l + j) = k !! j.
Proof. rewrite lookup_app_r by lia. f_equal. lia. Qed.

Ltac destruct_ex_and :=
  repeat match goal with
  | H : ex _ |- _ => destruct H
  | H : _ /\ _ |- _ => destruct H
  end.

Ltac run_one :=
  match goal with
  | E : mul _ _ _ = inr _ |- _ => apply mul_run in E
  | E : unpack5 _ _ = inr ((_, _, _, _, _), _) |- _ => apply unpack5_run in E
  | E : floordiv _ _ _ = inr _ |- _ => apply floordiv_run in E
  | E : to_dtype _ _ = inr _ |- _ => apply to_dtype_run in E
  | E : rearrange_flatten_frames _ _ = inr _ |- _ => apply rearrange_flatten_frames_run in E
  | E : rearrange_flatten_coeffs _ _ = inr _ |- _ => apply rearrange_flatten_coeffs_run in E
  | E : rearrange_split_coeffs _ _ _ _ _ = inr _ |- _ => apply rearrange_split_coeffs_run in E
  | E : rearrange_merge_bf _ _ = inr _ |- _ => apply rearrange_merge_bf_run in E
  | E : rearrange_split_bf _ _ _ = inr _ |- _ => apply rearrange_split_bf_run in E
  | E : interpolate _ _ _ _ = inr _ |- _ => apply interpolate_run in E
  | E : cat_dim2 _ _ _ = inr _ |- _ => apply cat_dim2_run in E
  | E : conv2d_call _ _ _ _ = inr _ |- _ => apply conv2d_call_run in E
  | E : timesteps_call _ _ _ _ = inr _ |- _ => apply timesteps_call_run in E
  | E : timestep_embedding_call _ _ _ _ = inr _ |- _ => apply timestep_embedding_call_run in E
  end; destruct_ex_and; subst; cbn [st_heap st_self st_trace st_raised] in *.

Ltac heap_simpl :=
  cbn [st_heap st_self st_trace st_raised shape val] in *;
  rewrite <- ?app_assoc in *; cbn [app] in *;
  rewrite ?length_app in *; cbn [length] in *;
  repeat (simplify_eq; cbn [shape val] in *;
    match goal with
    | H : (?l ++ _) !! length ?l = Some _ |- _ => rewrite lookup_app_length in H; simpl in H
    | H : (?l ++ _) !! (length ?l + _) = Some _ |- _ => rewrite lookup_app_add in H; simpl in H
    | H : (?l ++ _) !! ?i = Some _, Ht : ?l !! ?i = Some _ |- _ =>
        rewrite (lookup_app_l_Some _ _ _ _ Ht) in H
    | H1 : shape ?t = ?a, H2 : shape ?t = ?b |- _ =>
        lazymatch a with b => fail | _ => rewrite H1 in H2 end
    end);
  simplify_eq; cbn [shape val] in *.

Lemma heap_grows_app {Self} (s0 s : state Self) l tr rs :
  heap_grows s0 s -> heap_grows s0 (mkState (st_self s) (st_heap s ++ l) tr rs).
Proof.
  intros [Gs Gp]. split; [exact Gs|]. cbn. etrans; [exact Gp|]. by eexists.
Qed.

Section SimpleChain.
Context `{SKSpatial} {Self : Type} (key : nat -> string) (de vl : ref) (v0 dv : value)
  (N : nat) (s0 : state Self).
Hypothesis Hde : exists tde, st_heap s0 !! de = Some tde /\ val tde = dv.
Hypothesis Hkey : forall j j', j < N -> j' < N -> key j = key j' -> j = j'.

Lemma simple_chain_body k blk e d s e' d' s' :
  k < N -> simple_chain_inv key v0 dv s0 k (e, d) s ->
  simple_body key de vl k blk (e, d) s = inr ((e', d'), s') ->
  simple_chain_inv key v0 dv s0 (S k) (e', d') s'.
Proof.
  destruct Hde as (tde & Hde' & <-).
  intros Hk (G0 & Htr & (te & Hte & Hv) & Hd) E. cbn [fst snd] in *.
  unfold simple_body in E. peel_inr.
  lazymatch goal with Es : sk_call _ _ _ _ _ = inr _ |- _ =>
    apply sk_call_run in Es as (tx & te' & n & c & h & w & Hx & He & Hsx & Hc & -> & ->) end.
  lazymatch goal with Eu : rearrange_unflatten_frames _ _ _ = inr _ |- _ =>
    apply rearrange_unflatten_frames_run in Eu
      as (t1 & n1 & c1 & h1 & w1 & Ht1 & Hs1 & Hf & Hmod & -> & ->) end.
  cbn [st_heap st_self st_trace st_raised] in *.
  rewrite Hte in Hx. injection Hx as <-.
  rewrite (heap_lookup_grows _ _ _ _ G0 Hde') in He. injection He as <-.
  rewrite lookup_snoc_length in Ht1. injection Ht1 as <-.
  match goal with Hp : pair _ _ = pair _ _ |- _ => injection Hp as -> -> end.
  pose proof (prefix_length _ _ (proj2 G0)) as Hlen.
  split_and!.
  - rewrite <- app_assoc. by apply heap_grows_app.
  - cbn [st_trace]. rewrite Htr. unfold chain_trace. rewrite seq_S, map_app, <- app_assoc.
    cbn. by rewrite Hv.
  - cbn [fst]. eexists. split.
    + apply (lookup_app_l_Some _ _ _ _ (lookup_snoc_length _ _)).
    + cbn. by rewrite Hv.
  - intros j Hj. cbn [snd]. destruct (decide (j = k)) as [->|Hjk].
    + rewrite dict_lookup_set_eq. eexists _, _. split; [reflexivity|]. split_and!.
      * rewrite length_app. lia.
      * apply lookup_snoc_length.
      * cbn. by rewrite Hv.
    + rewrite dict_lookup_set_ne by (intros Heq; apply Hjk; apply Hkey; [lia|lia|done]).
      destruct (Hd j ltac:(lia)) as (r & tr & Hr & Hr0 & Htr' & Hvr).
      exists r, tr. split_and!; [done|done| |done].
      by do 2 apply lookup_app_l_Some.
Qed.

End SimpleChain.

Ltac simple_chain_final :=
  let Htr := fresh "Htr" in let Hd := fresh "Hd" in
  lazymatch goal with Hinv : simple_chain_inv _ _ _ _ _ _ _ |- _ =>
    destruct Hinv as (_ & Htr & _ & Hd) end;
  cbn [st_heap st_trace] in *; rewrite ?length_app in *; cbn [length] in *;
  split;
  [ rewrite Htr; rewrite <- ?app_assoc; reflexivity
  | let i := fresh "i" in let Hi := fresh "Hi" in
    let r := fresh "r" in let tr := fresh "tr" in
    let H1 := fresh in let H2 := fresh in let H3 := fresh in let H4 := fresh in
    intros i Hi; destruct (Hd i Hi) as (r & tr & H1 & H2 & H3 & H4);
    exists r, tr; split_and!; [exact H1 | lia | exact H3 | exact H4] ].

Ltac simple_chain_start :=
  split_and!; [apply heap_grows_refl | by rewrite app_nil_r | | intros ? ?; lia];
  cbn [fst st_heap]; eexists; split; [rewrite lookup_app_add; reflexivity | reflexivity].

Ltac simple_chain_step :=
  let k := fresh "k" in let b := fresh "b" in let Hk := fresh "Hk" in
  let Hi := fresh "Hi" in let Eb := fresh "Eb" in
  let e0 := fresh "e" in let d0 := fresh "d" in let e1 := fresh "e" in let d1 := fresh "d" in
  let s1 := fresh "s" in let s2 := fresh "s" in
  intros k b [e0 d0] s1 [e1 d1] s2 Hk Hi Eb;
  lazymatch type of Hk with ?l !! _ = _ => eapply (simple_chain_body _ _ _ _ _ (length l)) end; [| |apply lookup_lt_Some in Hk; exact Hk|exact Hi|exact Eb];
  [ cbn [st_heap]; eexists; split; [rewrite lookup_app_add; reflexivity | reflexivity]
  | let j := fresh "j" in let j' := fresh "j" in let Hj := fresh in let Hj' := fresh in
    let Hjj := fresh in
    intros j j' Hj Hj' Hjj; apply (inj (String.app _)), (inj pretty) in Hjj; lia ].

Ltac simple_chain_run key :=
  lazymatch goal with
  | El : for_enumerate _ _ _ ?sL = inr (?acc, _) |- context [chain_trace ?v0 ?dv _] =>
    let e' := fresh "e" in let d' := fresh "d" in
    destruct acc as [e' d'];
    apply (for_enumerate_inv (simple_chain_inv key v0 dv sL)) in El
  end;
  [ simple_chain_final | simple_chain_start | simple_chain_step ].

Section SimpleRun.
Context `{SKSpatial}.

Lemma HMControlNet_forward_run condition dc fp st d st' t tdc tfp B C F Hh W :
  st_heap st !! condition = Some t -> shape t = [B; C; F; Hh; W] ->
  st_heap st !! dc = Some tdc -> st_heap st !! fp = Some tfp ->
  HMControlNet.forward condition dc fp st = inr (d, st') ->
  let self := st_self st in
  let oh := Hh / HMControlNet.scale_factor self in
  let ow := W / HMControlNet.scale_factor self in
  let v0 := conv_in_value (val t) oh ow in
  let dv := dual_drive_value (val tdc) (val tfp) in
  let N := length (HMControlNet.blocks_down self) in
  st_trace st' = st_trace st ++ conv_in_event (val t) oh ow ::
                   dual_drive_trace (val tdc) (val tfp) ++ chain_trace v0 dv N /\
  forall i, i < N -> exists r tr, dict_lookup d ("down_" +:+ pretty i) = Some r /\
    length (st_heap st) <= r /\ st_heap st' !! r = Some tr /\
    val tr = VRearrange pat_unflatten_frames (fusion_chain v0 dv (S i)).
Proof.
  intros Ht Hs Hdc Hfp E. destruct st as [s0 h0 tr0 rs0]. unfold HMControlNet.forward in E.
  peel_inr. cbn [st_heap st_self st_trace st_raised] in *.
  repeat run_one. heap_simpl. cbv zeta.
  simple_chain_run (fun i : nat => "down_" +:+ pretty i).
Qed.

Lemma HMControlNet2_forward_run condition emo st d st' t temo B C F Hh W :
  st_heap st !! condition = Some t -> shape t = [B; C; F; Hh; W] ->
  st_heap st !! emo = Some temo ->
  HMControlNet2.forward condition emo st = inr (d, st') ->
  let self := st_self st in
  let oh := Hh / HMControlNet2.scale_factor self in
  let ow := W / HMControlNet2.scale_factor self in
  let v0 := conv_in_value (val t) oh ow in
  let dv := emo_drive_value sub_exp_embedding sub_emo_proj (val temo) in
  let N := length (HMControlNet2.blocks_down self) in
  st_trace st' = st_trace st ++ conv_in_event (val t) oh ow ::
                   emo_drive_trace sub_exp_embedding sub_emo_proj (val temo) ++
                   chain_trace v0 dv N /\
  forall i, i < N -> exists r tr, dict_lookup d ("down2_" +:+ pretty i) = Some r /\
    length (st_heap st) <= r /\ st_heap st' !! r = Some tr /\
    val tr = VRearrange pat_unflatten_frames (fusion_chain v0 dv (S i)).
Proof.
  intros Ht Hs He E. destruct st as [s0 h0 tr0 rs0]. unfold HMControlNet2.forward in E.
  peel_inr. cbn [st_heap st_self st_trace st_raised] in *.
  repeat run_one. heap_simpl. cbv zeta.
  simple_chain_run (fun i : nat => "down2_" +:+ pretty i).
Qed.

Lemma HMV2ControlNet_forward_run condition dc fp st d st' t tdc tfp B C F Hh W :
  st_heap st !! condition = Some t -> shape t = [B; C; F; Hh; W] ->
  st_heap st !! dc = Some tdc -> st_heap st !! fp = Some tfp ->
  HMV2ControlNet.forward condition dc fp st = inr (d, st') ->
  let self := st_self st in
  let oh := Hh / HMV2ControlNet.scale_factor self in
  let ow := W / HMV2ControlNet.scale_factor self in
  let v0 := conv_in_value (val t) oh ow in
  let dv := dual_drive_value (val tdc) (val tfp) in
  let N := length (HMV2ControlNet.blocks_down self) in
  st_trace st' = st_trace st ++ conv_in_event (val t) oh ow ::
                   dual_drive_trace (val tdc) (val tfp) ++ chain_trace v0 dv N /\
  forall i, i < N -> exists r tr, dict_lookup d ("up_v2_" +:+ pretty (N - i - 1)) = Some r /\
    length (st_heap st) <= r /\ st_heap st' !! r = Some tr /\
    val tr = VRearrange pat_unflatten_frames (fusion_chain v0 dv (S i)).
Proof.
  intros Ht Hs Hdc Hfp E. destruct st as [s0 h0 tr0 rs0]. unfold HMV2ControlNet.forward in E.
  peel_inr. cbn [st_heap st_self st_trace st_raised] in *.
  repeat run_one. heap_simpl. cbv zeta.
  simple_chain_run (fun i : nat =>
    "up_v2_" +:+ pretty (length (HMV2ControlNet.blocks_down s0) - i - 1)).
Qed.

Lemma HMV2ControlNet2_forward_run condition emo st d st' t temo B C F Hh W :
  st_heap st !! condition = Some t -> shape t = [B; C; F; Hh; W] ->
  st_heap st !! emo = Some temo ->
  HMV2ControlNet2.forward condition emo st = inr (d, st') ->
  let self := st_self st in
  let oh := Hh / HMV2ControlNet2.scale_factor self in
  let ow := W / HMV2ControlNet2.scale_factor self in
  let v0 := conv_in_value (val t) oh ow in
  let dv := emo_drive_value sub_exp_embedding sub_emo_proj (val temo) in
  let N := length (HMV2ControlNet2.blocks_down self) in
  st_trace st' = st_trace st ++ conv_in_event (val t) oh ow ::
                   emo_drive_trace sub_exp_embedding sub_emo_proj (val temo) ++
                   chain_trace v0 dv N /\
  forall i, i < N -> exists r tr, dict_lookup d ("up2_v2_" +:+ pretty (N - i - 1)) = Some r /\
    length (st_heap st) <= r /\ st_heap st' !! r = Some tr /\
    val tr = VRearrange pat_unflatten_frames (fusion_chain v0 dv (S i)).
Proof.
  intros Ht Hs He E. destruct st as [s0 h0 tr0 rs0]. unfold HMV2ControlNet2.forward in E.
  peel_inr. cbn [st_heap st_self st_trace st_raised] in *.
  repeat run_one. heap_simpl. cbv zeta.
  simple_chain_run (fun i : nat =>
    "up2_v2_" +:+ pretty (length (HMV2ControlNet2.blocks_down s0) - i - 1)).
Qed.

End SimpleRun.

Lemma dict_lookup_elem_of_keys d k r : dict_lookup d k = Some r -> k ∈ map fst d.
Proof.
  induction d as [|[k' v'] d IH]; cbn; [done|].
  case_decide; [subst; left | intros Hl; right; by apply IH].
Qed.

Section ChainOutputs.
Context (key : nat -> string) (N : nat) (d : dict) (h0 h : list tensor) (v0 dv : value).
Hypothesis Hkeys : map fst d = map key (seq 0 N).
Hypothesis Hout : forall i, i < N -> exists r tr, dict_lookup d (key i) = Some r /\
  length h0 <= r /\ h !! r = Some tr /\
  val tr = VRearrange pat_unflatten_frames (fusion_chain v0 dv (S i)).

Lemma chain_output_index k r :
  dict_lookup d k = Some r -> exists i tr, i < N /\ k = key i /\ length h0 <= r /\
    h !! r = Some tr /\ val tr = VRearrange pat_unflatten_frames (fusion_chain v0 dv (S i)).
Proof.
  intros Hl. pose proof (dict_lookup_elem_of_keys _ _ _ Hl) as Hk. rewrite Hkeys in Hk.
  apply list_elem_of_fmap in Hk as (i & -> & Hi). apply elem_of_seq in Hi.
  destruct (Hout i ltac:(lia)) as (r' & tr & Hr' & Hle & Htr & Hv).
  rewrite Hl in Hr'. injection Hr' as <-. exists i, tr. split_and!; done || lia.
Qed.

Lemma chain_outputs_fresh_distinct :
  (forall k r, dict_lookup d k = Some r -> length h0 <= r) /\
  (forall k k' r, dict_lookup d k = Some r -> dict_lookup d k' = Some r -> k = k').
Proof.
  split.
  - intros k r Hl. by destruct (chain_output_index k r Hl) as (? & ? & ? & ? & ? & ?).
  - intros k k' r Hl Hl'.
    destruct (chain_output_index k r Hl) as (i & tr & _ & -> & _ & Htr & Hv).
    destruct (chain_output_index k' r Hl') as (j & tr' & _ & -> & _ & Htr' & Hv').
    rewrite Htr in Htr'. injection Htr' as <-. rewrite Hv in Hv'.
    by injection Hv' as -> _.
Qed.

End ChainOutputs.

Lemma map_fst_zip_seq (key : nat -> string) N (outs : list ref) :
  length outs = N -> map fst (zip (map key (seq 0 N)) outs) = map key (seq 0 N).
Proof. intros Hl. apply map_fst_zip. by rewrite length_map, length_seq. Qed.

(** X1: after a successful forward of [HMControlNet], [HMControlNet2], [HMV2ControlNet] or
    [HMV2ControlNet2], the output of stage [i] (key [down_i], [down2_i], [up_v2_(N-1-i)] or
    [up2_v2_(N-1-i)]) is the [(b f) c h w -> b c f h w] rearrangement of the first [i + 1]
    fusion blocks applied in turn to [conv_in] of the resized condition, each block also
    reading the driving embedding: [exp_proj(cat(face_proj(face_parts),
    exp_embedding(500 * drive_coeff)))] or [emo_proj(exp_embedding(20 * emo_embedding))]. *)
Theorem forward_fusion_values `{SKSpatial} :
  (forall condition dc fp (st : state HMControlNet.t) d st' t tdc tfp B C F Hh W,
     st_heap st !! condition = Some t -> shape t = [B; C; F; Hh; W] ->
     st_heap st !! dc = Some tdc -> st_heap st !! fp = Some tfp ->
     HMControlNet.forward condition dc fp st = inr (d, st') ->
     let sf := HMControlNet.scale_factor (st_self st) in
     forall i, i < length (HMControlNet.blocks_down (st_self st)) ->
     exists r tr, dict_lookup d ("down_" +:+ pretty i) = Some r /\ st_heap st' !! r = Some tr /\
       val tr = VRearrange pat_unflatten_frames
         (fusion_chain (conv_in_value (val t) (Hh / sf) (W / sf))
                       (dual_drive_value (val tdc) (val tfp)) (S i))) /\
  (forall condition emo (st : state HMControlNet2.t) d st' t temo B C F Hh W,
     st_heap st !! condition = Some t -> shape t = [B; C; F; Hh; W] ->
     st_heap st !! emo = Some temo ->
     HMControlNet2.forward condition emo st = inr (d, st') ->
     let sf := HMControlNet2.scale_factor (st_self st) in
     forall i, i < length (HMControlNet2.blocks_down (st_self st)) ->
     exists r tr, dict_lookup d ("down2_" +:+ pretty i) = Some r /\ st_heap st' !! r = Some tr /\
       val tr = VRearrange pat_unflatten_frames
         (fusion_chain (conv_in_value (val t) (Hh / sf) (W / sf))
                       (emo_drive_value sub_exp_embedding sub_emo_proj (val temo)) (S i))) /\
  (forall condition dc fp (st : state HMV2ControlNet.t) d st' t tdc tfp B C F Hh W,
     st_heap st !! condition = Some t -> shape t = [B; C; F; Hh; W] ->
     st_heap st !! dc = Some tdc -> st_heap st !! fp = Some tfp ->
     HMV2ControlNet.forward condition dc fp st = inr (d, st') ->
     let sf := HMV2ControlNet.scale_factor (st_self st) in
     let N := length (HMV2ControlNet.blocks_down (st_self st)) in
     forall i, i < N ->
     exists r tr, dict_lookup d ("up_v2_" +:+ pretty (N - i - 1)) = Some r /\
       st_heap st' !! r = Some tr /\
       val tr = VRearrange pat_unflatten_frames
         (fusion_chain (conv_in_value (val t) (Hh / sf) (W / sf))
                       (dual_drive_value (val tdc) (val tfp)) (S i))) /\
  (forall condition emo (st : state HMV2ControlNet2.t) d st' t temo B C F Hh W,
     st_heap st !! condition = Some t -> shape t = [B; C; F; Hh; W] ->
     st_heap st !! emo = Some temo ->
     HMV2ControlNet2.forward condition emo st = inr (d, st') ->
     let sf := HMV2ControlNet2.scale_factor (st_self st) in
     let N := length (HMV2ControlNet2.blocks_down (st_self st)) in
     forall i, i < N ->
     exists r tr, dict_lookup d ("up2_v2_" +:+ pretty (N - i - 1)) = Some r /\
       st_heap st' !! r = Some tr /\
       val tr = VRearrange pat_unflatten_frames
         (fusion_chain (conv_in_value (val t) (Hh / sf) (W / sf))
                       (emo_drive_value sub_exp_embedding sub_emo_proj (val temo)) (S i))).
Proof.
  split_and!.
  - intros c dc fp st d st' t tdc tfp B C F Hh W Ht Hs Hdc Hfp E sf i Hi.
    destruct (HMControlNet_forward_run c dc fp st d st' t tdc tfp B C F Hh W Ht Hs Hdc Hfp E)
      as [_ Hv].
    destruct (Hv i Hi) as (r & tr & H1 & _ & H3 & H4). by exists r, tr.
  - intros c e st d st' t te B C F Hh W Ht Hs He E sf i Hi.
    destruct (HMControlNet2_forward_run c e st d st' t te B C F Hh W Ht Hs He E) as [_ Hv].
    destruct (Hv i Hi) as (r & tr & H1 & _ & H3 & H4). by exists r, tr.
  - intros c dc fp st d st' t tdc tfp B C F Hh W Ht Hs Hdc Hfp E sf N i Hi.
    destruct (HMV2ControlNet_forward_run c dc fp st d st' t tdc tfp B C F Hh W Ht Hs Hdc Hfp E)
      as [_ Hv].
    destruct (Hv i Hi) as (r & tr & H1 & _ & H3 & H4). by exists r, tr.
  - intros c e st d st' t te B C F Hh W Ht Hs He E sf N i Hi.
    destruct (HMV2ControlNet2_forward_run c e st d st' t te B C F Hh W Ht Hs He E) as [_ Hv].
    destruct (Hv i Hi) as (r & tr & H1 & _ & H3 & H4). by exists r, tr.
Qed.

(** X2: a successful forward of these four variants calls, in order, [conv_in] on the
    resized condition, the modules of its driving path, then [blocks_down[0]] up to
    [blocks_down[N-1]] once each on the running embedding and the driving embedding, and no
    other module. *)
Theorem forward_call_trace `{SKSpatial} :
  (forall condition dc fp (st : state HMControlNet.t) d st' t tdc tfp B C F Hh W,
     st_heap st !! condition = Some t -> shape t = [B; C; F; Hh; W] ->
     st_heap st !! dc = Some tdc -> st_heap st !! fp = Some tfp ->
     HMControlNet.forward condition dc fp st = inr (d, st') ->
     let sf := HMControlNet.scale_factor (st_self st) in
     st_trace st' = st_trace st ++ conv_in_event (val t) (Hh / sf) (W / sf) ::
       dual_drive_trace (val tdc) (val tfp) ++
       chain_trace (conv_in_value (val t) (Hh / sf) (W / sf))
                   (dual_drive_value (val tdc) (val tfp))
                   (length (HMControlNet.blocks_down (st_self st)))) /\
  (forall condition emo (st : state HMControlNet2.t) d st' t temo B C F Hh W,
     st_heap st !! condition = Some t -> shape t = [B; C; F; Hh; W] ->
     st_heap st !! emo = Some temo ->
     HMControlNet2.forward condition emo st = inr (d, st') ->
     let sf := HMControlNet2.scale_factor (st_self st) in
     st_trace st' = st_trace st ++ conv_in_event (val t) (Hh / sf) (W / sf) ::
       emo_drive_trace sub_exp_embedding sub_emo_proj (val temo) ++
       chain_trace (conv_in_value (val t) (Hh / sf) (W / sf))
                   (emo_drive_value sub_exp_embedding sub_emo_proj (val temo))
                   (length (HMControlNet2.blocks_down (st_self st)))) /\
  (forall condition dc fp (st : state HMV2ControlNet.t) d st' t tdc tfp B C F Hh W,
     st_heap st !! condition = Some t -> shape t = [B; C; F; Hh; W] ->
     st_heap st !! dc = Some tdc -> st_heap st !! fp = Some tfp ->
     HMV2ControlNet.forward condition dc fp st = inr (d, st') ->
     let sf := HMV2ControlNet.scale_factor (st_self st) in
     st_trace st' = st_trace st ++ conv_in_event (val t) (Hh / sf) (W / sf) ::
       dual_drive_trace (val tdc) (val tfp) ++
       chain_trace (conv_in_value (val t) (Hh / sf) (W / sf))
                   (dual_drive_value (val tdc) (val tfp))
                   (length (HMV2ControlNet.blocks_down (st_self st)))) /\
  (forall condition emo (st : state HMV2ControlNet2.t) d st' t temo B C F Hh W,
     st_heap st !! condition = Some t -> shape t = [B; C; F; Hh; W] ->
     st_heap st !! emo = Some temo ->
     HMV2ControlNet2.forward condition emo st = inr (d, st') ->
     let sf := HMV2ControlNet2.scale_factor (st_self st) in
     st_trace st' = st_trace st ++ conv_in_event (val t) (Hh / sf) (W / sf) ::
       emo_drive_trace sub_exp_embedding sub_emo_proj (val temo) ++
       chain_trace (conv_in_value (val t) (Hh / sf) (W / sf))
                   (emo_drive_value sub_exp_embedding sub_emo_proj (val temo))
                   (length (HMV2ControlNet2.blocks_down (st_self st)))).
Proof.
  split_and!.
  - intros c dc fp st d st' t tdc tfp B C F Hh W Ht Hs Hdc Hfp E.
    exact (proj1 (HMControlNet_forward_run c dc fp st d st' t tdc tfp B C F Hh W Ht Hs Hdc Hfp E)).
  - intros c e st d st' t te B C F Hh W Ht Hs He E.
    exact (proj1 (HMControlNet2_forward_run c e st d st' t te B C F Hh W Ht Hs He E)).
  - intros c dc fp st d st' t tdc tfp B C F Hh W Ht Hs Hdc Hfp E.
    exact (proj1 (HMV2ControlNet_forward_run c dc fp st d st' t tdc tfp B C F Hh W Ht Hs Hdc Hfp E)).
  - intros c e st d st' t te B C F Hh W Ht Hs He E.
    exact (proj1 (HMV2ControlNet2_forward_run c e st d st' t te B C F Hh W Ht Hs He E)).
Qed.

(** X3: every tensor in the mapping a successful forward of these four variants returns was
    allocated by that call (none is an input), and no two keys hold the same tensor. *)
Theorem forward_outputs_fresh_distinct `{SKSpatial} :
  (forall condition dc fp (st : state HMControlNet.t) d st' t tdc tfp B C F Hh W,
     st_heap st !! condition = Some t -> shape t = [B; C; F; Hh; W] ->
     st_heap st !! dc = Some tdc -> st_heap st !! fp = Some tfp ->
     HMControlNet.forward condition dc fp st = inr (d, st') ->
     (forall k r, dict_lookup d k = Some r -> length (st_heap st) <= r) /\
     (forall k k' r, dict_lookup d k = Some r -> dict_lookup d k' = Some r -> k = k')) /\
  (forall condition emo (st : state HMControlNet2.t) d st' t temo B C F Hh W,
     st_heap st !! condition = Some t -> shape t = [B; C; F; Hh; W] ->
     st_heap st !! emo = Some temo ->
     HMControlNet2.forward condition emo st = inr (d, st') ->
     (forall k r, dict_lookup d k = Some r -> length (st_heap st) <= r) /\
     (forall k k' r, dict_lookup d k = Some r -> dict_lookup d k' = Some r -> k = k')) /\
  (forall condition dc fp (st : state HMV2ControlNet.t) d st' t tdc tfp B C F Hh W,
     st_heap st !! condition = Some t -> shape t = [B; C; F; Hh; W] ->
     st_heap st !! dc = Some tdc -> st_heap st !! fp = Some tfp ->
     HMV2ControlNet.forward condition dc fp st = inr (d, st') ->
     (forall k r, dict_lookup d k = Some r -> length (st_heap st) <= r) /\
     (forall k k' r, dict_lookup d k = Some r -> dict_lookup d k' = Some r -> k = k')) /\
  (forall condition emo (st : state HMV2ControlNet2.t) d st' t temo B C F Hh W,
     st_heap st !! condition = Some t -> shape t = [B; C; F; Hh; W] ->
     st_heap st !! emo = Some temo ->
     HMV2ControlNet2.forward condition emo st = inr (d, st') ->
     (forall k r, dict_lookup d k = Some r -> length (st_heap st) <= r) /\
     (forall k k' r, dict_lookup d k = Some r -> dict_lookup d k' = Some r -> k = k')).
Proof.
  split_and!.
  - intros c dc fp st d st' t tdc tfp B C F Hh W Ht Hs Hdc Hfp E.
    destruct (HMControlNet_forward_run c dc fp st d st' t tdc tfp B C F Hh W Ht Hs Hdc Hfp E)
      as [_ Hv].
    destruct (HMControlNet_forward_result c dc fp st d st' t B C F Hh W Ht Hs E)
      as (outs & Hd & Hlen & _).
    eapply chain_outputs_fresh_distinct; [|exact Hv]. rewrite Hd. by apply map_fst_zip_seq.
  - intros c e st d st' t te B C F Hh W Ht Hs He E.
    destruct (HMControlNet2_forward_run c e st d st' t te B C F Hh W Ht Hs He E) as [_ Hv].
    destruct (HMControlNet2_forward_result c e st d st' t B C F Hh W Ht Hs E)
      as (outs & Hd & Hlen & _).
    eapply chain_outputs_fresh_distinct; [|exact Hv]. rewrite Hd. by apply map_fst_zip_seq.
  - intros c dc fp st d st' t tdc tfp B C F Hh W Ht Hs Hdc Hfp E.
    destruct (HMV2ControlNet_forward_run c dc fp st d st' t tdc tfp B C F Hh W Ht Hs Hdc Hfp E)
      as [_ Hv].
    destruct (HMV2ControlNet_forward_result c dc fp st d st' t B C F Hh W Ht Hs E)
      as (outs & Hd & Hlen & _).
    eapply chain_outputs_fresh_distinct; [|exact Hv]. rewrite Hd. by apply map_fst_zip_seq.
  - intros c e st d st' t te B C F Hh W Ht Hs He E.
    destruct (HMV2ControlNet2_forward_run c e st d st' t te B C F Hh W Ht Hs He E) as [_ Hv].
    destruct (HMV2ControlNet2_forward_result c e st d st' t B C F Hh W Ht Hs E)
      as (outs & Hd & Hlen & _).
    eapply chain_outputs_fresh_distinct; [|exact Hv]. rewrite Hd. by apply map_fst_zip_seq.
Qed.

Ltac init_chain_tac :=
  intros ec ic sf cad boc; split;
  [ intros ->; reflexivity
  | intros self Hi;
    lazymatch type of Hi with ?f _ _ _ _ _ = _ => unfold f in Hi end;
    destruct (boc !! 0) as [c0|] eqn:H0; [|discriminate];
    injection Hi as <-; cbv zeta; cbn [conv_out_channels conv_in_channels];
    split_and!;
    [ done | done | apply build_blocks_length
    | intros k b Hb; by apply build_blocks_lookup in Hb ] ].

(** X4: the [__init__] of each variant raises [IndexError] when
    [block_out_channels] is empty; when it returns, [conv_in] maps [input_channels] to
    [block_out_channels[0]], and [blocks_down] has [len(block_out_channels) - 1] blocks,
    block [k] mapping [block_out_channels[k]] to [block_out_channels[k+1]] channels with the
    given cross-attention width. *)
Theorem init_block_chain :
  (forall ec ic sf cad boc,
     (boc = [] -> HMControlNet.init ec ic sf cad boc = inl (IndexError "tuple index out of range")) /\
     forall self, HMControlNet.init ec ic sf cad boc = inr self ->
       let blocks := HMControlNet.blocks_down self in
       boc !! 0 = Some (conv_out_channels (HMControlNet.conv_in self)) /\
       conv_in_channels (HMControlNet.conv_in self) = ic /\
       length blocks = length boc - 1 /\
       forall k b, blocks !! k = Some b ->
         boc !! k = Some (sk_channel_in b) /\ boc !! S k = Some (sk_channel_out b) /\
         sk_cross_attention_dim b = cad) /\
  (forall ec ic sf cad boc,
     (boc = [] -> HMControlNet2.init ec ic sf cad boc = inl (IndexError "tuple index out of range")) /\
     forall self, HMControlNet2.init ec ic sf cad boc = inr self ->
       let blocks := HMControlNet2.blocks_down self in
       boc !! 0 = Some (conv_out_channels (HMControlNet2.conv_in self)) /\
       conv_in_channels (HMControlNet2.conv_in self) = ic /\
       length blocks = length boc - 1 /\
       forall k b, blocks !! k = Some b ->
         boc !! k = Some (sk_channel_in b) /\ boc !! S k = Some (sk_channel_out b) /\
         sk_cross_attention_dim b = cad) /\
  (forall ec ic sf cad boc,
     (boc = [] -> HMV2ControlNet.init ec ic sf cad boc = inl (IndexError "tuple index out of range")) /\
     forall self, HMV2ControlNet.init ec ic sf cad boc = inr self ->
       let blocks := HMV2ControlNet.blocks_down self in
       boc !! 0 = Some (conv_out_channels (HMV2ControlNet.conv_in self)) /\
       conv_in_channels (HMV2ControlNet.conv_in self) = ic /\
       length blocks = length boc - 1 /\
       forall k b, blocks !! k = Some b ->
         boc !! k = Some (sk_channel_in b) /\ boc !! S k = Some (sk_channel_out b) /\
         sk_cross_attention_dim b = cad) /\
  (forall ec ic sf cad boc,
     (boc = [] -> HMV3ControlNet.init ec ic sf cad boc = inl (IndexError "tuple index out of range")) /\
     forall self, HMV3ControlNet.init ec ic sf cad boc = inr self ->
       let blocks := HMV3ControlNet.blocks_down self in
       boc !! 0 = Some (conv_out_channels (HMV3ControlNet.conv_in self)) /\
       conv_in_channels (HMV3ControlNet.conv_in self) = ic /\
       length blocks = length boc - 1 /\
       forall k b, blocks !! k = Some b ->
         boc !! k = Some (sk_channel_in b) /\ boc !! S k = Some (sk_channel_out b) /\
         sk_cross_attention_dim b = cad) /\
  (forall ec ic sf cad boc,
     (boc = [] -> HMV2ControlNet2.init ec ic sf cad boc = inl (IndexError "tuple index out of range")) /\
     forall self, HMV2ControlNet2.init ec ic sf cad boc = inr self ->
       let blocks := HMV2ControlNet2.blocks_down self in
       boc !! 0 = Some (conv_out_channels (HMV2ControlNet2.conv_in self)) /\
       conv_in_channels (HMV2ControlNet2.conv_in self) = ic /\
       length blocks = length boc - 1 /\
       forall k b, blocks !! k = Some b ->
         boc !! k = Some (sk_channel_in b) /\ boc !! S k = Some (sk_channel_out b) /\
         sk_cross_attention_dim b = cad).
Proof. split_and!; init_chain_tac. Qed.

Lemma init_block_chain_witness :
  (exists self, HMControlNet.init 1280 3 8 320 boc_v1 = inr self /\
     length (HMControlNet.blocks_down self) = 3 /\
     forall k b, HMControlNet.blocks_down self !! k = Some b ->
       boc_v1 !! k = Some (sk_channel_in b) /\ boc_v1 !! S k = Some (sk_channel_out b) /\
       sk_cross_attention_dim b = 320) /\
  HMV3ControlNet.init 1280 3 4 320 [] = inl (IndexError "tuple index out of range").
Proof.
  destruct init_block_chain as (P1 & _ & _ & P4 & _). split.
  - eexists. split; [reflexivity|].
    destruct (proj2 (P1 1280 3 8 320 boc_v1) _ eq_refl) as (_ & _ & Hl & Hb).
    split; [exact Hl | exact Hb].
  - apply (proj1 (P4 1280 3 4 320 [])). reflexivity.
Defined.

Lemma div_ne_0_le a b : b <> 0 -> a / b <> 0 -> b <= a.
Proof. intros Hb Hd. destruct (decide (a < b)) as [Hlt|]; [|lia]. by rewrite Nat.div_small in Hd. Qed.

Section Errors.
Context `{SKSpatial}.

(** X5: a forward of any variant on a condition tensor whose rank is not 5 raises
    [ValueError] at the unpacking of [condition.shape], before any allocation or module call. *)
Theorem forward_condition_rank_error :
  (forall condition dc fp (st : state HMControlNet.t) t,
     st_heap st !! condition = Some t -> length (shape t) <> 5 ->
     HMControlNet.forward condition dc fp st =
       inl (unpack_error, mkState (st_self st) (st_heap st) (st_trace st)
                                  (unpack_error :: st_raised st))) /\
  (forall condition emo (st : state HMControlNet2.t) t,
     st_heap st !! condition = Some t -> length (shape t) <> 5 ->
     HMControlNet2.forward condition emo st =
       inl (unpack_error, mkState (st_self st) (st_heap st) (st_trace st)
                                  (unpack_error :: st_raised st))) /\
  (forall condition dc fp (st : state HMV2ControlNet.t) t,
     st_heap st !! condition = Some t -> length (shape t) <> 5 ->
     HMV2ControlNet.forward condition dc fp st =
       inl (unpack_error, mkState (st_self st) (st_heap st) (st_trace st)
                                  (unpack_error :: st_raised st))) /\
  (forall condition dc fp emo (st : state HMV3ControlNet.t) t,
     st_heap st !! condition = Some t -> length (shape t) <> 5 ->
     HMV3ControlNet.forward condition dc fp emo st =
       inl (unpack_error, mkState (st_self st) (st_heap st) (st_trace st)
                                  (unpack_error :: st_raised st))) /\
  (forall condition emo (st : state HMV2ControlNet2.t) t,
     st_heap st !! condition = Some t -> length (shape t) <> 5 ->
     HMV2ControlNet2.forward condition emo st =
       inl (unpack_error, mkState (st_self st) (st_heap st) (st_trace st)
                                  (unpack_error :: st_raised st))).
Proof.
  split_and!; intros *; intros Ht Hr;
  cbv [HMControlNet.forward HMControlNet2.forward HMV2ControlNet.forward
    HMV3ControlNet.forward HMV2ControlNet2.forward bind get_self unpack5 deref raise];
  rewrite Ht;
  destruct (shape t) as [|? [|? [|? [|? [|? [|? ?]]]]]]; cbn in Hr; try lia; reflexivity.
Qed.

Ltac early_error_tac :=
  intros *; intros Ht Hs; intros;
  lazymatch goal with st : state _ |- _ => destruct st as [self heap tr rs] end;
  cbn [st_self st_heap st_trace st_raised] in *;
  cbv [HMControlNet.forward HMControlNet2.forward HMV2ControlNet.forward
    HMV3ControlNet.forward HMV2ControlNet2.forward bind get_self unpack5 deref
    rearrange_flatten_frames alloc floordiv interpolate raise ret];
  repeat first [ rewrite Ht | rewrite Hs | rewrite lookup_snoc_length
               | rewrite decide_False by (try tauto; lia)
               | rewrite decide_True by (try tauto; lia)
               | progress cbn [st_self st_heap st_trace st_raised shape val] ];
  eexists; (split; [reflexivity|]); cbn; split_and!; reflexivity.

(** X6: when [scale_factor = 0], a forward of any variant on a rank-5 condition raises
    [ZeroDivisionError] at [h // self.scale_factor], before any module call. *)
Theorem forward_zero_scale_factor :
  (forall condition dc fp (st : state HMControlNet.t) t B C F Hh W,
     st_heap st !! condition = Some t -> shape t = [B; C; F; Hh; W] ->
     HMControlNet.scale_factor (st_self st) = 0 ->
     exists st', HMControlNet.forward condition dc fp st = inl (ZeroDivisionError, st') /\
       st_trace st' = st_trace st /\ st_raised st' = ZeroDivisionError :: st_raised st) /\
  (forall condition emo (st : state HMControlNet2.t) t B C F Hh W,
     st_heap st !! condition = Some t -> shape t = [B; C; F; Hh; W] ->
     HMControlNet2.scale_factor (st_self st) = 0 ->
     exists st', HMControlNet2.forward condition emo st = inl (ZeroDivisionError, st') /\
       st_trace st' = st_trace st /\ st_raised st' = ZeroDivisionError :: st_raised st) /\
  (forall condition dc fp (st : state HMV2ControlNet.t) t B C F Hh W,
     st_heap st !! condition = Some t -> shape t = [B; C; F; Hh; W] ->
     HMV2ControlNet.scale_factor (st_self st) = 0 ->
     exists st', HMV2ControlNet.forward condition dc fp st = inl (ZeroDivisionError, st') /\
       st_trace st' = st_trace st /\ st_raised st' = ZeroDivisionError :: st_raised st) /\
  (forall condition dc fp emo (st : state HMV3ControlNet.t) t B C F Hh W,
     st_heap st !! condition = Some t -> shape t = [B; C; F; Hh; W] ->
     HMV3ControlNet.scale_factor (st_self st) = 0 ->
     exists st', HMV3ControlNet.forward condition dc fp emo st = inl (ZeroDivisionError, st') /\
       st_trace st' = st_trace st /\ st_raised st' = ZeroDivisionError :: st_raised st) /\
  (forall condition emo (st : state HMV2ControlNet2.t) t B C F Hh W,
     st_heap st !! condition = Some t -> shape t = [B; C; F; Hh; W] ->
     HMV2ControlNet2.scale_factor (st_self st) = 0 ->
     exists st', HMV2ControlNet2.forward condition emo st = inl (ZeroDivisionError, st') /\
       st_trace st' = st_trace st /\ st_raised st' = ZeroDivisionError :: st_raised st).
Proof. split_and!; early_error_tac. Qed.

(** X7: when [scale_factor] is nonzero but larger than [h] or [w], a forward of any variant
    raises the [RuntimeError] of [F.interpolate] for an empty output size, before any module
    call. *)
Theorem forward_empty_resize_error :
  (forall condition dc fp (st : state HMControlNet.t) t B C F Hh W,
     st_heap st !! condition = Some t -> shape t = [B; C; F; Hh; W] ->
     let sf := HMControlNet.scale_factor (st_self st) in
     sf <> 0 -> Hh / sf = 0 \/ W / sf = 0 ->
     exists st', HMControlNet.forward condition dc fp st = inl (empty_size_error, st') /\
       st_trace st' = st_trace st /\ st_raised st' = empty_size_error :: st_raised st) /\
  (forall condition emo (st : state HMControlNet2.t) t B C F Hh W,
     st_heap st !! condition = Some t -> shape t = [B; C; F; Hh; W] ->
     let sf := HMControlNet2.scale_factor (st_self st) in
     sf <> 0 -> Hh / sf = 0 \/ W / sf = 0 ->
     exists st', HMControlNet2.forward condition emo st = inl (empty_size_error, st') /\
       st_trace st' = st_trace st /\ st_raised st' = empty_size_error :: st_raised st) /\
  (forall condition dc fp (st : state HMV2ControlNet.t) t B C F Hh W,
     st_heap st !! condition = Some t -> shape t = [B; C; F; Hh; W] ->
     let sf := HMV2ControlNet.scale_factor (st_self st) in
     sf <> 0 -> Hh / sf = 0 \/ W / sf = 0 ->
     exists st', HMV2ControlNet.forward condition dc fp st = inl (empty_size_error, st') /\
       st_trace st' = st_trace st /\ st_raised st' = empty_size_error :: st_raised st) /\
  (forall condition dc fp emo (st : state HMV3ControlNet.t) t B C F Hh W,
     st_heap st !! condition = Some t -> shape t = [B; C; F; Hh; W] ->
     let sf := HMV3ControlNet.scale_factor (st_self st) in
     sf <> 0 -> Hh / sf = 0 \/ W / sf = 0 ->
     exists st', HMV3ControlNet.forward condition dc fp emo st = inl (empty_size_error, st') /\
       st_trace st' = st_trace st /\ st_raised st' = empty_size_error :: st_raised st) /\
  (forall condition emo (st : state HMV2ControlNet2.t) t B C F Hh W,
     st_heap st !! condition = Some t -> shape t = [B; C; F; Hh; W] ->
     let sf := HMV2ControlNet2.scale_factor (st_self st) in
     sf <> 0 -> Hh / sf = 0 \/ W / sf = 0 ->
     exists st', HMV2ControlNet2.forward condition emo st = inl (empty_size_error, st') /\
       st_trace st' = st_trace st /\ st_raised st' = empty_size_error :: st_raised st).
Proof. split_and!; early_error_tac. Qed.

End Errors.

Ltac success_pre_tac :=
  intros *; intros Ht Hs E;
  lazymatch goal with st : state _ |- _ => destruct st as [self heap tr rs] end;
  cbn [st_self st_heap st_trace st_raised] in *;
  try unfold HMControlNet.forward in E; try unfold HMControlNet2.forward in E;
  try unfold HMV2ControlNet.forward in E; try unfold HMV3ControlNet.forward in E;
  try unfold HMV2ControlNet2.forward in E;
  peel_inr; cbn [st_heap st_self st_trace st_raised] in *;
  repeat run_one; heap_simpl;
  repeat match goal with
  | Hd : ?a / ?b <> 0, Hb : ?b <> 0 |- _ =>
      lazymatch goal with _ : b <= a |- _ => fail | _ => pose proof (div_ne_0_le a b Hb Hd) end
  | Hm : ?c * ?h * ?w <> 0 |- _ =>
      lazymatch goal with _ : c <> 0 |- _ => fail
      | _ => assert (c <> 0) by (intros Hc; apply Hm; rewrite Hc; done) end
  end;
  split_and!; (reflexivity || lia).

Section Pre.
Context `{SKSpatial}.

(** X8: a successful forward of any variant on a condition of shape [(B, C, F, h, w)] needs
    [C = conv_in.in_channels], [C <> 0] and [0 < scale_factor <= h] and [scale_factor <= w]. *)
Theorem forward_success_needs :
  (forall condition dc fp (st : state HMControlNet.t) d st' t B C F Hh W,
     st_heap st !! condition = Some t -> shape t = [B; C; F; Hh; W] ->
     HMControlNet.forward condition dc fp st = inr (d, st') ->
     let self := st_self st in
     C = conv_in_channels (HMControlNet.conv_in self) /\ C <> 0 /\
     0 < HMControlNet.scale_factor self /\
     HMControlNet.scale_factor self <= Hh /\ HMControlNet.scale_factor self <= W) /\
  (forall condition emo (st : state HMControlNet2.t) d st' t B C F Hh W,
     st_heap st !! condition = Some t -> shape t = [B; C; F; Hh; W] ->
     HMControlNet2.forward condition emo st = inr (d, st') ->
     let self := st_self st in
     C = conv_in_channels (HMControlNet2.conv_in self) /\ C <> 0 /\
     0 < HMControlNet2.scale_factor self /\
     HMControlNet2.scale_factor self <= Hh /\ HMControlNet2.scale_factor self <= W) /\
  (forall condition dc fp (st : state HMV2ControlNet.t) d st' t B C F Hh W,
     st_heap st !! condition = Some t -> shape t = [B; C; F; Hh; W] ->
     HMV2ControlNet.forward condition dc fp st = inr (d, st') ->
     let self := st_self st in
     C = conv_in_channels (HMV2ControlNet.conv_in self) /\ C <> 0 /\
     0 < HMV2ControlNet.scale_factor self /\
     HMV2ControlNet.scale_factor self <= Hh /\ HMV2ControlNet.scale_factor self <= W) /\
  (forall condition dc fp emo (st : state HMV3ControlNet.t) d st' t B C F Hh W,
     st_heap st !! condition = Some t -> shape t = [B; C; F; Hh; W] ->
     HMV3ControlNet.forward condition dc fp emo st = inr (d, st') ->
     let self := st_self st in
     C = conv_in_channels (HMV3ControlNet.conv_in self) /\ C <> 0 /\
     0 < HMV3ControlNet.scale_factor self /\
     HMV3ControlNet.scale_factor self <= Hh /\ HMV3ControlNet.scale_factor self <= W) /\
  (forall condition emo (st : state HMV2ControlNet2.t) d st' t B C F Hh W,
     st_heap st !! condition = Some t -> shape t = [B; C; F; Hh; W] ->
     HMV2ControlNet2.forward condition emo st = inr (d, st') ->
     let self := st_self st in
     C = conv_in_channels (HMV2ControlNet2.conv_in self) /\ C <> 0 /\
     0 < HMV2ControlNet2.scale_factor self /\
     HMV2ControlNet2.scale_factor self <= Hh /\ HMV2ControlNet2.scale_factor self <= W).
Proof. split_and!; success_pre_tac. Qed.
End Pre.

Section NoKey.
Context {Self : Type}.

Lemma bind_inl {A B} (m : PyM Self A) (k : A -> PyM Self B) st e st' :
  bind m k st = inl (e, st') ->
  m st = inl (e, st') \/ exists a s1, m st = inr (a, s1) /\ k a s1 = inl (e, st').
Proof. unfold bind. destruct (m st) as [[e1 s1]|[a s1]]; [intros [= -> ->]; by left | eauto]. Qed.

Lemma no_key_bind {A B} (m : PyM Self A) (k : A -> PyM Self B) :
  no_key m -> (forall a, no_key (k a)) -> no_key (bind m k).
Proof.
  intros Hm Hk st e st' [E|(a & s1 & _ & E)]%bind_inl; [exact (Hm _ _ _ E) | exact (Hk _ _ _ _ E)].
Qed.

Lemma no_key_ret {A} (a : A) : no_key (Self:=Self) (ret a).
Proof. by intros ? ? ? ?. Qed.

Lemma no_key_for_enumerate_from {B A} (l : list B) body i (acc : A) :
  (forall k b a, no_key (Self:=Self) (body k b a)) -> no_key (for_enumerate_from i l body acc).
Proof.
  intros Hb. revert i acc. induction l as [|b l IH]; intros i acc; cbn.
  - apply no_key_ret.
  - apply no_key_bind; [apply Hb | intros; apply IH].
Qed.

Ltac no_key_prim :=
  intros ? ? ?;
  repeat (unfold bind, deref, alloc, log_call, ret, raise, get_self,
    mul, unpack5, floordiv, to_dtype, rearrange_flatten_frames, rearrange_unflatten_frames,
    rearrange_flatten_coeffs, rearrange_split_coeffs, rearrange_merge_bf, rearrange_split_bf,
    interpolate, cat_dim2, conv2d_call, timesteps_call, timestep_embedding_call, sk_call);
  repeat case_match; intros; simplify_eq; intros ? ?; discriminate.

Lemma no_key_get_self : no_key (Self:=Self) get_self.
Proof. no_key_prim. Qed.
Lemma no_key_mul x c : no_key (Self:=Self) (mul x c).
Proof. no_key_prim. Qed.
Lemma no_key_unpack5 x : no_key (Self:=Self) (unpack5 x).
Proof. no_key_prim. Qed.
Lemma no_key_floordiv a b : no_key (Self:=Self) (floordiv a b).
Proof. no_key_prim. Qed.
Lemma no_key_to_dtype x : no_key (Self:=Self) (to_dtype x).
Proof. no_key_prim. Qed.
Lemma no_key_rearrange_flatten_frames x : no_key (Self:=Self) (rearrange_flatten_frames x).
Proof. no_key_prim. Qed.
Lemma no_key_rearrange_unflatten_frames f x : no_key (Self:=Self) (rearrange_unflatten_frames f x).
Proof. no_key_prim. Qed.
Lemma no_key_rearrange_flatten_coeffs x : no_key (Self:=Self) (rearrange_flatten_coeffs x).
Proof. no_key_prim. Qed.
Lemma no_key_rearrange_split_coeffs b f d x : no_key (Self:=Self) (rearrange_split_coeffs b f d x).
Proof. no_key_prim. Qed.
Lemma no_key_rearrange_merge_bf x : no_key (Self:=Self) (rearrange_merge_bf x).
Proof. no_key_prim. Qed.
Lemma no_key_rearrange_split_bf f x : no_key (Self:=Self) (rearrange_split_bf f x).
Proof. no_key_prim. Qed.
Lemma no_key_interpolate x oh ow : no_key (Self:=Self) (interpolate x oh ow).
Proof. no_key_prim. Qed.
Lemma no_key_cat_dim2 x y : no_key (Self:=Self) (cat_dim2 x y).
Proof. no_key_prim. Qed.
Lemma no_key_conv2d_call m cfg x : no_key (Self:=Self) (conv2d_call m cfg x).
Proof. no_key_prim. Qed.
Lemma no_key_timesteps_call m cfg x : no_key (Self:=Self) (timesteps_call m cfg x).
Proof. no_key_prim. Qed.
Lemma no_key_timestep_embedding_call m cfg x :
  no_key (Self:=Self) (timestep_embedding_call m cfg x).
Proof. no_key_prim. Qed.
Lemma no_key_sk_call `{SKSpatial} m cfg x e : no_key (Self:=Self) (sk_call m cfg x e).
Proof. no_key_prim. Qed.

End NoKey.

Create HintDb no_key_db.
#[export] Hint Resolve no_key_ret no_key_get_self no_key_mul no_key_unpack5 no_key_floordiv
  no_key_to_dtype no_key_rearrange_flatten_frames no_key_rearrange_unflatten_frames
  no_key_rearrange_flatten_coeffs no_key_rearrange_split_coeffs no_key_rearrange_merge_bf
  no_key_rearrange_split_bf no_key_interpolate no_key_cat_dim2 no_key_conv2d_call
  no_key_timesteps_call no_key_timestep_embedding_call no_key_sk_call : no_key_db.

Ltac no_key_solve :=
  repeat first
    [ solve [eauto with no_key_db]
    | apply no_key_bind; [|intros]
    | lazymatch goal with
      | |- no_key (match ?x with _ => _ end) => destruct x
      | |- no_key (if ?c then _ else _) => destruct c
      end ].

Ltac no_key_hyp E :=
  lazymatch type of E with
  | ?m ?s = inl _ =>
      let Hm := fresh in assert (Hm : no_key m) by no_key_solve; exact (Hm _ _ _ E)
  end.

Section HMV3NoKey.
Context `{SKSpatial}.

Lemma HMV3_loop_body_no_key self F de idx blk acc :
  no_key (HMV3ControlNet.loop_body self F de idx blk acc).
Proof.
  intros st e st' E. destruct acc as [emb rd]. unfold HMV3ControlNet.loop_body in E.
  cbv beta iota zeta in E.
  remember (length (HMV3ControlNet.blocks_down self) - idx - 1) as u eqn:Hu.
  apply bind_inl in E as [E|(e1 & s1 & _ & E)]; [no_key_hyp E|].
  apply bind_inl in E as [E|(out & s2 & _ & E)]; [no_key_hyp E|].
  apply bind_inl in E as [E|(d3 & s3 & E3 & E)]; [no_key_hyp E|].
  apply bind_inl in E as [E|(d4 & s4 & E4 & E)]; [no_key_hyp E|].
  apply bind_inl in E as [E|(d5 & s5 & _ & E)]; [|discriminate].
  destruct (decide (u = 0)) as [U0|U0]; [|discriminate]. subst u.
  rewrite decide_False in E3 by lia. apply ret_inr in E3 as [-> ->].
  rewrite decide_False in E4 by lia. apply ret_inr in E4 as [-> ->].
  rewrite U0 in E. change ("up3_" +:+ pretty 0%nat) with "up3_0" in E.
  unfold dict_get at 1 in E. rewrite dict_lookup_set_eq in E.
  unfold bind at 1, ret at 1 in E.
  unfold dict_get in E. rewrite dict_lookup_set_ne, dict_lookup_set_eq in E by done.
  discriminate.
Qed.

Lemma HMV3_forward_no_key condition dc fp emo :
  no_key (HMV3ControlNet.forward condition dc fp emo).
Proof.
  unfold HMV3ControlNet.forward. no_key_solve.
  unfold for_enumerate. apply no_key_for_enumerate_from. intros. apply HMV3_loop_body_no_key.
Qed.

End HMV3NoKey.

Lemma stage_out_grows {Self} (s0 s s' : state Self) d key v :
  heap_grows s s' -> stage_out s0 s d key v -> stage_out s0 s' d key v.
Proof.
  intros G (r & tr & Hl & Hr & Ht & Hv). exists r, tr. split_and!; try done.
  by eapply heap_lookup_grows.
Qed.

Lemma stage_out_set_ne {Self} (s0 s : state Self) d key key' r v :
  key <> key' -> stage_out s0 s d key v -> stage_out s0 s (dict_set d key' r) key v.
Proof.
  intros Hk (r0 & tr & Hl & Hr & Ht & Hv). exists r0, tr. split_and!; try done.
  by rewrite dict_lookup_set_ne.
Qed.

Ltac run_one' :=
  match goal with
  | E : sk_call _ _ _ _ _ = inr _ |- _ => apply sk_call_run in E
  | E : rearrange_unflatten_frames _ _ _ = inr _ |- _ => apply rearrange_unflatten_frames_run in E
  | E : conv2d_call _ _ _ _ = inr _ |- _ => apply conv2d_call_run in E
  end; destruct_ex_and; subst; cbn [st_heap st_self st_trace st_raised] in *.

Ltac key_ne :=
  let Heq := fresh in intros Heq;
  first [ discriminate
        | apply (inj (String.app _)), (inj pretty) in Heq; lia
        | cbn in Heq; discriminate
        | exfalso; lia ].

Ltac heap_idx :=
  rewrite <- ?app_assoc, lookup_app_r by (rewrite ?length_app; cbn [length]; lia);
  match goal with
  | |- _ !! ?i = _ =>
      first [ replace i with 0 by (rewrite ?length_app; cbn [length]; lia)
            | replace i with 1 by (rewrite ?length_app; cbn [length]; lia)
            | replace i with 2 by (rewrite ?length_app; cbn [length]; lia)
            | replace i with 3 by (rewrite ?length_app; cbn [length]; lia) ]
  end; reflexivity.

Ltac stage_new :=
  unfold stage_out; cbn [st_heap];
  repeat first [ rewrite dict_lookup_set_eq | rewrite dict_lookup_set_ne by key_ne ];
  do 2 eexists; split_and!;
  [ reflexivity | rewrite ?length_app; cbn [length]; lia | heap_idx | reflexivity ].

Ltac stage_out_keep :=
  repeat (apply stage_out_set_ne; [key_ne|]).

Section HMV3Chain.
Context `{SKSpatial}.

Lemma HMV3_chain_body self F de v0 dv s0 k blk e d s e' d' s' :
  (exists tde, st_heap s0 !! de = Some tde /\ val tde = dv) ->
  HMV3ControlNet.blocks_down self !! k = Some blk ->
  HMV3_chain_inv self v0 dv s0 k (e, d) s ->
  HMV3ControlNet.loop_body self F de k blk (e, d) s = inr ((e', d'), s') ->
  HMV3_chain_inv self v0 dv s0 (S k) (e', d') s'.
Proof.
  intros (tde & Hde & <-) Hk (G0 & Htr & (te & Hte & Hv) & Hd) E.
  assert (Hlt : k < length (HMV3ControlNet.blocks_down self)) by (eapply lookup_lt_Some; done).
  pose proof (prefix_length _ _ (proj2 G0)) as Hlen.
  pose proof (heap_lookup_grows _ _ _ _ G0 Hde) as Hde'.
  unfold HMV3ControlNet.loop_body in E. cbv beta iota zeta in E. peel_inr.
  all: try (exfalso; lia).
  all: repeat run_one'.
  all: cbn [fst snd] in *.
  all: repeat match goal with
       | H1 : ?h !! ?r = Some ?x, H2 : ?h !! ?r = Some ?y |- _ =>
           rewrite H1 in H2; injection H2 as <-
       | H1 : (?l ++ _) !! length ?l = Some _ |- _ =>
           rewrite lookup_snoc_length in H1; injection H1 as <-
       | H1 : (?l ++ _) !! length ?l = Some _ |- _ =>
           rewrite lookup_app_length in H1; cbn in H1; injection H1 as <-
       | Hp : pair _ _ = pair _ _ |- _ => injection Hp as <- <-
       | H1 : ((_ ++ _) ++ _) !! _ = Some _ |- _ => rewrite <- app_assoc in H1
       end.
  all: cbn [shape val] in *; simplify_eq.
  all: rewrite ?Hv in *.
  all: unfold HMV3_chain_inv; cbv zeta; cbn [fst snd st_heap st_trace]; split_and!.
  all: try solve [rewrite <- !app_assoc; by apply heap_grows_app].
  all: try solve [rewrite Htr; unfold HMV3_chain_trace; rewrite seq_S, map_app, concat_app;
                  cbn [map concat]; rewrite app_nil_r; unfold HMV3_stage_trace;
                  repeat case_decide; try lia; rewrite <- !app_assoc; reflexivity].
  all: try solve [eexists; split; [heap_idx | reflexivity]].
  all: intros j Hj; destruct (decide (j = k)) as [->|Hjk].
  1,3,5,7: split_and!;
    [ stage_new
    | intros; first [exfalso; lia | stage_new]
    | intros; first [exfalso; lia | stage_new]
    | intros b Hb; rewrite Hk in Hb; injection Hb as <-;
      split; intros; first [exfalso; lia | congruence] ].
  all: destruct (Hd j ltac:(lia)) as (Hu & Hu2 & Hu1 & Hc).
  all: split_and!; [| intros Hx; specialize (Hu2 Hx) | intros Hx; specialize (Hu1 Hx) | exact Hc].
  all: stage_out_keep; (eapply stage_out_grows; [|eassumption]);
       rewrite <- !app_assoc; apply heap_grows_app, heap_grows_refl.
Qed.
Lemma stage_out_base {Self} (s0 s1 s : state Self) d key v :
  length (st_heap s0) <= length (st_heap s1) -> stage_out s1 s d key v -> stage_out s0 s d key v.
Proof. intros Hl (r & tr & H1 & H2 & H3 & H4). exists r, tr. split_and!; [done|lia|done|done]. Qed.

Ltac HMV3_chain_run :=
  lazymatch goal with
  | El : for_enumerate _ (HMV3ControlNet.loop_body ?self _ ?de) _ ?sL = inr (?acc, _)
    |- context [HMV3_chain_trace ?v0 ?dv _ _] =>
    let e' := fresh "e" in let d' := fresh "d" in
    destruct acc as [e' d'];
    apply (for_enumerate_inv (HMV3_chain_inv self v0 dv sL)) in El;
    [ let Htr := fresh "Htr" in let Hd := fresh "Hd" in
      destruct El as (_ & Htr & _ & Hd);
      cbn [st_heap st_trace snd] in *; rewrite ?length_app in *; cbn [length] in *;
      split;
      [ rewrite Htr; rewrite <- ?app_assoc; reflexivity
      | let j := fresh "j" in let Hj := fresh "Hj" in
        let H1 := fresh in let H2 := fresh in let H3 := fresh in let H4 := fresh in
        intros j Hj; destruct (Hd j Hj) as (H1 & H2 & H3 & H4);
        split_and!;
        [ eapply stage_out_base; [|exact H1]; cbn [st_heap]; rewrite ?length_app; cbn [length]; lia
        | intros; eapply stage_out_base; [|by apply H2]; cbn [st_heap]; rewrite ?length_app;
          cbn [length]; lia
        | intros; eapply stage_out_base; [|by apply H3]; cbn [st_heap]; rewrite ?length_app;
          cbn [length]; lia
        | exact H4 ] ]
    | split_and!; [apply heap_grows_refl | by rewrite app_nil_r | | intros ? ?; lia];
      cbn [fst st_heap]; eexists; split; [rewrite lookup_app_add; reflexivity | reflexivity]
    | let k := fresh "k" in let b := fresh "b" in let Hk := fresh "Hk" in
      let Hi := fresh "Hi" in let Eb := fresh "Eb" in
      let e0 := fresh "e" in let d0 := fresh "d" in let e1 := fresh "e" in let d1 := fresh "d" in
      let s1 := fresh "s" in let s2 := fresh "s" in
      intros k b [e0 d0] s1 [e1 d1] s2 Hk Hi Eb;
      eapply HMV3_chain_body; [| exact Hk | exact Hi | exact Eb];
      cbn [st_heap]; eexists; split; [rewrite lookup_app_add; reflexivity | reflexivity] ]
  end.

Lemma HMV3ControlNet_forward_run_dual condition dc fp emo st d st' t tdc tfp B C F Hh W :
  st_heap st !! condition = Some t -> shape t = [B; C; F; Hh; W] ->
  st_heap st !! dc = Some tdc -> st_heap st !! fp = Some tfp ->
  HMV3ControlNet.forward condition (PyTensor dc) (PyTensor fp) emo st = inr (d, st') ->
  let self := st_self st in
  let oh := Hh / HMV3ControlNet.scale_factor self in
  let ow := W / HMV3ControlNet.scale_factor self in
  let v0 := conv_in_value (val t) oh ow in
  let dv := dual_drive_value (val tdc) (val tfp) in
  let N := length (HMV3ControlNet.blocks_down self) in
  st_trace st' = st_trace st ++ conv_in_event (val t) oh ow ::
                   dual_drive_trace (val tdc) (val tfp) ++ HMV3_chain_trace v0 dv N N /\
  forall j, j < N -> HMV3_stage_facts self v0 dv st st' d j.
Proof.
  intros Ht Hs Hdc Hfp E. destruct st as [s0 h0 tr0 rs0]. unfold HMV3ControlNet.forward in E.
  cbv iota in E. peel_inr. cbn [st_heap st_self st_trace st_raised] in *.
  repeat run_one. heap_simpl. cbv zeta. unfold HMV3_stage_facts.
  HMV3_chain_run.
Qed.

Lemma HMV3ControlNet_forward_run_emo condition dc fp emo st d st' t temo B C F Hh W :
  ~ (exists a b, dc = PyTensor a /\ fp = PyTensor b) ->
  st_heap st !! condition = Some t -> shape t = [B; C; F; Hh; W] ->
  st_heap st !! emo = Some temo ->
  HMV3ControlNet.forward condition dc fp (PyTensor emo) st = inr (d, st') ->
  let self := st_self st in
  let oh := Hh / HMV3ControlNet.scale_factor self in
  let ow := W / HMV3ControlNet.scale_factor self in
  let v0 := conv_in_value (val t) oh ow in
  let dv := emo_drive_value sub_emo_embedding sub_emo_proj (val temo) in
  let N := length (HMV3ControlNet.blocks_down self) in
  st_trace st' = st_trace st ++ conv_in_event (val t) oh ow ::
                   emo_drive_trace sub_emo_embedding sub_emo_proj (val temo) ++
                   HMV3_chain_trace v0 dv N N /\
  forall j, j < N -> HMV3_stage_facts self v0 dv st st' d j.
Proof.
  intros Hn Ht Hs He E. destruct st as [s0 h0 tr0 rs0].
  assert (E' : HMV3ControlNet.forward condition PyNone PyNone (PyTensor emo)
                 (mkState s0 h0 tr0 rs0) = inr (d, st')).
  { destruct dc, fp; try (exfalso; apply Hn; eauto; fail); exact E. }
  clear E Hn. unfold HMV3ControlNet.forward in E'.
  cbv iota in E'. peel_inr. cbn [st_heap st_self st_trace st_raised] in *.
  repeat run_one. heap_simpl. cbv zeta. unfold HMV3_stage_facts.
  HMV3_chain_run.
Qed.

End HMV3Chain.

Section HMV3NeverKeyError.
Context `{SKSpatial}.

(** X9: [HMV3ControlNet.forward] never raises [KeyError]: its two reads of ["up3_0"] always
    find the key, so every exception it raises comes from elsewhere. *)
Theorem HMV3_forward_never_key_error condition dc fp emo st e st' :
  HMV3ControlNet.forward condition dc fp emo st = inl (e, st') -> forall k, e <> KeyError k.
Proof. intros E. exact (HMV3_forward_no_key condition dc fp emo st e st' E). Qed.

End HMV3NeverKeyError.

Lemma HMV3_forward_never_key_error_witness :
  exists self, HMV3ControlNet.init 1280 3 4 320 boc_v1 = inr self /\ exists e st',
    HMV3ControlNet.forward (H:=sk_same_hw) 0 PyNone PyNone (PyTensor 3)
      (mkState self example_heap [] []) = inl (e, st') /\ forall k, e <> KeyError k.
Proof.
  eexists; split; [reflexivity|].
  lazymatch goal with |- exists e st', ?m ?s = inl (e, st') /\ _ =>
    destruct (m s) as [[e st']|[d st']] eqn:E; pose proof E as E'; vm_compute in E';
      [|discriminate];
    exists e, st'; split; [reflexivity | exact (HMV3_forward_never_key_error (H:=sk_same_hw) _ _ _ _ _ _ _ E)]
  end.
Defined.

Section HMV3StageValues.
Context `{SKSpatial}.

(** X10: after a successful [HMV3ControlNet.forward], for each stage [j] with [u = N - j - 1],
    the output ["up3_u"] is a fresh tensor holding the un-flattened result of the first [j + 1]
    fusion blocks; ["down3_0"] (when [u = 2]) and ["down3_1"] (when [u = 1]) hold the
    un-flattened [conv_up2_down0] and [conv_up1_down1] of that same stage embedding. *)
Theorem HMV3_forward_stage_values :
  (forall condition dc fp emo st d st' t tdc tfp B C F Hh W,
    st_heap st !! condition = Some t -> shape t = [B; C; F; Hh; W] ->
    st_heap st !! dc = Some tdc -> st_heap st !! fp = Some tfp ->
    HMV3ControlNet.forward condition (PyTensor dc) (PyTensor fp) emo st = inr (d, st') ->
    let self := st_self st in
    let v0 := conv_in_value (val t) (Hh / HMV3ControlNet.scale_factor self)
                (W / HMV3ControlNet.scale_factor self) in
    let dv := dual_drive_value (val tdc) (val tfp) in
    let N := length (HMV3ControlNet.blocks_down self) in
    forall j, j < N ->
      stage_out st st' d ("up3_" +:+ pretty (N - j - 1)) (fusion_chain v0 dv (S j)) /\
      (N - j - 1 = 2 ->
         stage_out st st' d "down3_0" (VCall sub_conv_up2_down0 [fusion_chain v0 dv (S j)])) /\
      (N - j - 1 = 1 ->
         stage_out st st' d "down3_1" (VCall sub_conv_up1_down1 [fusion_chain v0 dv (S j)]))) /\
  (forall condition dc fp emo st d st' t temo B C F Hh W,
    ~ (exists a b, dc = PyTensor a /\ fp = PyTensor b) ->
    st_heap st !! condition = Some t -> shape t = [B; C; F; Hh; W] ->
    st_heap st !! emo = Some temo ->
    HMV3ControlNet.forward condition dc fp (PyTensor emo) st = inr (d, st') ->
    let self := st_self st in
    let v0 := conv_in_value (val t) (Hh / HMV3ControlNet.scale_factor self)
                (W / HMV3ControlNet.scale_factor self) in
    let dv := emo_drive_value sub_emo_embedding sub_emo_proj (val temo) in
    let N := length (HMV3ControlNet.blocks_down self) in
    forall j, j < N ->
      stage_out st st' d ("up3_" +:+ pretty (N - j - 1)) (fusion_chain v0 dv (S j)) /\
      (N - j - 1 = 2 ->
         stage_out st st' d "down3_0" (VCall sub_conv_up2_down0 [fusion_chain v0 dv (S j)])) /\
      (N - j - 1 = 1 ->
         stage_out st st' d "down3_1" (VCall sub_conv_up1_down1 [fusion_chain v0 dv (S j)]))).
Proof.
  split.
  - intros condition dc fp emo st d st' t tdc tfp B C F Hh W Ht Hs Hdc Hfp E.
    destruct (HMV3ControlNet_forward_run_dual condition dc fp emo st d st' t tdc tfp B C F Hh W
                Ht Hs Hdc Hfp E) as [_ Hv].
    cbv zeta. intros j Hj. destruct (Hv j Hj) as (H1 & H2 & H3 & _). auto.
  - intros condition dc fp emo st d st' t temo B C F Hh W Hn Ht Hs He E.
    destruct (HMV3ControlNet_forward_run_emo condition dc fp emo st d st' t temo B C F Hh W
                Hn Ht Hs He E) as [_ Hv].
    cbv zeta. intros j Hj. destruct (Hv j Hj) as (H1 & H2 & H3 & _). auto.
Qed.

End HMV3StageValues.

Lemma HMV3_forward_stage_values_witness :
  (exists self, HMV3ControlNet.init 1280 3 4 320 boc_v2 = inr self /\ exists d st',
     HMV3ControlNet.forward (H:=sk_same_hw) 0 (PyTensor 1) (PyTensor 2) PyNone
       (mkState self example_heap [] []) = inr (d, st') /\
     forall j, j < 4 ->
       stage_out (mkState self example_heap [] []) st' d ("up3_" +:+ pretty (4 - j - 1))
         (fusion_chain (conv_in_value (VArg "condition") 2 2) (dual_drive_value (VArg "drive_coeff") (VArg "face_parts")) (S j)) /\
       (4 - j - 1 = 2 -> stage_out (mkState self example_heap [] []) st' d "down3_0"
          (VCall sub_conv_up2_down0 [fusion_chain (conv_in_value (VArg "condition") 2 2) (dual_drive_value (VArg "drive_coeff") (VArg "face_parts")) (S j)])) /\
       (4 - j - 1 = 1 -> stage_out (mkState self example_heap [] []) st' d "down3_1"
          (VCall sub_conv_up1_down1 [fusion_chain (conv_in_value (VArg "condition") 2 2) (dual_drive_value (VArg "drive_coeff") (VArg "face_parts")) (S j)]))) /\
  (exists self, HMV3ControlNet.init 1280 3 4 320 boc_v2 = inr self /\ exists d st',
     HMV3ControlNet.forward (H:=sk_same_hw) 0 PyNone PyNone (PyTensor 3)
       (mkState self example_heap [] []) = inr (d, st') /\
     forall j, j < 4 ->
       stage_out (mkState self example_heap [] []) st' d ("up3_" +:+ pretty (4 - j - 1))
         (fusion_chain (conv_in_value (VArg "condition") 2 2) (emo_drive_value sub_emo_embedding sub_emo_proj (VArg "emo_embedding")) (S j)) /\
       (4 - j - 1 = 2 -> stage_out (mkState self example_heap [] []) st' d "down3_0"
          (VCall sub_conv_up2_down0 [fusion_chain (conv_in_value (VArg "condition") 2 2) (emo_drive_value sub_emo_embedding sub_emo_proj (VArg "emo_embedding")) (S j)])) /\
       (4 - j - 1 = 1 -> stage_out (mkState self example_heap [] []) st' d "down3_1"
          (VCall sub_conv_up1_down1 [fusion_chain (conv_in_value (VArg "condition") 2 2) (emo_drive_value sub_emo_embedding sub_emo_proj (VArg "emo_embedding")) (S j)]))).
Proof.
  destruct (HMV3_forward_stage_values (H:=sk_same_hw)) as (P1 & P2).
  split; run_forward.
  - lazymatch type of E with context [mkState ?s example_heap [] []] =>
      exact (P1 0 1 2 PyNone (mkState s example_heap [] []) _ _ (mkTensor [1; 3; 1; 8; 8] (VArg "condition")) (mkTensor [1; 1; 2] (VArg "drive_coeff"))
               (mkTensor [1; 1; 3; 1024] (VArg "face_parts")) 1 3 1 8 8 eq_refl eq_refl eq_refl eq_refl E) end.
  - lazymatch type of E with context [mkState ?s example_heap [] []] =>
      exact (P2 0 PyNone PyNone 3 (mkState s example_heap [] []) _ _ (mkTensor [1; 3; 1; 8; 8] (VArg "condition")) (mkTensor [1; 1; 2] (VArg "emo_embedding")) 1 3 1 8 8
               ltac:(intros (? & ? & ? & _); discriminate) eq_refl eq_refl eq_refl E) end.
Defined.

Section HMV3CallTrace.
Context `{SKSpatial}.

(** X11: a successful [HMV3ControlNet.forward] calls, in order, [conv_in], the modules of its
    driving path, then for each stage [j] the block [blocks_down[j]] on the running
    embedding and the driving embedding, followed by [conv_up2_down0] (stage [u = 2]) or
    [conv_up1_down1] (stage [u = 1]) on that stage's output, and nothing else. *)
Theorem HMV3_forward_call_trace :
  (forall condition dc fp emo st d st' t tdc tfp B C F Hh W,
    st_heap st !! condition = Some t -> shape t = [B; C; F; Hh; W] ->
    st_heap st !! dc = Some tdc -> st_heap st !! fp = Some tfp ->
    HMV3ControlNet.forward condition (PyTensor dc) (PyTensor fp) emo st = inr (d, st') ->
    let self := st_self st in
    let oh := Hh / HMV3ControlNet.scale_factor self in
    let ow := W / HMV3ControlNet.scale_factor self in
    let N := length (HMV3ControlNet.blocks_down self) in
    st_trace st' = st_trace st ++ conv_in_event (val t) oh ow ::
      dual_drive_trace (val tdc) (val tfp) ++
      HMV3_chain_trace (conv_in_value (val t) oh ow) (dual_drive_value (val tdc) (val tfp)) N N) /\
  (forall condition dc fp emo st d st' t temo B C F Hh W,
    ~ (exists a b, dc = PyTensor a /\ fp = PyTensor b) ->
    st_heap st !! condition = Some t -> shape t = [B; C; F; Hh; W] ->
    st_heap st !! emo = Some temo ->
    HMV3ControlNet.forward condition dc fp (PyTensor emo) st = inr (d, st') ->
    let self := st_self st in
    let oh := Hh / HMV3ControlNet.scale_factor self in
    let ow := W / HMV3ControlNet.scale_factor self in
    let N := length (HMV3ControlNet.blocks_down self) in
    st_trace st' = st_trace st ++ conv_in_event (val t) oh ow ::
      emo_drive_trace sub_emo_embedding sub_emo_proj (val temo) ++
      HMV3_chain_trace (conv_in_value (val t) oh ow)
        (emo_drive_value sub_emo_embedding sub_emo_proj (val temo)) N N).
Proof.
  split.
  - intros condition dc fp emo st d st' t tdc tfp B C F Hh W Ht Hs Hdc Hfp E.
    exact (proj1 (HMV3ControlNet_forward_run_dual condition dc fp emo st d st' t tdc tfp
                    B C F Hh W Ht Hs Hdc Hfp E)).
  - intros condition dc fp emo st d st' t temo B C F Hh W Hn Ht Hs He E.
    exact (proj1 (HMV3ControlNet_forward_run_emo condition dc fp emo st d st' t temo
                    B C F Hh W Hn Ht Hs He E)).
Qed.

End HMV3CallTrace.

Lemma HMV3_forward_call_trace_witness :
  (exists self, HMV3ControlNet.init 1280 3 4 320 boc_v2 = inr self /\ exists d st',
     HMV3ControlNet.forward (H:=sk_same_hw) 0 (PyTensor 1) (PyTensor 2) PyNone
       (mkState self example_heap [] []) = inr (d, st') /\
     st_trace st' = conv_in_event (VArg "condition") 2 2 ::
       dual_drive_trace (VArg "drive_coeff") (VArg "face_parts") ++
       HMV3_chain_trace (conv_in_value (VArg "condition") 2 2) (dual_drive_value (VArg "drive_coeff") (VArg "face_parts")) 4 4) /\
  (exists self, HMV3ControlNet.init 1280 3 4 320 boc_v2 = inr self /\ exists d st',
     HMV3ControlNet.forward (H:=sk_same_hw) 0 PyNone PyNone (PyTensor 3)
       (mkState self example_heap [] []) = inr (d, st') /\
     st_trace st' = conv_in_event (VArg "condition") 2 2 ::
       emo_drive_trace sub_emo_embedding sub_emo_proj (VArg "emo_embedding") ++
       HMV3_chain_trace (conv_in_value (VArg "condition") 2 2) (emo_drive_value sub_emo_embedding sub_emo_proj (VArg "emo_embedding")) 4 4).
Proof.
  destruct (HMV3_forward_call_trace (H:=sk_same_hw)) as (P1 & P2).
  split; run_forward.
  - lazymatch type of E with context [mkState ?s example_heap [] []] =>
      exact (P1 0 1 2 PyNone (mkState s example_heap [] []) _ _ (mkTensor [1; 3; 1; 8; 8] (VArg "condition")) (mkTensor [1; 1; 2] (VArg "drive_coeff"))
               (mkTensor [1; 1; 3; 1024] (VArg "face_parts")) 1 3 1 8 8 eq_refl eq_refl eq_refl eq_refl E) end.
  - lazymatch type of E with context [mkState ?s example_heap [] []] =>
      exact (P2 0 PyNone PyNone 3 (mkState s example_heap [] []) _ _ (mkTensor [1; 3; 1; 8; 8] (VArg "condition")) (mkTensor [1; 1; 2] (VArg "emo_embedding")) 1 3 1 8 8
               ltac:(intros (? & ? & ? & _); discriminate) eq_refl eq_refl eq_refl E) end.
Defined.

Section HMV3Needs1280.
Context `{SKSpatial}.

(** X12: a module built by [HMV3ControlNet.init] runs [forward] to completion only if the
    fusion stages feeding its hard-coded [Conv2d(1280, ...)] projections are 1280 wide:
    [block_out_channels[-3] = 1280] when there are at least 4 entries and
    [block_out_channels[-2] = 1280] when there are at least 3. *)
Theorem HMV3_forward_needs_1280 ec ic sf cad boc condition dc fp emo st d st' t B C F Hh W :
  HMV3ControlNet.init ec ic sf cad boc = inr (st_self st) ->
  st_heap st !! condition = Some t -> shape t = [B; C; F; Hh; W] ->
  HMV3_drive_inputs st dc fp emo ->
  HMV3ControlNet.forward condition dc fp emo st = inr (d, st') ->
  (4 <= length boc -> boc !! (length boc - 3) = Some 1280) /\
  (3 <= length boc -> boc !! (length boc - 2) = Some 1280).
Proof.
  intros Hi Ht Hs Hin E.
  assert (Hf : exists v0 dv, forall j, j < length (HMV3ControlNet.blocks_down (st_self st)) ->
             HMV3_stage_facts (st_self st) v0 dv st st' d j).
  { destruct Hin as [(rdc & rfp & tdc & tfp & -> & -> & H1 & H2) | (Hn & r & te & -> & H1)].
    - do 2 eexists.
      exact (proj2 (HMV3ControlNet_forward_run_dual condition rdc rfp emo st d st' t tdc tfp
                      B C F Hh W Ht Hs H1 H2 E)).
    - do 2 eexists.
      exact (proj2 (HMV3ControlNet_forward_run_emo condition dc fp r st d st' t te
                      B C F Hh W Hn Ht Hs H1 E)). }
  destruct Hf as (v0 & dv & Hf).
  unfold HMV3ControlNet.init in Hi. destruct (boc !! 0) as [c0|] eqn:H0; [|discriminate].
  injection Hi as Hi. rewrite <- Hi in Hf. unfold HMV3_stage_facts in Hf.
  cbn [HMV3ControlNet.blocks_down HMV3ControlNet.conv_up2_down0 HMV3ControlNet.conv_up1_down1
       conv_in_channels] in Hf.
  rewrite build_blocks_length in Hf.
  assert (Hch : forall j u, j < length boc - 1 -> length boc - 1 - j - 1 = u ->
            (u = 2 \/ u = 1) -> boc !! S j = Some 1280).
  { intros j u Hj Hu Hu'.
    destruct (lookup_lt_is_Some_2 (build_blocks boc cad 1024) j) as [b Hb].
    { by rewrite build_blocks_length. }
    destruct (Hf j Hj) as (_ & _ & _ & Hc). destruct (Hc b Hb) as [Hc2 Hc1].
    apply build_blocks_lookup in Hb as (_ & Hb & _). rewrite Hb.
    destruct Hu' as [-> | ->]; [rewrite Hc2 | rewrite Hc1]; auto. }
  split; intros Hl.
  - replace (length boc - 3) with (S (length boc - 4)) by lia.
    apply (Hch _ 2); lia.
  - replace (length boc - 2) with (S (length boc - 3)) by lia.
    apply (Hch _ 1); lia.
Qed.

End HMV3Needs1280.

Lemma HMV3_forward_needs_1280_witness :
  exists self, HMV3ControlNet.init 1280 3 4 320 boc_v2 = inr self /\ exists d st',
     HMV3ControlNet.forward (H:=sk_same_hw) 0 (PyTensor 1) (PyTensor 2) PyNone
       (mkState self example_heap [] []) = inr (d, st') /\
     (4 <= length boc_v2 -> boc_v2 !! (length boc_v2 - 3) = Some 1280) /\
     (3 <= length boc_v2 -> boc_v2 !! (length boc_v2 - 2) = Some 1280).
Proof.
  run_forward.
  lazymatch type of E with context [mkState ?s example_heap [] []] =>
    refine (HMV3_forward_needs_1280 (H:=sk_same_hw) 1280 3 4 320 boc_v2 0
              (PyTensor 1) (PyTensor 2) PyNone (mkState s example_heap [] []) _ _
              (mkTensor [1; 3; 1; 8; 8] (VArg "condition")) 1 3 1 8 8 eq_refl eq_refl eq_refl _ E) end.
  left. exists 1, 2, (mkTensor [1; 1; 2] (VArg "drive_coeff")), (mkTensor [1; 1; 3; 1024] (VArg "face_parts")). split_and!; reflexivity.
Defined.


Lemma forward_fusion_values_witness :
  (exists self, HMControlNet.init 1280 3 8 320 boc_v1 = inr self /\ exists d st',
     HMControlNet.forward (H:=sk_same_hw) 0 1 2 (mkState self example_heap [] []) = inr (d, st') /\
     forall i, i < 3 -> exists r tr, dict_lookup d ("down_" +:+ pretty i) = Some r /\
       st_heap st' !! r = Some tr /\
       val tr = VRearrange pat_unflatten_frames
         (fusion_chain (conv_in_value (VArg "condition") 1 1) (dual_drive_value (VArg "drive_coeff") (VArg "face_parts")) (S i))) /\
  (exists self, HMControlNet2.init 1280 3 8 320 boc_v1 = inr self /\ exists d st',
     HMControlNet2.forward (H:=sk_same_hw) 0 3 (mkState self example_heap [] []) = inr (d, st') /\
     forall i, i < 3 -> exists r tr, dict_lookup d ("down2_" +:+ pretty i) = Some r /\
       st_heap st' !! r = Some tr /\
       val tr = VRearrange pat_unflatten_frames
         (fusion_chain (conv_in_value (VArg "condition") 1 1) (emo_drive_value sub_exp_embedding sub_emo_proj (VArg "emo_embedding")) (S i))) /\
  (exists self, HMV2ControlNet.init 1280 3 4 320 boc_v2 = inr self /\ exists d st',
     HMV2ControlNet.forward (H:=sk_same_hw) 0 1 2 (mkState self example_heap [] []) = inr (d, st') /\
     forall i, i < 4 -> exists r tr, dict_lookup d ("up_v2_" +:+ pretty (4 - i - 1)) = Some r /\
       st_heap st' !! r = Some tr /\
       val tr = VRearrange pat_unflatten_frames
         (fusion_chain (conv_in_value (VArg "condition") 2 2) (dual_drive_value (VArg "drive_coeff") (VArg "face_parts")) (S i))) /\
  (exists self, HMV2ControlNet2.init 1280 3 4 320 boc_v2 = inr self /\ exists d st',
     HMV2ControlNet2.forward (H:=sk_same_hw) 0 3 (mkState self example_heap [] []) = inr (d, st') /\
     forall i, i < 4 -> exists r tr, dict_lookup d ("up2_v2_" +:+ pretty (4 - i - 1)) = Some r /\
       st_heap st' !! r = Some tr /\
       val tr = VRearrange pat_unflatten_frames
         (fusion_chain (conv_in_value (VArg "condition") 2 2) (emo_drive_value sub_exp_embedding sub_emo_proj (VArg "emo_embedding")) (S i))).
Proof.
  destruct (forward_fusion_values (H:=sk_same_hw)) as (P1 & P2 & P3 & P4).
  split_and!; run_forward.
  - refine (P1 0 1 2 _ _ _ (mkTensor [1; 3; 1; 8; 8] (VArg "condition"))
            (mkTensor [1; 1; 2] (VArg "drive_coeff")) (mkTensor [1; 1; 3; 1024] (VArg "face_parts")) 1 3 1 8 8 _ _ _ _ E); reflexivity.
  - refine (P2 0 3 _ _ _ (mkTensor [1; 3; 1; 8; 8] (VArg "condition")) (mkTensor [1; 1; 2] (VArg "emo_embedding")) 1 3 1 8 8 _ _ _ E); reflexivity.
  - refine (P3 0 1 2 _ _ _ (mkTensor [1; 3; 1; 8; 8] (VArg "condition"))
            (mkTensor [1; 1; 2] (VArg "drive_coeff")) (mkTensor [1; 1; 3; 1024] (VArg "face_parts")) 1 3 1 8 8 _ _ _ _ E); reflexivity.
  - refine (P4 0 3 _ _ _ (mkTensor [1; 3; 1; 8; 8] (VArg "condition")) (mkTensor [1; 1; 2] (VArg "emo_embedding")) 1 3 1 8 8 _ _ _ E); reflexivity.
Defined.

Lemma forward_call_trace_witness :
  (exists self, HMControlNet.init 1280 3 8 320 boc_v1 = inr self /\ exists d st',
     HMControlNet.forward (H:=sk_same_hw) 0 1 2 (mkState self example_heap [] []) = inr (d, st') /\
     st_trace st' = conv_in_event (VArg "condition") 1 1 ::
       dual_drive_trace (VArg "drive_coeff") (VArg "face_parts") ++
       chain_trace (conv_in_value (VArg "condition") 1 1) (dual_drive_value (VArg "drive_coeff") (VArg "face_parts")) 3) /\
  (exists self, HMControlNet2.init 1280 3 8 320 boc_v1 = inr self /\ exists d st',
     HMControlNet2.forward (H:=sk_same_hw) 0 3 (mkState self example_heap [] []) = inr (d, st') /\
     st_trace st' = conv_in_event (VArg "condition") 1 1 ::
       emo_drive_trace sub_exp_embedding sub_emo_proj (VArg "emo_embedding") ++
       chain_trace (conv_in_value (VArg "condition") 1 1) (emo_drive_value sub_exp_embedding sub_emo_proj (VArg "emo_embedding")) 3) /\
  (exists self, HMV2ControlNet.init 1280 3 4 320 boc_v2 = inr self /\ exists d st',
     HMV2ControlNet.forward (H:=sk_same_hw) 0 1 2 (mkState self example_heap [] []) = inr (d, st') /\
     st_trace st' = conv_in_event (VArg "condition") 2 2 ::
       dual_drive_trace (VArg "drive_coeff") (VArg "face_parts") ++
       chain_trace (conv_in_value (VArg "condition") 2 2) (dual_drive_value (VArg "drive_coeff") (VArg "face_parts")) 4) /\
  (exists self, HMV2ControlNet2.init 1280 3 4 320 boc_v2 = inr self /\ exists d st',
     HMV2ControlNet2.forward (H:=sk_same_hw) 0 3 (mkState self example_heap [] []) = inr (d, st') /\
     st_trace st' = conv_in_event (VArg "condition") 2 2 ::
       emo_drive_trace sub_exp_embedding sub_emo_proj (VArg "emo_embedding") ++
       chain_trace (conv_in_value (VArg "condition") 2 2) (emo_drive_value sub_exp_embedding sub_emo_proj (VArg "emo_embedding")) 4).
Proof.
  destruct (forward_call_trace (H:=sk_same_hw)) as (P1 & P2 & P3 & P4).
  split_and!; run_forward.
  - refine (P1 0 1 2 _ _ _ (mkTensor [1; 3; 1; 8; 8] (VArg "condition"))
            (mkTensor [1; 1; 2] (VArg "drive_coeff")) (mkTensor [1; 1; 3; 1024] (VArg "face_parts")) 1 3 1 8 8 _ _ _ _ E); reflexivity.
  - refine (P2 0 3 _ _ _ (mkTensor [1; 3; 1; 8; 8] (VArg "condition")) (mkTensor [1; 1; 2] (VArg "emo_embedding")) 1 3 1 8 8 _ _ _ E); reflexivity.
  - refine (P3 0 1 2 _ _ _ (mkTensor [1; 3; 1; 8; 8] (VArg "condition"))
            (mkTensor [1; 1; 2] (VArg "drive_coeff")) (mkTensor [1; 1; 3; 1024] (VArg "face_parts")) 1 3 1 8 8 _ _ _ _ E); reflexivity.
  - refine (P4 0 3 _ _ _ (mkTensor [1; 3; 1; 8; 8] (VArg "condition")) (mkTensor [1; 1; 2] (VArg "emo_embedding")) 1 3 1 8 8 _ _ _ E); reflexivity.
Defined.

Lemma forward_outputs_fresh_distinct_witness :
  (exists self, HMControlNet.init 1280 3 8 320 boc_v1 = inr self /\ exists d st',
     HMControlNet.forward (H:=sk_same_hw) 0 1 2 (mkState self example_heap [] []) = inr (d, st') /\
     (forall k r, dict_lookup d k = Some r -> 4 <= r) /\
     (forall k k' r, dict_lookup d k = Some r -> dict_lookup d k' = Some r -> k = k')) /\
  (exists self, HMControlNet2.init 1280 3 8 320 boc_v1 = inr self /\ exists d st',
     HMControlNet2.forward (H:=sk_same_hw) 0 3 (mkState self example_heap [] []) = inr (d, st') /\
     (forall k r, dict_lookup d k = Some r -> 4 <= r) /\
     (forall k k' r, dict_lookup d k = Some r -> dict_lookup d k' = Some r -> k = k')) /\
  (exists self, HMV2ControlNet.init 1280 3 4 320 boc_v2 = inr self /\ exists d st',
     HMV2ControlNet.forward (H:=sk_same_hw) 0 1 2 (mkState self example_heap [] []) = inr (d, st') /\
     (forall k r, dict_lookup d k = Some r -> 4 <= r) /\
     (forall k k' r, dict_lookup d k = Some r -> dict_lookup d k' = Some r -> k = k')) /\
  (exists self, HMV2ControlNet2.init 1280 3 4 320 boc_v2 = inr self /\ exists d st',
     HMV2ControlNet2.forward (H:=sk_same_hw) 0 3 (mkState self example_heap [] []) = inr (d, st') /\
     (forall k r, dict_lookup d k = Some r -> 4 <= r) /\
     (forall k k' r, dict_lookup d k = Some r -> dict_lookup d k' = Some r -> k = k')).
Proof.
  destruct (forward_outputs_fresh_distinct (H:=sk_same_hw)) as (P1 & P2 & P3 & P4).
  split_and!; run_forward.
  - refine (P1 0 1 2 _ _ _ (mkTensor [1; 3; 1; 8; 8] (VArg "condition"))
            (mkTensor [1; 1; 2] (VArg "drive_coeff")) (mkTensor [1; 1; 3; 1024] (VArg "face_parts")) 1 3 1 8 8 _ _ _ _ E); reflexivity.
  - refine (P2 0 3 _ _ _ (mkTensor [1; 3; 1; 8; 8] (VArg "condition")) (mkTensor [1; 1; 2] (VArg "emo_embedding")) 1 3 1 8 8 _ _ _ E); reflexivity.
  - refine (P3 0 1 2 _ _ _ (mkTensor [1; 3; 1; 8; 8] (VArg "condition"))
            (mkTensor [1; 1; 2] (VArg "drive_coeff")) (mkTensor [1; 1; 3; 1024] (VArg "face_parts")) 1 3 1 8 8 _ _ _ _ E); reflexivity.
  - refine (P4 0 3 _ _ _ (mkTensor [1; 3; 1; 8; 8] (VArg "condition")) (mkTensor [1; 1; 2] (VArg "emo_embedding")) 1 3 1 8 8 _ _ _ E); reflexivity.
Defined.

Lemma forward_condition_rank_error_witness :
  (exists self, HMControlNet.init 1280 3 8 320 boc_v1 = inr self /\
     HMControlNet.forward (H:=sk_same_hw) 1 1 2 (mkState self example_heap [] []) =
       inl (unpack_error, mkState self example_heap [] [unpack_error])) /\
  (exists self, HMControlNet2.init 1280 3 8 320 boc_v1 = inr self /\
     HMControlNet2.forward (H:=sk_same_hw) 1 3 (mkState self example_heap [] []) =
       inl (unpack_error, mkState self example_heap [] [unpack_error])) /\
  (exists self, HMV2ControlNet.init 1280 3 8 320 boc_v2 = inr self /\
     HMV2ControlNet.forward (H:=sk_same_hw) 1 1 2 (mkState self example_heap [] []) =
       inl (unpack_error, mkState self example_heap [] [unpack_error])) /\
  (exists self, HMV3ControlNet.init 1280 3 8 320 boc_v2 = inr self /\
     HMV3ControlNet.forward (H:=sk_same_hw) 1 PyNone PyNone (PyTensor 3) (mkState self example_heap [] []) =
       inl (unpack_error, mkState self example_heap [] [unpack_error])) /\
  (exists self, HMV2ControlNet2.init 1280 3 8 320 boc_v2 = inr self /\
     HMV2ControlNet2.forward (H:=sk_same_hw) 1 3 (mkState self example_heap [] []) =
       inl (unpack_error, mkState self example_heap [] [unpack_error])).
Proof.
  destruct (forward_condition_rank_error (H:=sk_same_hw)) as (P1 & P2 & P3 & P4 & P5).
  split_and!; (eexists; split; [reflexivity|]).
  - apply (P1 1 1 2 (mkState _ example_heap [] []) (mkTensor [1; 1; 2] (VArg "drive_coeff"))); [reflexivity | cbn; lia].
  - apply (P2 1 3 (mkState _ example_heap [] []) (mkTensor [1; 1; 2] (VArg "drive_coeff"))); [reflexivity | cbn; lia].
  - apply (P3 1 1 2 (mkState _ example_heap [] []) (mkTensor [1; 1; 2] (VArg "drive_coeff"))); [reflexivity | cbn; lia].
  - apply (P4 1 PyNone PyNone (PyTensor 3) (mkState _ example_heap [] []) (mkTensor [1; 1; 2] (VArg "drive_coeff"))); [reflexivity | cbn; lia].
  - apply (P5 1 3 (mkState _ example_heap [] []) (mkTensor [1; 1; 2] (VArg "drive_coeff"))); [reflexivity | cbn; lia].
Defined.

Lemma forward_zero_scale_factor_witness :
  (exists self, HMControlNet.init 1280 3 0 320 boc_v1 = inr self /\ exists st',
     HMControlNet.forward (H:=sk_same_hw) 0 1 2 (mkState self example_heap [] []) =
       inl (ZeroDivisionError, st') /\ st_trace st' = [] /\ st_raised st' = [ZeroDivisionError]) /\
  (exists self, HMControlNet2.init 1280 3 0 320 boc_v1 = inr self /\ exists st',
     HMControlNet2.forward (H:=sk_same_hw) 0 3 (mkState self example_heap [] []) =
       inl (ZeroDivisionError, st') /\ st_trace st' = [] /\ st_raised st' = [ZeroDivisionError]) /\
  (exists self, HMV2ControlNet.init 1280 3 0 320 boc_v2 = inr self /\ exists st',
     HMV2ControlNet.forward (H:=sk_same_hw) 0 1 2 (mkState self example_heap [] []) =
       inl (ZeroDivisionError, st') /\ st_trace st' = [] /\ st_raised st' = [ZeroDivisionError]) /\
  (exists self, HMV3ControlNet.init 1280 3 0 320 boc_v2 = inr self /\ exists st',
     HMV3ControlNet.forward (H:=sk_same_hw) 0 PyNone PyNone (PyTensor 3) (mkState self example_heap [] []) =
       inl (ZeroDivisionError, st') /\ st_trace st' = [] /\ st_raised st' = [ZeroDivisionError]) /\
  (exists self, HMV2ControlNet2.init 1280 3 0 320 boc_v2 = inr self /\ exists st',
     HMV2ControlNet2.forward (H:=sk_same_hw) 0 3 (mkState self example_heap [] []) =
       inl (ZeroDivisionError, st') /\ st_trace st' = [] /\ st_raised st' = [ZeroDivisionError]).
Proof.
  destruct (forward_zero_scale_factor (H:=sk_same_hw)) as (P1 & P2 & P3 & P4 & P5).
  split_and!; (eexists; split; [reflexivity|]).
  - lazymatch goal with |- context [mkState ?s example_heap [] []] =>
      exact (P1 0 1 2 (mkState s example_heap [] []) (mkTensor [1; 3; 1; 8; 8] (VArg "condition")) 1 3 1 8 8 eq_refl eq_refl
               eq_refl) end.
  - lazymatch goal with |- context [mkState ?s example_heap [] []] =>
      exact (P2 0 3 (mkState s example_heap [] []) (mkTensor [1; 3; 1; 8; 8] (VArg "condition")) 1 3 1 8 8 eq_refl eq_refl
               eq_refl) end.
  - lazymatch goal with |- context [mkState ?s example_heap [] []] =>
      exact (P3 0 1 2 (mkState s example_heap [] []) (mkTensor [1; 3; 1; 8; 8] (VArg "condition")) 1 3 1 8 8 eq_refl eq_refl
               eq_refl) end.
  - lazymatch goal with |- context [mkState ?s example_heap [] []] =>
      exact (P4 0 PyNone PyNone (PyTensor 3) (mkState s example_heap [] []) (mkTensor [1; 3; 1; 8; 8] (VArg "condition")) 1 3 1 8 8 eq_refl eq_refl
               eq_refl) end.
  - lazymatch goal with |- context [mkState ?s example_heap [] []] =>
      exact (P5 0 3 (mkState s example_heap [] []) (mkTensor [1; 3; 1; 8; 8] (VArg "condition")) 1 3 1 8 8 eq_refl eq_refl
               eq_refl) end.
Defined.

Lemma forward_empty_resize_error_witness :
  (exists self, HMControlNet.init 1280 3 16 320 boc_v1 = inr self /\ exists st',
     HMControlNet.forward (H:=sk_same_hw) 0 1 2 (mkState self example_heap [] []) =
       inl (empty_size_error, st') /\ st_trace st' = [] /\ st_raised st' = [empty_size_error]) /\
  (exists self, HMControlNet2.init 1280 3 16 320 boc_v1 = inr self /\ exists st',
     HMControlNet2.forward (H:=sk_same_hw) 0 3 (mkState self example_heap [] []) =
       inl (empty_size_error, st') /\ st_trace st' = [] /\ st_raised st' = [empty_size_error]) /\
  (exists self, HMV2ControlNet.init 1280 3 16 320 boc_v2 = inr self /\ exists st',
     HMV2ControlNet.forward (H:=sk_same_hw) 0 1 2 (mkState self example_heap [] []) =
       inl (empty_size_error, st') /\ st_trace st' = [] /\ st_raised st' = [empty_size_error]) /\
  (exists self, HMV3ControlNet.init 1280 3 16 320 boc_v2 = inr self /\ exists st',
     HMV3ControlNet.forward (H:=sk_same_hw) 0 PyNone PyNone (PyTensor 3) (mkState self example_heap [] []) =
       inl (empty_size_error, st') /\ st_trace st' = [] /\ st_raised st' = [empty_size_error]) /\
  (exists self, HMV2ControlNet2.init 1280 3 16 320 boc_v2 = inr self /\ exists st',
     HMV2ControlNet2.forward (H:=sk_same_hw) 0 3 (mkState self example_heap [] []) =
       inl (empty_size_error, st') /\ st_trace st' = [] /\ st_raised st' = [empty_size_error]).
Proof.
  destruct (forward_empty_resize_error (H:=sk_same_hw)) as (P1 & P2 & P3 & P4 & P5).
  split_and!; (eexists; split; [reflexivity|]).
  - lazymatch goal with |- context [mkState ?s example_heap [] []] =>
      exact (P1 0 1 2 (mkState s example_heap [] []) (mkTensor [1; 3; 1; 8; 8] (VArg "condition")) 1 3 1 8 8 eq_refl eq_refl
               ltac:(cbn; lia) ltac:(left; reflexivity)) end.
  - lazymatch goal with |- context [mkState ?s example_heap [] []] =>
      exact (P2 0 3 (mkState s example_heap [] []) (mkTensor [1; 3; 1; 8; 8] (VArg "condition")) 1 3 1 8 8 eq_refl eq_refl
               ltac:(cbn; lia) ltac:(left; reflexivity)) end.
  - lazymatch goal with |- context [mkState ?s example_heap [] []] =>
      exact (P3 0 1 2 (mkState s example_heap [] []) (mkTensor [1; 3; 1; 8; 8] (VArg "condition")) 1 3 1 8 8 eq_refl eq_refl
               ltac:(cbn; lia) ltac:(left; reflexivity)) end.
  - lazymatch goal with |- context [mkState ?s example_heap [] []] =>
      exact (P4 0 PyNone PyNone (PyTensor 3) (mkState s example_heap [] []) (mkTensor [1; 3; 1; 8; 8] (VArg "condition")) 1 3 1 8 8 eq_refl eq_refl
               ltac:(cbn; lia) ltac:(left; reflexivity)) end.
  - lazymatch goal with |- context [mkState ?s example_heap [] []] =>
      exact (P5 0 3 (mkState s example_heap [] []) (mkTensor [1; 3; 1; 8; 8] (VArg "condition")) 1 3 1 8 8 eq_refl eq_refl
               ltac:(cbn; lia) ltac:(left; reflexivity)) end.
Defined.

Lemma forward_success_needs_witness :
  (exists self, HMControlNet.init 1280 3 8 320 boc_v1 = inr self /\ exists d st',
     HMControlNet.forward (H:=sk_same_hw) 0 1 2 (mkState self example_heap [] [])
       = inr (d, st') /\
     3 = conv_in_channels (HMControlNet.conv_in self) /\ 3 <> 0 /\ 0 < 8 /\ 8 <= 8 /\ 8 <= 8) /\
  (exists self, HMControlNet2.init 1280 3 8 320 boc_v1 = inr self /\ exists d st',
     HMControlNet2.forward (H:=sk_same_hw) 0 3 (mkState self example_heap [] [])
       = inr (d, st') /\
     3 = conv_in_channels (HMControlNet2.conv_in self) /\ 3 <> 0 /\ 0 < 8 /\ 8 <= 8 /\ 8 <= 8) /\
  (exists self, HMV2ControlNet.init 1280 3 4 320 boc_v2 = inr self /\ exists d st',
     HMV2ControlNet.forward (H:=sk_same_hw) 0 1 2 (mkState self example_heap [] [])
       = inr (d, st') /\
     3 = conv_in_channels (HMV2ControlNet.conv_in self) /\ 3 <> 0 /\ 0 < 4 /\ 4 <= 8 /\ 4 <= 8) /\
  (exists self, HMV3ControlNet.init 1280 3 4 320 boc_v2 = inr self /\ exists d st',
     HMV3ControlNet.forward (H:=sk_same_hw) 0 PyNone PyNone (PyTensor 3) (mkState self example_heap [] [])
       = inr (d, st') /\
     3 = conv_in_channels (HMV3ControlNet.conv_in self) /\ 3 <> 0 /\ 0 < 4 /\ 4 <= 8 /\ 4 <= 8) /\
  (exists self, HMV2ControlNet2.init 1280 3 4 320 boc_v2 = inr self /\ exists d st',
     HMV2ControlNet2.forward (H:=sk_same_hw) 0 3 (mkState self example_heap [] [])
       = inr (d, st') /\
     3 = conv_in_channels (HMV2ControlNet2.conv_in self) /\ 3 <> 0 /\ 0 < 4 /\ 4 <= 8 /\ 4 <= 8).
Proof.
  destruct (forward_success_needs (H:=sk_same_hw)) as (P1 & P2 & P3 & P4 & P5).
  split_and!; run_forward.
  - lazymatch type of E with context [mkState ?s example_heap [] []] =>
      exact (P1 0 1 2 (mkState s example_heap [] []) _ _ (mkTensor [1; 3; 1; 8; 8] (VArg "condition")) 1 3 1 8 8 eq_refl eq_refl E) end.
  - lazymatch type of E with context [mkState ?s example_heap [] []] =>
      exact (P2 0 3 (mkState s example_heap [] []) _ _ (mkTensor [1; 3; 1; 8; 8] (VArg "condition")) 1 3 1 8 8 eq_refl eq_refl E) end.
  - lazymatch type of E with context [mkState ?s example_heap [] []] =>
      exact (P3 0 1 2 (mkState s example_heap [] []) _ _ (mkTensor [1; 3; 1; 8; 8] (VArg "condition")) 1 3 1 8 8 eq_refl eq_refl E) end.
  - lazymatch type of E with context [mkState ?s example_heap [] []] =>
      exact (P4 0 PyNone PyNone (PyTensor 3) (mkState s example_heap [] []) _ _ (mkTensor [1; 3; 1; 8; 8] (VArg "condition")) 1 3 1 8 8 eq_refl eq_refl E) end.
  - lazymatch type of E with context [mkState ?s example_heap [] []] =>
      exact (P5 0 3 (mkState s example_heap [] []) _ _ (mkTensor [1; 3; 1; 8; 8] (VArg "condition")) 1 3 1 8 8 eq_refl eq_refl E) end.
Defined.

